(** * Image-Similarity-Checker: the folder scan of image_similarity_checker.py

    A shallow embedding of [auto_scan_folder], [compare_image_with_folder]
    and the helpers they call, with the properties of the pair scan.

    The image library (cv2), the similarity metric (skimage's
    structural_similarity), the file system (os, os.path) and the optional
    progress-bar library (tqdm) are collaborators of the program: they are
    the fields of the class [World].  A call of a collaborator either
    returns or raises an exception of class [Exception]; the functions of
    [os.path] are taken to return, and [os.listdir] to return for a
    directory and to raise for any other path.

    Similarity scores are Python floats; they are modelled as rationals, so
    that [>=] and the sort key are the order of [Q] (a NaN score is outside
    the model), and so is the percentage of the window title.  The floats
    of the text progress bar, whose integer part is the number of cells,
    are modelled as binary64 numbers.  File names are ASCII strings.  The
    elapsed time that the report prints is left out.  Console output is a
    list of events that carry the values printed, not their formatting.

    The operator's interrupt is a parameter of the scan: the number of
    pairs processed when the signal arrives, delivered as
    [KeyboardInterrupt] where the scoring of the next pair starts.  Only
    an interrupt that arrives during the pair loop is modelled; one that
    arrives during the checks, the load loop or the report is not. *)

From Stdlib Require Import Ascii QArith Sorted Permutation.
From stdpp Require Import gmap strings list.

Local Open Scope string_scope.
Local Open Scope list_scope.
Local Open Scope nat_scope.

(** ** Python strings *)

Module PyStr.

(** [str.lower] on one ASCII character. *)
Definition lower_char (c : ascii) : ascii :=
  let n := nat_of_ascii c in
  if (65 <=? n) && (n <=? 90) then ascii_of_nat (n + 32) else c.

(** [s.lower()] *)
Fixpoint lower (s : string) : string :=
  match s with
  | EmptyString => EmptyString
  | String c s' => String (lower_char c) (lower s')
  end.

(** [s.endswith(suffix)]: some tail of [s] is [suffix]. *)
Fixpoint endswith (s suffix : string) : bool :=
  if String.eqb s suffix then true
  else match s with
       | EmptyString => false
       | String _ s' => endswith s' suffix
       end.

(** [s.endswith(tuple)] *)
Definition endswith_any (s : string) (suffixes : list string) : bool :=
  existsb (endswith s) suffixes.

(** [s[:n]] *)
Definition prefix (n : nat) (s : string) : string := String.substring 0 n s.

End PyStr.

(** ** Values of the collaborating libraries *)

(** A numpy array: its [shape] tuple and its flat buffer. *)
Record ndarray := mk_ndarray { shape : list nat; buffer : list Z }.

(** Outcome of a library call: a value, or an exception of class
    [Exception] (cv2.error, OSError, ValueError, ...) with its message. *)
Inductive res (A : Type) :=
| Ok (a : A)
| Err (msg : string).
Arguments Ok {A} a.
Arguments Err {A} msg.

(** The exceptions that can travel through the functions of the program.
    [KeyboardInterrupt] is not an [Exception]; the other two are. *)
Inductive exn :=
| KeyboardInterrupt
| UnboundLocalError (name : string)
| LibError (msg : string).

(** A MatchResult of the folder scan: (name of img1, name of img2, score). *)
Definition match_result : Type := string * string * Q.
Definition mr_score (m : match_result) : Q := snd m.

(** A result line of the base-vs-folder mode: (filename, score). *)
Definition folder_result : Type := string * Q.

(** ** Python floats

    The arithmetic of [print_progress]: the quotient of two ints and the
    product of a float and an int are the exact results rounded to the
    nearest binary64 number, ties to even. *)

Module PyFloat.

(** A float is an IEEE 754 binary64 number.  The floats that occur are
    not negative: [Num m q] is the number m * 2^q, with 0 <= m <= 2^53
    and -1074 <= q; [Inf] is infinity. *)
Inductive float :=
| Num (m q : Z)
| Inf.

(** The integer nearest to n / d, for d > 0; of two nearest integers the
    even one. *)
Definition nearest_even (n d : Z) : Z :=
  let k := (n / d)%Z in
  match (2 * (n mod d) ?= d)%Z with
  | Lt => k
  | Gt => (k + 1)%Z
  | Eq => if Z.even k then k else (k + 1)%Z
  end.

(** The exponent e of n / d, for n > 0 and d > 0:
    2^e <= n / d < 2^(e+1). *)
Definition exponent (n d : Z) : Z :=
  let e := (Z.log2 n - Z.log2 d)%Z in
  if (n * 2 ^ Z.max 0 (- e) <? d * 2 ^ Z.max 0 e)%Z then (e - 1)%Z else e.

(** The float nearest to n / d, for n >= 0 and d > 0, ties to even: 53
    significant bits, the exponent of the last place not below -1074,
    and infinity from 2^1024 on. *)
Definition round (n d : Z) : float :=
  if (n =? 0)%Z then Num 0 0
  else
    let q := Z.max (exponent n d - 52) (-1074) in
    let m := nearest_even (n * 2 ^ Z.max 0 (- q)) (d * 2 ^ Z.max 0 q) in
    if (2 ^ 1024 <=? m * 2 ^ q)%Z then Inf else Num m q.

(** [a / b] for two ints, a >= 0 and b >= 0: the quotient correctly
    rounded. *)
Definition truediv (a b : Z) : res float :=
  if (b =? 0)%Z then Err "ZeroDivisionError"
  else match round a b with
       | Inf => Err "OverflowError"
       | x => Ok x
       end.

(** [k * x] and [x * k] for a float x and an int k that is a float
    itself, 0 < k <= 2^53: the product correctly rounded. *)
Definition times (k : Z) (x : float) : float :=
  match x with
  | Num m q => round (k * m * 2 ^ Z.max 0 q) (2 ^ Z.max 0 (- q))
  | Inf => Inf
  end.

(** [int(x)]: the integer part. *)
Definition to_int (x : float) : res Z :=
  match x with
  | Num m q => Ok (if (0 <=? q)%Z then (m * 2 ^ q)%Z else (m / 2 ^ (- q))%Z)
  | Inf => Err "OverflowError"
  end.

End PyFloat.

(** What [set_window_title] is called with. *)
Inductive title :=
| TitlePercent (progress : Q)     (* f"Авто-скан {progress:.1f}%" *)
| TitleDone.                      (* "Готово" *)

(** What the program writes to the console, the progress bars and the
    window title, in order.  Formatting of numbers is left out: an event
    carries the number that is formatted. *)
Inductive event :=
| LoadError (name msg : string)            (* load_image: "Ошибка загрузки" *)
| RecentFiles (names : list string)        (* load_image: "Последние файлы" *)
| FolderLine (filename : string) (similarity : Q)   (* "{filename}: {similarity:.2f}%" *)
| FolderHeader                             (* "Результаты:" *)
| FolderNoMatch                            (* "Совпадений не найдено." *)
| NoSuchFolder (folder : string)
| NeedTwoImages
| LoadBarOpen (files : list string)        (* tqdm(image_files, ...) *)
| LoadBanner                               (* "Загрузка изображений..." *)
| LoadBarUpdate (name : string)            (* load_pbar.update(1); set_postfix *)
| CacheError (name msg : string)           (* "Ошибка: {basename} - {e}" *)
| LoadBarClose
| PairBarOpen (total : nat)                (* tqdm(total=total_pairs, ...) *)
| PairBanner                               (* "Начато сравнение..." *)
| WindowTitle (t : title)
| CompareError (msg : string)              (* "Ошибка сравнения: {e}" *)
| PairBarUpdate (name1 name2 : string) (similarity : Q)
| TextProgress (filled : nat) (percent : PyFloat.float) (current total : nat)  (* print_progress *)
| PairBarClose
| Newline
| Summary (found : nat)                    (* "Найдено совпадений: {len(results)}" *)
| Row (idx : nat) (m : match_result)       (* one line of the top-20 table *)
| Interrupted                              (* "Сканирование прервано!" *)
| ClearLine.

(** Instrumentation of the pair loop: which index pairs reach the scoring
    block, when the shape-reconciliation branch is entered, and the
    operands of each call of the metric. *)
Inductive probe :=
| Visit (i j : nat)
| Reconcile (i j : nat)
| Metric (img1 img2 : ndarray).

(** ** The environment of a run *)

Class World := {
  (** [True] when [from tqdm import tqdm] succeeded. *)
  tqdm : bool;
  isdir : string -> bool;
  (** The entries of a directory, in the order [os.listdir] gives them;
      see [os_listdir] for a path that is no directory. *)
  listdir : string -> list string;
  path_join : string -> string -> string;
  abspath : string -> string;
  basename : string -> string;
  (** [open(path, 'rb').read()] *)
  read_file : string -> res (list Byte.byte);
  (** [cv2.imdecode(bytes, IMREAD_COLOR)]: [None] for bytes that are not
      an image. *)
  cv2_imdecode : list Byte.byte -> res (option ndarray);
  (** [cv2.resize(image, (width, height))]: a new array. *)
  cv2_resize : ndarray -> nat * nat -> res ndarray;
  (** [cv2.cvtColor(image, COLOR_BGR2GRAY)]: a new array. *)
  cv2_cvtColor : ndarray -> res ndarray;
  (** [structural_similarity(img1, img2, full=True)[0]] *)
  ssim : ndarray -> ndarray -> res Q
}.

(** ** Console and process-wide state *)

(** [history] is the attribute [load_image.history]; the empty list stands
    for the attribute not being there yet (the code creates it empty). *)
Record io := mk_io {
  history : list string;
  console : list event
}.

Definition emit (e : event) (s : io) : io :=
  {| history := history s; console := console s ++ [e] |}.

Definition set_history (h : list string) (s : io) : io :=
  {| history := h; console := console s |}.

(** [l[-n:]] for [n > 0] *)
Definition last_n {A} (n : nat) (l : list A) : list A :=
  drop (length l - n) l.

(** ** The helpers of the program *)

Section Helpers.
Context `{W : World}.

(** [load_image(image_path, verbose)]: the decoded image, or [None] after
    any exception (which is printed). *)
Definition load_image (image_path : string) (verbose : bool) (s : io)
  : option ndarray * io :=
  let absolute_path := abspath image_path in
  match read_file absolute_path with
  | Err e => (None, emit (LoadError (basename image_path) e) s)
  | Ok file_bytes =>
    match cv2_imdecode file_bytes with
    | Err e => (None, emit (LoadError (basename image_path) e) s)
    | Ok image =>
      if verbose && negb tqdm then
        let h := last_n 10 (history s ++ [PyStr.prefix 15 (basename image_path)]) in
        (image, emit (RecentFiles h) (set_history h s))
      else (image, s)
    end
  end.

Definition default_size : nat * nat := (300, 300).

(** [preprocess_image(image, size)].  [cv2.resize] raises cv2.error when
    it is handed [None]. *)
Definition preprocess_image (image : option ndarray) (size : nat * nat)
  : res ndarray :=
  match image with
  | None => Err "cv2.error: resize of None"
  | Some a =>
    match cv2_resize a size with
    | Ok resized => cv2_cvtColor resized
    | Err e => Err e
    end
  end.

(** [compare_images(img1, img2)] *)
Definition compare_images (img1 img2 : ndarray) : res Q :=
  match ssim img1 img2 with
  | Ok score => Ok (score * 100)%Q
  | Err e => Err e
  end.

End Helpers.

(** ** [list.sort(key=..., reverse=True)]

    Python's sort is stable, also with [reverse=True]: elements with equal
    keys keep their order.  [sort_desc key] is that sort, by insertion. *)

Section Sort.
Context {A : Type} (key : A -> Q).

Fixpoint insert_desc (x : A) (l : list A) : list A :=
  match l with
  | [] => [x]
  | y :: l' =>
    if Qle_bool (key y) (key x) then x :: y :: l'
    else y :: insert_desc x l'
  end.

Fixpoint sort_desc (l : list A) : list A :=
  match l with
  | [] => []
  | x :: l' => insert_desc x (sort_desc l')
  end.

End Sort.

(** ** Base-vs-folder mode *)

Section Folder.
Context `{W : World}.

(** [os.listdir(path)]: the entries of a directory; for a path that is
    no directory it raises (FileNotFoundError, NotADirectoryError). *)
Definition os_listdir (path : string) : res (list string) :=
  if isdir path then Ok (listdir path)
  else Err "FileNotFoundError: No such file or directory".

(** [cv2.resize(img2, (img1.shape[1], img1.shape[0]))] *)
Definition resize_like (img1 img2 : ndarray) : res ndarray :=
  match shape img1 !! 1, shape img1 !! 0 with
  | Some width, Some height => cv2_resize img2 (width, height)
  | _, _ => Err "IndexError: tuple index out of range"
  end.

(** The shape test and the resize of the second operand. *)
Definition reconcile_shape (img1 img2 : ndarray) : res ndarray :=
  if bool_decide (shape img1 = shape img2) then Ok img2
  else resize_like img1 img2.

(** What the [try] block of [compare_image_with_folder] computes for one
    file: its score against the base, or the exception that the bare
    [except] swallows. *)
Definition folder_score (base_image_proc : ndarray) (compare_img : option ndarray)
  : res Q :=
  match preprocess_image compare_img default_size with
  | Err e => Err e
  | Ok compare_img_proc =>
    match reconcile_shape base_image_proc compare_img_proc with
    | Err e => Err e
    | Ok img2 => compare_images base_image_proc img2
    end
  end.

(** One iteration of [for filename in os.listdir(folder_path)]. *)
Definition folder_entry (base_image_path folder_path : string) (min_similarity : Q)
    (base_image_proc : ndarray) (st : list folder_result * io) (filename : string)
  : list folder_result * io :=
  let file_path := path_join folder_path filename in
  if String.eqb (abspath file_path) (abspath base_image_path) then st
  else
    let loaded := load_image file_path false (snd st) in
    match folder_score base_image_proc (fst loaded) with
    | Err _ => (fst st, snd loaded)
    | Ok similarity =>
      if Qle_bool min_similarity similarity
      then (fst st ++ [(filename, similarity)],
            emit (FolderLine filename similarity) (snd loaded))
      else (fst st, snd loaded)
    end.

(** The final report of [compare_image_with_folder]. *)
Definition folder_report (results : list folder_result) (s : io) : io :=
  match results with
  | [] => emit FolderNoMatch s
  | _ :: _ =>
    fold_left (fun s' r => emit (FolderLine (fst r) (snd r)) s')
              (sort_desc snd results) (emit FolderHeader s)
  end.

(** [compare_image_with_folder(base_image_path, folder_path, min_similarity)]:
    [Err] when preprocessing the base image raises, and when
    [os.listdir], which is called outside any [try], raises. *)
Definition compare_image_with_folder (base_image_path folder_path : string)
    (min_similarity : Q) (s : io) : res unit * io :=
  let base := load_image base_image_path false s in
  match preprocess_image (fst base) default_size with
  | Err e => (Err e, snd base)
  | Ok base_image_proc =>
    match os_listdir folder_path with
    | Err e => (Err e, snd base)
    | Ok entries =>
      let st := fold_left
                  (folder_entry base_image_path folder_path min_similarity base_image_proc)
                  entries ([], snd base) in
      (Ok tt, folder_report (fst st) (snd st))
    end
  end.

End Folder.

(** ** The folder scan *)

(** The state of one call of [auto_scan_folder]: the console, the arrays it
    holds (an array is an object; the cache and the locals [img1], [img2]
    hold references into [heap]), and its local variables.  [progress] is
    [None] while the local variable is unbound. *)
Record scan_state := mk_scan {
  sio : io;
  heap : list ndarray;
  processed_images : gmap string nat;
  results : list match_result;
  current_pair : nat;
  progress : option Q;
  probes : list probe
}.

Definition enter (s : io) : scan_state :=
  {| sio := s; heap := []; processed_images := ∅; results := [];
     current_pair := 0; progress := None; probes := [] |}.

Definition print (e : event) (s : scan_state) : scan_state :=
  {| sio := emit e (sio s); heap := heap s; processed_images := processed_images s;
     results := results s; current_pair := current_pair s; progress := progress s;
     probes := probes s |}.

Definition set_sio (x : io) (s : scan_state) : scan_state :=
  {| sio := x; heap := heap s; processed_images := processed_images s;
     results := results s; current_pair := current_pair s; progress := progress s;
     probes := probes s |}.

(** A new array object; its reference is the old [length (heap s)]. *)
Definition alloc (a : ndarray) (s : scan_state) : scan_state :=
  {| sio := sio s; heap := heap s ++ [a]; processed_images := processed_images s;
     results := results s; current_pair := current_pair s; progress := progress s;
     probes := probes s |}.

(** [processed_images[img_path] = processed] *)
Definition cache_store (img_path : string) (r : nat) (s : scan_state) : scan_state :=
  {| sio := sio s; heap := heap s; processed_images := <[img_path := r]> (processed_images s);
     results := results s; current_pair := current_pair s; progress := progress s;
     probes := probes s |}.

(** [results.append(m)] *)
Definition results_append (m : match_result) (s : scan_state) : scan_state :=
  {| sio := sio s; heap := heap s; processed_images := processed_images s;
     results := results s ++ [m]; current_pair := current_pair s; progress := progress s;
     probes := probes s |}.

Definition set_results (l : list match_result) (s : scan_state) : scan_state :=
  {| sio := sio s; heap := heap s; processed_images := processed_images s;
     results := l; current_pair := current_pair s; progress := progress s;
     probes := probes s |}.

(** [current_pair += 1] *)
Definition next_pair (s : scan_state) : scan_state :=
  {| sio := sio s; heap := heap s; processed_images := processed_images s;
     results := results s; current_pair := S (current_pair s); progress := progress s;
     probes := probes s |}.

Definition set_progress (p : Q) (s : scan_state) : scan_state :=
  {| sio := sio s; heap := heap s; processed_images := processed_images s;
     results := results s; current_pair := current_pair s; progress := Some p;
     probes := probes s |}.

Definition probe_log (p : probe) (s : scan_state) : scan_state :=
  {| sio := sio s; heap := heap s; processed_images := processed_images s;
     results := results s; current_pair := current_pair s; progress := progress s;
     probes := probes s ++ [p] |}.

(** A statement either completes with a value or raises. *)
Inductive outcome (A : Type) :=
| Done (a : A) (s : scan_state)
| Raised (e : exn) (s : scan_state).
Arguments Done {A} a s.
Arguments Raised {A} e s.

Definition M (A : Type) : Type := scan_state -> outcome A.

Definition ret {A} (a : A) : M A := fun s => Done a s.

Definition bind {A B} (m : M A) (k : A -> M B) : M B :=
  fun s => match m s with
           | Done a s' => k a s'
           | Raised e s' => Raised e s'
           end.

(** A statement that cannot raise. *)
Definition exec (f : scan_state -> scan_state) : M unit := fun s => Done tt (f s).

Notation "'let*' x := m 'in' k" := (bind m (fun x => k))
  (at level 10, x name, m at level 100, k at level 200).
Notation "m ;;; k" := (bind m (fun _ => k))
  (at level 100, k at level 200, right associativity).

(** [for x in xs: body(x)] *)
Fixpoint for_each {X} (xs : list X) (body : X -> M unit) : M unit :=
  match xs with
  | [] => ret tt
  | x :: xs' => body x ;;; for_each xs' body
  end.

(** [math.comb(n, k)] *)
Fixpoint comb (n k : nat) : nat :=
  match k, n with
  | 0, _ => 1
  | S _, 0 => 0
  | S k', S n' => comb n' k' + comb n' k
  end.

(** [range(a, b)] *)
Definition range (a b : nat) : list nat := seq a (b - a).

Definition image_extensions : list string :=
  [".png"; ".jpg"; ".jpeg"; ".bmp"; ".tiff"].

(** [f.lower().endswith(('.png','.jpg','.jpeg','.bmp','.tiff'))] *)
Definition has_image_extension (f : string) : bool :=
  PyStr.endswith_any (PyStr.lower f) image_extensions.

Section Scan.
Context `{W : World}.

(** The operator's interrupt: [Some k] when the signal arrives once [k]
    pairs have been processed; it is delivered as [KeyboardInterrupt] at
    the start of the scoring of the next pair.  [None]: no interrupt. *)
Variable sigint : option nat.

(** The list comprehension over [os.listdir(folder_path)]; it is reached
    after the [os.path.isdir] check, where [os.listdir] returns. *)
Definition image_files (folder_path : string) : list string :=
  map (path_join folder_path) (filter (fun f => has_image_extension f = true) (listdir folder_path)).

(** *** Loading: the body of [for img_path in image_files] *)
Definition cache_image (img_path : string) : M unit := fun s =>
  let loaded := load_image img_path (negb tqdm) (sio s) in
  let s1 := set_sio (snd loaded) s in
  match preprocess_image (fst loaded) default_size with
  | Ok processed =>
    let s2 := cache_store img_path (length (heap s1)) (alloc processed s1) in
    Done tt (if tqdm
             then print (LoadBarUpdate (PyStr.prefix 20 (basename img_path))) s2
             else s2)
  | Err e => Done tt (print (CacheError (basename img_path) e) s1)
  end.

Definition load_phase (files : list string) : M unit :=
  exec (print (if tqdm then LoadBarOpen files else LoadBanner)) ;;;
  for_each files cache_image ;;;
  if tqdm then exec (print LoadBarClose) else ret tt.

(** *** Scoring one pair: the [try] statement of the inner loop *)

(** [if img1.shape != img2.shape: img2 = cv2.resize(...)]: the reference
    that the local [img2] holds afterwards. *)
Definition reconcile (i j : nat) (img1 img2 : nat) (s : scan_state)
  : res nat * scan_state :=
  match heap s !! img1, heap s !! img2 with
  | Some a1, Some a2 =>
    if bool_decide (shape a1 = shape a2) then (Ok img2, s)
    else
      let s1 := probe_log (Reconcile i j) s in
      match resize_like a1 a2 with
      | Ok resized => (Ok (length (heap s1)), alloc resized s1)
      | Err e => (Err e, s1)
      end
  | _, _ => (Err "dangling reference", s)
  end.

(** [similarity = compare_images(img1, img2)] *)
Definition measure (img1 img2 : nat) (s : scan_state) : res Q * scan_state :=
  match heap s !! img1, heap s !! img2 with
  | Some a1, Some a2 => (compare_images a1 a2, probe_log (Metric a1 a2) s)
  | _, _ => (Err "dangling reference", s)
  end.

(** The score of the pair, [Err] when the [try] block raised. *)
Definition pair_score (i j : nat) (img1 img2 : nat) (s : scan_state)
  : res Q * scan_state :=
  let r := reconcile i j img1 img2 s in
  match fst r with
  | Err e => (Err e, snd r)
  | Ok img2' => measure img1 img2' (snd r)
  end.

(** The whole [try ... except Exception] statement; its value is the
    local [similarity] after it. *)
Definition score_block (min_similarity : Q) (i j : nat) (img1_path img2_path : string)
    (img1 img2 : nat) (s : scan_state) : Q * scan_state :=
  let r := pair_score i j img1 img2 s in
  match fst r with
  | Ok similarity =>
    (similarity,
     if Qle_bool min_similarity similarity
     then results_append (basename img1_path, basename img2_path, similarity) (snd r)
     else snd r)
  | Err e => (0%Q, print (CompareError e) (snd r))
  end.

Definition bar_length : nat := 40.

(** [print_progress(current, total)]: [current / total] raises for a
    total of 0 (and for a quotient too large for a float), [int] raises
    for an infinite product; the event carries [filled], [percent] and
    the two counts, from which the line is formatted. *)
Definition print_progress (current total : nat) : M unit := fun s =>
  match PyFloat.truediv (Z.of_nat current) (Z.of_nat total) with
  | Err e => Raised (LibError e) s
  | Ok progress =>
    match PyFloat.to_int (PyFloat.times (Z.of_nat bar_length) progress) with
    | Err e => Raised (LibError e) s
    | Ok filled =>
      let percent := PyFloat.times 100 progress in
      Done tt (print (TextProgress (Z.to_nat filled) percent current total) s)
    end
  end.

(** The progress update after the [try] statement. *)
Definition report_progress (total_pairs : nat) (img1_path img2_path : string)
    (similarity : Q) : M unit := fun s =>
  let s1 := next_pair s in
  if tqdm then
    let s2 := print (PairBarUpdate (PyStr.prefix 15 (basename img1_path))
                                   (PyStr.prefix 15 (basename img2_path)) similarity) s1 in
    if total_pairs =? 0 then Raised (LibError "ZeroDivisionError") s2
    else
      let p := (inject_Z (Z.of_nat (current_pair s2)) / inject_Z (Z.of_nat total_pairs) * 100)%Q in
      Done tt (print (WindowTitle (TitlePercent p)) (set_progress p s2))
  else
    match progress s1 with
    | None => Raised (UnboundLocalError "progress") s1
    | Some p =>
      let s2 := print (WindowTitle (TitlePercent p)) s1 in
      if current_pair s2 mod 10 =? 0 then print_progress (current_pair s2) total_pairs s2
      else Done tt s2
    end.

(** The delivery of the interrupt: at the start of a pass of the inner
    loop, once [sigint] pairs have been processed. *)
Definition check_signal : M unit := fun s =>
  match sigint with
  | Some k => if k =? current_pair s then Raised KeyboardInterrupt s else Done tt s
  | None => Done tt s
  end.

(** The inner loop body past its [continue]. *)
Definition visit_pair (min_similarity : Q) (total_pairs : nat) (i j : nat)
    (img1_path img2_path : string) (img1 img2 : nat) : M unit :=
  check_signal ;;;
  exec (probe_log (Visit i j)) ;;;
  fun s =>
    let b := score_block min_similarity i j img1_path img2_path img1 img2 s in
    report_progress total_pairs img1_path img2_path (fst b) (snd b).

(** [image_files[i]] *)
Definition index (files : list string) (i : nat) : M string := fun s =>
  match files !! i with
  | Some p => Done p s
  | None => Raised (LibError "IndexError: list index out of range") s
  end.

Definition inner_body (min_similarity : Q) (total_pairs : nat) (files : list string)
    (i : nat) (img1_path : string) (img1 : nat) (j : nat) : M unit :=
  let* img2_path := index files j in
  fun s =>
    match processed_images s !! img2_path with
    | None => Done tt s
    | Some img2 =>
      visit_pair min_similarity total_pairs i j img1_path img2_path img1 img2 s
    end.

Definition outer_body (min_similarity : Q) (total_pairs : nat) (files : list string)
    (i : nat) : M unit :=
  let* img1_path := index files i in
  fun s =>
    match processed_images s !! img1_path with
    | None => Done tt s
    | Some img1 =>
      for_each (range (i + 1) (length files))
               (inner_body min_similarity total_pairs files i img1_path img1) s
    end.

Definition compare_phase (min_similarity : Q) (total_pairs : nat) (files : list string)
  : M unit :=
  (if tqdm then exec (print (PairBarOpen total_pairs))
   else exec (print PairBanner) ;;;
        exec (print (WindowTitle (TitlePercent 0)))) ;;;
  for_each (range 0 (length files)) (outer_body min_similarity total_pairs files).

(** [enumerate(results[:20], 1)] and the printing of its rows. *)
Definition print_rows (rows : list match_result) (s : scan_state) : scan_state :=
  fold_left (fun s' r => print (Row (fst r) (snd r)) s')
            (zip (seq 1 (length rows)) rows) s.

(** From "Завершение" to [return results]. *)
Definition finish : M (list match_result) := fun s =>
  let s1 := if tqdm then print PairBarClose s else print Newline s in
  let s2 := print (Summary (length (results s1))) s1 in
  let s3 := set_results (sort_desc mr_score (results s2)) s2 in
  let s4 := print_rows (take 20 (results s3)) s3 in
  Done (results s4) s4.

(** The body of the [try] statement of [auto_scan_folder]. *)
Definition auto_scan_try (folder_path : string) (min_similarity : Q)
  : M (list match_result) :=
  if negb (isdir folder_path) then
    exec (print (NoSuchFolder folder_path)) ;;; ret []
  else
    let files := image_files folder_path in
    if length files <? 2 then
      exec (print NeedTwoImages) ;;; ret []
    else
      let total_pairs := comb (length files) 2 in
      load_phase files ;;;
      compare_phase min_similarity total_pairs files ;;;
      finish.

(** The [finally] clause. *)
Definition cleanup (s : scan_state) : scan_state :=
  let s1 := print (WindowTitle TitleDone) s in
  if tqdm then s1 else print ClearLine s1.

(** [auto_scan_folder(folder_path, min_similarity)] *)
Definition auto_scan_folder (folder_path : string) (min_similarity : Q) (s : io)
  : outcome (list match_result) :=
  match auto_scan_try folder_path min_similarity (enter s) with
  | Done r s' => Done r (cleanup s')
  | Raised KeyboardInterrupt s' => Done [] (cleanup (print Interrupted s'))
  | Raised e s' => Raised e (cleanup s')
  end.

End Scan.

(** ** Notions used to state the properties *)

Section SortNotions.
Context {A : Type} (key : A -> Q).

(** [a] may stand before [b] in a descending list. *)
Definition desc (a b : A) : Prop := (key b <= key a)%Q.

(** The elements of one score, in their order of appearance. *)
Definition with_score (q : Q) (l : list A) : list A :=
List.filter (fun a => Qeq_bool (key a) q) l.

End SortNotions.

(** The pairs (x, y) of a list with x before y, in the order of a double
    loop. *)
Fixpoint ordered_pairs {X} (l : list X) : list (X * X) :=
  match l with
  | [] => []
  | x :: l' => map (pair x) l' ++ ordered_pairs l'
  end.

Section ScanNotions.
Context `{W : World}.

(** The value [load_image] returns for a path: the decoded image, [None]
  when the file cannot be read or decoded. *)
Definition load_value (image_path : string) : option ndarray :=
match read_file (abspath image_path) with
| Err _ => None
| Ok file_bytes =>
  match cv2_imdecode file_bytes with
  | Err _ => None
  | Ok image => image
  end
end.

(** What a quiet [load_image] writes: its error message when the file
  cannot be read or [cv2.imdecode] raises, nothing otherwise. *)
Definition load_failure (image_path : string) : list event :=
match read_file (abspath image_path) with
| Err e => [LoadError (basename image_path) e]
| Ok file_bytes =>
  match cv2_imdecode file_bytes with
  | Err e => [LoadError (basename image_path) e]
  | Ok _ => []
  end
end.

(** The normalized image of a path. *)
Definition normalized (p : string) : res ndarray :=
preprocess_image (load_value p) default_size.

Definition is_ok {A} (r : res A) : bool :=
match r with Ok _ => true | Err _ => false end.

(** The score of two normalized images: reconciliation, then the metric. *)
Definition score_of (img1 img2 : ndarray) : res Q :=
match reconcile_shape img1 img2 with
| Ok img2' => compare_images img1 img2'
| Err e => Err e
end.

(** The MatchResults a score gives rise to under a threshold. *)
Definition matches_of (threshold : Q) (name1 name2 : string) (score : res Q)
: list match_result :=
match score with
| Ok q => if Qle_bool threshold q then [(name1, name2, q)] else []
| Err _ => []
end.

(** The value of the local [similarity] after the [try] statement. *)
Definition similarity_of (score : res Q) : Q :=
match score with Ok q => q | Err _ => 0%Q end.

(** The cache holds exactly the files of [loaded] that normalize, each
  bound to an array object that is its normalized image. *)
Definition cache_of (loaded : list string) (s : scan_state) : Prop :=
forall p,
  match processed_images s !! p with
  | Some r => p ∈ loaded /\ exists a, heap s !! r = Some a /\ normalized p = Ok a
  | None => p ∈ loaded -> is_ok (normalized p) = false
  end.

(** Whether the image at position [i] of [files] normalizes. *)
Definition normalizes (files : list string) (i : nat) : bool :=
match files !! i with
| Some p => is_ok (normalized p)
| None => false
end.

(** The positions of [files] whose image normalizes. *)
Definition cached_positions (files : list string) : list nat :=
List.filter (normalizes files) (seq 0 (length files)).

(** The index pairs the pair loop is to visit, in its order. *)
Definition scan_order (files : list string) : list (nat * nat) :=
ordered_pairs (cached_positions files).

(** The MatchResults of one index pair. *)
Definition pair_matches (threshold : Q) (files : list string) (ij : nat * nat)
: list match_result :=
match files !! fst ij, files !! snd ij with
| Some p1, Some p2 =>
  match normalized p1, normalized p2 with
  | Ok a1, Ok a2 => matches_of threshold (basename p1) (basename p2) (score_of a1 a2)
  | _, _ => []
  end
| _, _ => []
end.

(** The index pairs that reached the scoring block. *)
Definition visited (ps : list probe) : list (nat * nat) :=
omap (fun p => match p with Visit i j => Some (i, j) | _ => None end) ps.

(** The events of the console that report on the scan: the total of
  the pair progress bar, the count of matches and the rows of the
  top-20 table. *)
Definition report (evs : list event) : list event :=
omap (fun e => match e with
               | PairBarOpen _ | Summary _ | Row _ _ => Some e
               | _ => None
               end) evs.

(** The result lines of the base-vs-folder mode among console events. *)
Definition folder_lines (evs : list event) : list folder_result :=
omap (fun e => match e with FolderLine f q => Some (f, q) | _ => None end) evs.

End ScanNotions.

Definition final_state {A} (o : outcome A) : scan_state :=
  match o with Done _ s => s | Raised _ s => s end.

Definition returned {A} (o : outcome A) : option A :=
  match o with Done a _ => Some a | Raised _ _ => None end.

Definition raised {A} (o : outcome A) : option exn :=
  match o with Done _ _ => None | Raised e _ => Some e end.

Section StepNotions.
Context `{W : World}.

(** What the scoring of the pair (i, j), of arrays [a1] and [a2], may
  record: the reconciliation branch when the shapes differ, and the
  metric on [a1] and the reconciled second operand. *)
Definition probe_from (i j : nat) (a1 a2 : ndarray) (p : probe) : Prop :=
match p with
| Visit _ _ => False
| Reconcile i' j' => i' = i /\ j' = j /\ shape a1 <> shape a2
| Metric b1 b2 => b1 = a1 /\ reconcile_shape a1 a2 = Ok b2
end.

(** The effect of the [try] statement on the state. *)
Definition scored (threshold : Q) (i j : nat) (p1 p2 : string) (a1 a2 : ndarray)
  (s s' : scan_state) : Prop :=
processed_images s' = processed_images s /\
(exists h, heap s' = heap s ++ h) /\
results s' = results s ++ matches_of threshold (basename p1) (basename p2) (score_of a1 a2) /\
current_pair s' = current_pair s /\
progress s' = progress s /\
report (console (sio s')) = report (console (sio s)) /\
(exists pr, probes s' = probes s ++ pr /\ Forall (probe_from i j a1 a2) pr).

End StepNotions.

Section VisitNotions.
Context `{W : World}.

(** Whether the operator's interrupt is delivered in state [s]. *)
Definition fires (sigint : option nat) (s : scan_state) : bool :=
match sigint with
| Some k => k =? current_pair s
| None => false
end.

(** The effect on the state of one pass through the inner loop body, for
  the pair (i, j) of files [p1] and [p2] with arrays [a1] and [a2]. *)
Definition visit_effect (threshold : Q) (i j : nat) (p1 p2 : string) (a1 a2 : ndarray)
  (s s' : scan_state) : Prop :=
processed_images s' = processed_images s /\
(exists h, heap s' = heap s ++ h) /\
results s' = results s ++ matches_of threshold (basename p1) (basename p2) (score_of a1 a2) /\
current_pair s' = S (current_pair s) /\
(tqdm = false -> progress s' = progress s) /\
report (console (sio s')) = report (console (sio s)) /\
(exists pr, probes s' = probes s ++ Visit i j :: pr /\ Forall (probe_from i j a1 a2) pr).

End VisitNotions.

Section LoopNotions.
Context `{W : World}.

(** The inner loop body at an index pair, with the paths and the cache
  entries looked up as the two loops do. *)
Definition visit_at (sigint : option nat) (threshold : Q) (total_pairs : nat)
  (files : list string) (ij : nat * nat) : M unit := fun s =>
match files !! fst ij, files !! snd ij with
| Some p1, Some p2 =>
  match processed_images s !! p1, processed_images s !! p2 with
  | Some r1, Some r2 =>
    visit_pair sigint threshold total_pairs (fst ij) (snd ij) p1 p2 r1 r2 s
  | _, _ => Done tt s
  end
| _, _ => Done tt s
end.

(** What holds of the state all through the pair loop: the cache is the
  one the load phase left, and without the progress-bar library the
  local [progress] is unbound. *)
Definition scanning (files : list string) (c : gmap string nat) (s : scan_state) : Prop :=
processed_images s = c /\ cache_of files s /\ (tqdm = false -> progress s = None).

End LoopNotions.

Section RunNotions.
Context `{W : World}.

Definition both_normalize (files : list string) (ij : nat * nat) : Prop :=
normalizes files (fst ij) = true /\ normalizes files (snd ij) = true.

(** A recorded probe is accounted for by the files: the reconciliation
  branch is entered only for two normalized images of different shapes,
  and the metric is called on a normalized image and a reconciled
  normalized image. *)
Definition probe_sound (files : list string) (p : probe) : Prop :=
match p with
| Visit i j => both_normalize files (i, j)
| Reconcile i j =>
  exists p1 p2 a1 a2, files !! i = Some p1 /\ files !! j = Some p2 /\
    normalized p1 = Ok a1 /\ normalized p2 = Ok a2 /\ shape a1 <> shape a2
| Metric b1 b2 =>
  exists p1 p2 a2, p1 ∈ files /\ p2 ∈ files /\
    normalized p1 = Ok b1 /\ normalized p2 = Ok a2 /\ reconcile_shape b1 a2 = Ok b2
end.

(** The effect on the state of the passes for the index pairs [ps]. *)
Definition pairs_effect (threshold : Q) (files : list string) (ps : list (nat * nat))
  (s s' : scan_state) : Prop :=
processed_images s' = processed_images s /\
(exists h, heap s' = heap s ++ h) /\
results s' = results s ++ flat_map (pair_matches threshold files) ps /\
current_pair s' = current_pair s + length ps /\
(tqdm = false -> progress s' = progress s) /\
report (console (sio s')) = report (console (sio s)) /\
(exists pr, probes s' = probes s ++ pr /\ visited pr = ps /\
            Forall (probe_sound files) pr).

(** The interrupt does not arrive during the passes for [ps]. *)
Definition quiet (sigint : option nat) (ps : list (nat * nat)) (s : scan_state) : Prop :=
forall k, sigint = Some k -> k < current_pair s \/ current_pair s + length ps <= k.

(** The state in which the pair loop starts. *)
Definition loop_start (total_pairs : nat) (s : scan_state) : scan_state :=
if tqdm then print (PairBarOpen total_pairs) s
else print (WindowTitle (TitlePercent 0)) (print PairBanner s).

(** The rows [print_rows] prints for a list of results. *)
Definition rows_of (l : list match_result) : list event :=
map (fun r => Row (fst r) (snd r)) (zip (seq 1 (length l)) l).

End RunNotions.

(** Two states that differ at most in the console. *)
Definition same_locals (s s' : scan_state) : Prop :=
  heap s' = heap s /\ processed_images s' = processed_images s /\
  results s' = results s /\ current_pair s' = current_pair s /\
  progress s' = progress s /\ probes s' = probes s.

Section FolderNotions.
Context `{W : World}.

(** The result lines the base-vs-folder loop collects from [entries]:
  an entry is left out when its absolute path is the base's, when its
  scoring raises, or when its score is below the threshold. *)
Definition folder_kept (base_image_path folder_path : string) (threshold : Q)
  (base_image_proc : ndarray) (entries : list string) : list folder_result :=
flat_map
  (fun f =>
     if String.eqb (abspath (path_join folder_path f)) (abspath base_image_path) then []
     else match folder_score base_image_proc (load_value (path_join folder_path f)) with
          | Ok q => if Qle_bool threshold q then [(f, q)] else []
          | Err _ => []
          end)
  entries.

(** [q] is the score of the file [p] against the normalized base [a]:
  the file is read and decoded, the image is resized to 300 x 300 and
  made gray, it is resized to the shape of the base when the shapes
  differ, and [q] is 100 times the metric of the base and the result. *)
Definition scored_against (a : ndarray) (p : string) (q : Q) : Prop :=
exists file_bytes image resized gray img2 score,
  read_file (abspath p) = Ok file_bytes /\
  cv2_imdecode file_bytes = Ok (Some image) /\
  cv2_resize image (300, 300) = Ok resized /\
  cv2_cvtColor resized = Ok gray /\
  (if bool_decide (shape a = shape gray) then img2 = gray
   else exists width height,
          shape a !! 1 = Some width /\ shape a !! 0 = Some height /\
          cv2_resize gray (width, height) = Ok img2) /\
  ssim a img2 = Ok score /\ q = (score * 100)%Q.


(** What [folder_report] prints. *)
Definition folder_final (kept : list folder_result) : list event :=
match kept with
| [] => [FolderNoMatch]
| _ :: _ => FolderHeader :: map (fun r => FolderLine (fst r) (snd r)) (sort_desc snd kept)
end.

End FolderNotions.

(** ** The claims of the specification that the code does not meet *)

Section Claims.
Context `{W : World}.

(** The total of the progress report is C(n,2) for the number n of
  cached images. *)
Definition total_counts_cached_pairs (folder : string) (t : Q) (s : io) : Prop :=
forall r s' total,
  auto_scan_folder None folder t s = Done r s' ->
  2 <= size (processed_images s') ->
  In (PairBarOpen total) (report (console (sio s'))) ->
  total = comb (size (processed_images s')) 2.

(** A cancelled scan returns the results collected so far. *)
Definition cancel_returns_partial_results (sigint : option nat) (folder : string)
  (t : Q) (s : io) : Prop :=
forall s0,
  auto_scan_try sigint folder t (enter s) = Raised KeyboardInterrupt s0 ->
  returned (auto_scan_folder sigint folder t s) = Some (results s0).


(** The base-vs-folder mode reports only entries with an image
  extension. *)
Definition folder_mode_filters_extensions (base folder : string) (t : Q) (s : io) : Prop :=
forall f q,
  In (f, q) (folder_lines (console (snd (compare_image_with_folder base folder t s)))) ->
  has_image_extension f = true.

End Claims.

(** ** A small world: a folder [pics] of solid-colour pictures *)

Module Toy.

Fixpoint basename_from (s acc : string) : string :=
match s with
| EmptyString => acc
| String c s' =>
  if Ascii.eqb c "/"%char then basename_from s' EmptyString
  else basename_from s' (acc +:+ String c EmptyString)
end.

Definition toy_basename (p : string) : string := basename_from p "".

Definition toy_join (d f : string) : string := d +:+ "/" +:+ f.

Definition toy_abspath (p : string) : string :=
match p with
| String "/"%char _ => p
| _ => "/home/op/" +:+ p
end.

(** A picture of one colour. *)
Definition solid (shp : list nat) (v : Z) : ndarray :=
{| shape := shp; buffer := replicate (foldr Nat.mul 1 shp) v |}.

Definition disk : list (string * string) :=
[("/home/op/pics/a.png", "white"); ("/home/op/pics/b.PNG", "white");
 ("/home/op/pics/c.jpg", "black"); ("/home/op/pics/notes.txt", "white");
 ("/home/op/pics/broken.bmp", "garbage"); ("/home/op/elsewhere/a.png", "white")].

Fixpoint find_file (p : string) (d : list (string * string)) : option string :=
match d with
| [] => None
| (name, content) :: d' => if String.eqb name p then Some content else find_file p d'
end.

Definition toy_read (p : string) : res (list Byte.byte) :=
match find_file p disk with
| Some content => Ok (String.list_byte_of_string content)
| None => Err "FileNotFoundError"
end.

Definition toy_imdecode (b : list Byte.byte) : res (option ndarray) :=
let s := String.string_of_list_byte b in
if String.eqb s "white" then Ok (Some (solid [50; 50; 3] 255))
else if String.eqb s "black" then Ok (Some (solid [50; 50; 3] 0))
else if String.eqb s "" then Err "cv2.error: empty buffer"
else Ok None.

Definition toy_resize (a : ndarray) (size : nat * nat) : res ndarray :=
match buffer a with
| [] => Err "cv2.error: empty image"
| v :: _ => Ok (solid (snd size :: fst size :: drop 2 (shape a)) v)
end.

Definition toy_cvtColor (a : ndarray) : res ndarray :=
match drop 2 (shape a), buffer a with
| [3], v :: _ => Ok (solid (take 2 (shape a)) v)
| _, _ => Err "cv2.error: bad number of channels"
end.

Definition toy_ssim (a b : ndarray) : res Q :=
if bool_decide (shape a = shape b) then
  if bool_decide (buffer a = buffer b) then Ok 1%Q else Ok 0%Q
else Err "ValueError: Input images must have the same dimensions.".

Definition toy_listdir (d : string) : list string :=
if String.eqb d "pics" then ["a.png"; "b.PNG"; "c.jpg"; "notes.txt"; "broken.bmp"]
else [].

(** The world, with or without the progress-bar library. *)
Definition world (bar : bool) : World :=
{| tqdm := bar;
   isdir := fun d => String.eqb d "pics";
   listdir := toy_listdir;
   path_join := toy_join;
   abspath := toy_abspath;
   basename := toy_basename;
   read_file := toy_read;
   cv2_imdecode := toy_imdecode;
   cv2_resize := toy_resize;
   cv2_cvtColor := toy_cvtColor;
   ssim := toy_ssim |}.

Definition fresh : io := {| history := []; console := [] |}.

(** The normalized image of a file of the disk. *)
Definition normalized_image (p : string) : ndarray :=
  match normalized (W := world true) p with
  | Ok a => a
  | Err _ => solid [] 0
  end.

(** A state with two small arrays of different shapes. *)
Definition two_arrays : scan_state :=
{| sio := fresh; heap := [solid [2; 3] 255; solid [4; 4] 255];
   processed_images := <["pics/b.PNG" := 1]> (<["pics/a.png" := 0]> ∅);
   results := []; current_pair := 0; progress := None; probes := [] |}.

End Toy.

(** A world in which the folder listing holds only the entries with an
    image extension. *)
Definition only_images (W : World) : World :=
  {| tqdm := @tqdm W;
     isdir := @isdir W;
     listdir := fun d => filter (fun f => has_image_extension f = true) (@listdir W d);
     path_join := @path_join W;
     abspath := @abspath W;
     basename := @basename W;
     read_file := @read_file W;
     cv2_imdecode := @cv2_imdecode W;
     cv2_resize := @cv2_resize W;
     cv2_cvtColor := @cv2_cvtColor W;
     ssim := @ssim W |}.


(** The ways the pair loop of a started scan can end. *)
Inductive ending :=
| Completes      (* the loop visits every pair and the report is printed *)
| Cancelled      (* the operator's interrupt arrives in the loop *)
| Crashes.       (* the unbound local [progress] is read *)

(** How the scan of [files] ends, from the display strategy, the arrival
    of the interrupt and the number of pairs to visit. *)
Definition scan_ending `{W : World} (sigint : option nat) (files : list string) : ending :=
  if tqdm then
    match sigint with
    | Some k => if k <? length (scan_order files) then Cancelled else Completes
    | None => Completes
    end
  else
    match scan_order files, sigint with
    | [], _ => Completes
    | _ :: _, Some 0 => Cancelled
    | _ :: _, _ => Crashes
    end.

(** ** The text progress bar *)

(** The cells of the bar that [print_progress] draws: [filled] full
    cells, then [bar_length - filled] empty ones (none when the
    difference is negative). *)
Definition bar_cells (filled : nat) : list bool :=
  replicate filled true ++ replicate (bar_length - filled) false.

(** For k from 1 to 40: forty times the float of k / 40 is a float of
    at least k. *)
Definition bar_table (k : Z) : bool :=
  match PyFloat.times 40 (PyFloat.round k 40) with
  | PyFloat.Num m' q' => (q' <=? 0)%Z && (k * 2 ^ (- q') <=? m')%Z
  | PyFloat.Inf => false
  end.

(** ** The menu: [compare_two_images] and [main] *)

Module PyInput.

(** The ASCII characters [str.strip] removes: tab, line feed, vertical
    tab, form feed, carriage return (9 to 13), the four separators
    0x1c to 0x1f (28 to 31) and the space (32). *)
Definition is_space (c : ascii) : bool :=
  let n := nat_of_ascii c in
  ((9 <=? n) && (n <=? 13)) || ((28 <=? n) && (n <=? 32)).

(** A line of ASCII characters.  Outside ASCII [str.strip] removes
    further characters (U+0085, U+00A0, ...), which a [string] of bytes
    does not tell apart. *)
Fixpoint is_ascii (s : string) : bool :=
  match s with
  | EmptyString => true
  | String c s' => (nat_of_ascii c <? 128) && is_ascii s'
  end.

(** [s.lstrip()] *)
Fixpoint lstrip (s : string) : string :=
  match s with
  | EmptyString => EmptyString
  | String c s' => if is_space c then lstrip s' else s
  end.

(** [s.rstrip()] *)
Fixpoint rstrip (s : string) : string :=
  match s with
  | EmptyString => EmptyString
  | String c s' =>
    match rstrip s' with
    | EmptyString => if is_space c then EmptyString else String c EmptyString
    | rest => String c rest
    end
  end.

(** [s.strip()] *)
Definition strip (s : string) : string := rstrip (lstrip s).

End PyInput.

(** What the menu needs besides the [World]: the working directory and
    the parsing of [float(text)]. *)
Class Shell := {
  getcwd : string;
  float_of_text : string -> res Q
}.

(** The lines and prompts of [compare_two_images] and [main]. *)
Inductive menu :=
| AskFirstImage          (* "Введите путь к первому изображению: " *)
| AskSecondImage         (* "Введите путь ко второму изображению: " *)
| SimilarityLine (similarity : Q)   (* "Схожесть: {similarity:.2f}%" *)
| ModeMenu               (* the title and the two modes *)
| AskMode                (* "Ваш выбор (1/2): " *)
| AskThreshold           (* "Минимальный процент схожести: " *)
| BadInputQuick          (* "Некорректный ввод!" *)
| ActionMenu             (* the three actions of the extended mode *)
| AskAction              (* "Выберите действие (1-3): " *)
| AskBase                (* "Путь к базовому изображению: " *)
| AskFolder              (* "Путь к папке: " *)
| InputError             (* "Ошибка ввода!" *)
| BadChoice              (* "Неверный выбор" *)
| BadMode                (* "Неверный режим" *)
| AskExit.               (* "Нажмите Enter для выхода..." *)

(** A run of the program at the terminal: the lines still to be read from
    standard input, everything written so far (menu lines and the events
    of the functions called, in order), and [load_image.history]. *)
Record session := mk_session {
  stdin : list string;
  tty : list (menu + event);
  loader_history : list string
}.

(** A statement of the menu completes or raises. *)
Inductive reply (A : Type) :=
| Reply (a : A) (s : session)
| Abort (e : exn) (s : session).
Arguments Reply {A} a s.
Arguments Abort {A} e s.

Definition T (A : Type) : Type := session -> reply A.

Definition and_then {A B} (m : T A) (k : A -> T B) : T B :=
  fun s => match m s with
           | Reply a s' => k a s'
           | Abort e s' => Abort e s'
           end.

Notation "'do*' x := m 'in' k" := (and_then m (fun x => k))
  (at level 10, x name, m at level 100, k at level 200).

Definition say (m : menu) (s : session) : session :=
  {| stdin := stdin s; tty := tty s ++ [inl m]; loader_history := loader_history s |}.

(** [input(prompt)]: the prompt is written, a line is read; [EOFError]
    when standard input is at its end. *)
Definition input (prompt : menu) : T string := fun s =>
  let s1 := say prompt s in
  match stdin s1 with
  | [] => Abort (LibError "EOFError") s1
  | line :: rest =>
    Reply line {| stdin := rest; tty := tty s1; loader_history := loader_history s1 |}
  end.

(** The console and history a called function starts from, and the
    session after it: what the function wrote is appended to the
    terminal. *)
Definition io_of (s : session) : io := {| history := loader_history s; console := [] |}.

Definition after_io (s : session) (o : io) : session :=
  {| stdin := stdin s; tty := tty s ++ map inr (console o); loader_history := history o |}.

(** A library value or the exception it raised. *)
Definition lift_res {A} (r : res A) : T A := fun s =>
  match r with
  | Ok a => Reply a s
  | Err e => Abort (LibError e) s
  end.

(** [try: body except: print(message)] with a bare [except]. *)
Definition try_or_say (body : T unit) (message : menu) : T unit := fun s =>
  match body s with
  | Reply tt s' => Reply tt s'
  | Abort _ s' => Reply tt (say message s')
  end.

Section Menu.
Context `{W : World} `{Sh : Shell}.

(** The interrupt of the scan that [main] may start, as in
    [auto_scan_folder]. *)
Variable sigint : option nat.

Definition call_load_image (image_path : string) : T (option ndarray) := fun s =>
  let r := load_image image_path false (io_of s) in
  Reply (fst r) (after_io s (snd r)).

(** [compare_two_images()] *)
Definition compare_two_images : T unit :=
  do* line1 := input AskFirstImage in
  let image1_path := PyInput.strip line1 in
  do* line2 := input AskSecondImage in
  let image2_path := PyInput.strip line2 in
  do* img1 := call_load_image image1_path in
  do* img2 := call_load_image image2_path in
  do* img1_proc := lift_res (preprocess_image img1 default_size) in
  do* img2_proc := lift_res (preprocess_image img2 default_size) in
  do* img2_proc' := lift_res (reconcile_shape img1_proc img2_proc) in
  do* similarity := lift_res (compare_images img1_proc img2_proc') in
  fun s => Reply tt (say (SimilarityLine similarity) s).

Definition call_compare_image_with_folder (base_image_path folder_path : string)
    (min_similarity : Q) : T unit := fun s =>
  let r := compare_image_with_folder base_image_path folder_path min_similarity (io_of s) in
  match fst r with
  | Ok tt => Reply tt (after_io s (snd r))
  | Err e => Abort (LibError e) (after_io s (snd r))
  end.

Definition call_auto_scan_folder (folder_path : string) (min_similarity : Q) : T unit :=
  fun s =>
    match auto_scan_folder sigint folder_path min_similarity (io_of s) with
    | Done _ st => Reply tt (after_io s (sio st))
    | Raised e st => Abort e (after_io s (sio st))
    end.

(** [float(input("Минимальный процент схожести: "))] *)
Definition ask_threshold : T Q :=
  do* line := input AskThreshold in
  lift_res (float_of_text line).

(** [main()] *)
Definition main : T unit :=
  do* _ := (fun s => Reply tt (say ModeMenu s)) in
  do* line := input AskMode in
  let mode := PyInput.strip line in
  do* _ :=
    (if String.eqb mode "1" then
       let base_path := path_join getcwd "test.png" in
       let folder := getcwd in
       try_or_say
         (do* min_sim := ask_threshold in
          call_compare_image_with_folder base_path folder min_sim)
         BadInputQuick
     else if String.eqb mode "2" then
       do* _ := (fun s => Reply tt (say ActionMenu s)) in
       do* line := input AskAction in
       let choice := PyInput.strip line in
       if String.eqb choice "1" then compare_two_images
       else if String.eqb choice "2" then
         do* line := input AskBase in
         let base := PyInput.strip line in
         do* line := input AskFolder in
         let folder := PyInput.strip line in
         try_or_say
           (do* min_sim := ask_threshold in
            call_compare_image_with_folder base folder min_sim)
           InputError
       else if String.eqb choice "3" then
         do* line := input AskFolder in
         let folder := PyInput.strip line in
         try_or_say
           (do* min_sim := ask_threshold in
            call_auto_scan_folder folder min_sim)
           InputError
       else fun s => Reply tt (say BadChoice s)
     else fun s => Reply tt (say BadMode s)) in
  do* _ := input AskExit in
  fun s => Reply tt s.

End Menu.

(** The events of called functions among what was written. *)
Definition core_events (out : list (menu + event)) : list event :=
  omap (fun x => match x with inr e => Some e | inl _ => None end) out.

(** The menu lines among what was written. *)
Definition menu_lines (out : list (menu + event)) : list menu :=
  omap (fun x => match x with inl m => Some m | inr _ => None end) out.

Definition session_of {A} (r : reply A) : session :=
  match r with Reply _ s => s | Abort _ s => s end.

Definition aborted {A} (r : reply A) : option exn :=
  match r with Reply _ _ => None | Abort e _ => Some e end.

(** A shell for the small world: the working directory is the folder
    [pics]; a few threshold texts parse. *)
Module ToyShell.

Definition toy_float (text : string) : res Q :=
  if String.eqb (PyInput.strip text) "80" then Ok 80%Q
  else if String.eqb (PyInput.strip text) "0" then Ok 0%Q
  else Err "ValueError: could not convert string to float".

Definition shell : Shell := {| getcwd := "pics"; float_of_text := toy_float |}.

Definition typing (lines : list string) : session :=
  {| stdin := lines; tty := []; loader_history := [] |}.

End ToyShell.

(** A folder of the small world's disk with two candidates of which none
    decodes. *)
Module ToyJunk.

Definition world (bar : bool) : World :=
  {| tqdm := bar;
     isdir := fun d => String.eqb d "junk";
     listdir := fun d => if String.eqb d "junk" then ["broken.bmp"; "missing.png"] else [];
     path_join := Toy.toy_join;
     abspath := fun p => "/home/op/pics/" +:+ Toy.toy_basename p;
     basename := Toy.toy_basename;
     read_file := Toy.toy_read;
     cv2_imdecode := Toy.toy_imdecode;
     cv2_resize := Toy.toy_resize;
     cv2_cvtColor := Toy.toy_cvtColor;
     ssim := Toy.toy_ssim |}.

End ToyJunk.

(** The names [load_image] keeps in its history are cut at 15 characters
    and the history at 10 names. *)
Definition history_bounded (h : list string) : Prop :=
  length h <= 10 /\ Forall (fun name => String.length name <= 15) h.

Section Routes.
Context `{W : World} `{Sh : Shell}.
Variable sigint : option nat.

(** The three places where [main] asks for the threshold, with the lines
    typed before it. *)
Inductive route :=
| Quick                               (* mode 1 *)
| WithFolder (base folder : string)   (* mode 2, action 2 *)
| WholeFolder (folder : string).      (* mode 2, action 3 *)

Definition route_lines (r : route) (mode action : string) : list string :=
  match r with
  | Quick => [mode]
  | WithFolder base folder => [mode; action; base; folder]
  | WholeFolder folder => [mode; action; folder]
  end.

Definition route_taken (r : route) (mode action : string) : Prop :=
  match r with
  | Quick => PyInput.strip mode = "1"
  | WithFolder _ _ => PyInput.strip mode = "2" /\ PyInput.strip action = "2"
  | WholeFolder _ => PyInput.strip mode = "2" /\ PyInput.strip action = "3"
  end.

(** The path lines of the route are ASCII. *)
Definition route_ascii (r : route) : Prop :=
  match r with
  | Quick => True
  | WithFolder base folder => PyInput.is_ascii base = true /\ PyInput.is_ascii folder = true
  | WholeFolder folder => PyInput.is_ascii folder = true
  end.

Definition route_prompts (r : route) : list menu :=
  match r with
  | Quick => [ModeMenu; AskMode; AskThreshold]
  | WithFolder _ _ => [ModeMenu; AskMode; ActionMenu; AskAction; AskBase; AskFolder; AskThreshold]
  | WholeFolder _ => [ModeMenu; AskMode; ActionMenu; AskAction; AskFolder; AskThreshold]
  end.

Definition route_message (r : route) : menu :=
  match r with Quick => BadInputQuick | _ => InputError end.

(** What the function of the route writes and whether it raises, for a
    threshold, from a history. *)
Definition route_call (r : route) (q : Q) (h : list string) : io * bool :=
  match r with
  | Quick =>
    let c := compare_image_with_folder (path_join getcwd "test.png") getcwd q
               {| history := h; console := [] |} in
    (snd c, negb (is_ok (fst c)))
  | WithFolder base folder =>
    let c := compare_image_with_folder (PyInput.strip base) (PyInput.strip folder) q
               {| history := h; console := [] |} in
    (snd c, negb (is_ok (fst c)))
  | WholeFolder folder =>
    let o := auto_scan_folder sigint (PyInput.strip folder) q
               {| history := h; console := [] |} in
    (sio (final_state o), match o with Done _ _ => false | Raised _ _ => true end)
  end.

End Routes.

(** The marks of the load loop among console events: an advance of the
    load bar, or the message for a file that could not be cached. *)
Definition load_marks (evs : list event) : list event :=
  omap (fun e => match e with
                 | LoadBarUpdate _ | CacheError _ _ => Some e
                 | _ => None
                 end) evs.

(** The mark the load loop leaves for one file. *)
Definition load_mark `{W : World} (p : string) : list event :=
  match normalized p with
  | Ok _ => if tqdm then [LoadBarUpdate (PyStr.prefix 20 (basename p))] else []
  | Err e => [CacheError (basename p) e]
  end.

(** The array the load loop makes for one file. *)
Definition load_array `{W : World} (p : string) : list ndarray :=
  match normalized p with
  | Ok a => [a]
  | Err _ => []
  end.

(** The name a verbose [load_image] records for a file: none when the
    file cannot be read or [cv2.imdecode] raises. *)
Definition recorded_name `{W : World} (p : string) : list string :=
  match read_file (abspath p) with
  | Err _ => []
  | Ok file_bytes =>
    match cv2_imdecode file_bytes with
    | Err _ => []
    | Ok _ => [PyStr.prefix 15 (basename p)]
    end
  end.
(** ** Properties of the string helpers *)

Lemma append_empty (s : string) : "" +:+ s = s.
Proof. reflexivity. Qed.

Lemma append_String (c : ascii) (s t : string) :
  String c s +:+ t = String c (s +:+ t).
Proof. reflexivity. Qed.

Lemma endswith_spec (s suffix : string) :
  PyStr.endswith s suffix = true <-> exists front, s = front +:+ suffix.
Proof.
  induction s as [|c s IH]; cbn [PyStr.endswith].
  - destruct (String.eqb_spec "" suffix) as [<-|Hne].
    + split; [exists ""; reflexivity | reflexivity].
    + split; [intros Hd; discriminate Hd|]. intros [front Hf]. destruct front.
      * rewrite append_empty in Hf. congruence.
      * rewrite append_String in Hf. discriminate.
  - destruct (String.eqb_spec (String c s) suffix) as [<-|Hne].
    + split; [exists ""; reflexivity | reflexivity].
    + rewrite IH. split.
      * intros [front ->]. exists (String c front). reflexivity.
      * intros [front Hf]. destruct front as [|c' front].
        -- rewrite append_empty in Hf. congruence.
        -- rewrite append_String in Hf. injection Hf as _ ->.
           exists front. reflexivity.
Qed.

Lemma has_image_extension_spec (f : string) :
  has_image_extension f = true <->
  exists front ext, ext ∈ image_extensions /\ PyStr.lower f = front +:+ ext.
Proof.
  unfold has_image_extension, PyStr.endswith_any. rewrite existsb_exists. split.
  - intros (ext & Hin & He). apply endswith_spec in He as [front Hf].
    exists front, ext. split; [apply list_elem_of_In; exact Hin | exact Hf].
  - intros (front & ext & Hin & Hf). exists ext. split.
    + apply list_elem_of_In; exact Hin.
    + apply endswith_spec. exists front. exact Hf.
Qed.

(** ** Properties of the sort *)

Section SortFacts.
Context {A : Type} (key : A -> Q).

Lemma insert_desc_perm (x : A) (l : list A) :
  Permutation (x :: l) (insert_desc key x l).
Proof.
  induction l as [|y l IH]; simpl; [reflexivity|].
  destruct (Qle_bool (key y) (key x)); [reflexivity|].
  rewrite perm_swap. apply perm_skip. exact IH.
Qed.

Lemma sort_desc_perm (l : list A) : Permutation l (sort_desc key l).
Proof.
  induction l as [|x l IH]; simpl; [reflexivity|].
  rewrite <- insert_desc_perm. apply perm_skip. exact IH.
Qed.


Lemma insert_desc_sorted (x : A) (l : list A) :
  StronglySorted (desc key) l -> StronglySorted (desc key) (insert_desc key x l).
Proof.
  induction l as [|y l IH]; simpl; intros Hs.
  - constructor; [constructor | constructor].
  - inversion Hs as [|? ? Hs' Hall]; subst.
    destruct (Qle_bool (key y) (key x)) eqn:E.
    + apply Qle_bool_iff in E. constructor; [exact Hs|].
      constructor; [exact E|].
      revert Hall. apply List.Forall_impl. intros z Hz. unfold desc in *.
      eapply Qle_trans; [exact Hz | exact E].
    + constructor; [apply IH; exact Hs'|].
      eapply Permutation_Forall; [apply insert_desc_perm|].
      constructor; [|exact Hall].
      unfold desc. apply Qlt_le_weak, Qnot_le_lt. intros Hle.
      apply Qle_bool_iff in Hle. congruence.
Qed.

Lemma sort_desc_sorted (l : list A) : StronglySorted (desc key) (sort_desc key l).
Proof.
  induction l as [|x l IH]; simpl; [constructor|].
  apply insert_desc_sorted, IH.
Qed.

Lemma insert_desc_stable (q : Q) (x : A) (l : list A) :
  with_score key q (insert_desc key x l) = with_score key q (x :: l).
Proof.
  induction l as [|y l IH]; [reflexivity|].
  cbn [insert_desc]. destruct (Qle_bool (key y) (key x)) eqn:E; [reflexivity|].
  unfold with_score in *. cbn [List.filter] in *. rewrite IH.
  destruct (Qeq_bool (key x) q) eqn:Ex; [|reflexivity].
  destruct (Qeq_bool (key y) q) eqn:Ey; [|reflexivity].
  exfalso. apply Qeq_bool_iff in Ex, Ey.
  assert (Hle : (key y <= key x)%Q) by (rewrite Ex, Ey; apply Qle_refl).
  apply Qle_bool_iff in Hle. congruence.
Qed.

Lemma sort_desc_stable (q : Q) (l : list A) :
  with_score key q (sort_desc key l) = with_score key q l.
Proof.
  induction l as [|x l IH]; [reflexivity|].
  cbn [sort_desc]. rewrite insert_desc_stable.
  unfold with_score in *. cbn [List.filter]. rewrite IH. reflexivity.
Qed.

End SortFacts.

(** ** Counting pairs *)

Lemma comb_1 (n : nat) : comb n 1 = n.
Proof. induction n as [|n IH]; simpl; [reflexivity|]. rewrite IH. destruct n; reflexivity. Qed.

Lemma comb_S_2 (n : nat) : comb (S n) 2 = n + comb n 2.
Proof. change (comb (S n) 2) with (comb n 1 + comb n 2). rewrite comb_1. reflexivity. Qed.

Lemma ordered_pairs_length {X} (l : list X) :
  length (ordered_pairs l) = comb (length l) 2.
Proof.
  induction l as [|x l IH]; [reflexivity|].
  cbn [ordered_pairs length]. rewrite length_app, length_map, IH, comb_S_2. reflexivity.
Qed.

Lemma comb_2_pos (n : nat) : 2 <= n -> comb n 2 <> 0.
Proof.
  intros H. destruct n as [|[|n]]; [lia | lia |].
  rewrite comb_S_2. lia.
Qed.

Lemma comb_2_mono (m n : nat) : m <= n -> comb m 2 <= comb n 2.
Proof.
  induction 1 as [|n Hle IH]; [lia|]. rewrite comb_S_2. lia.
Qed.

(** ** Statements and loops *)

Lemma bind_done {A B} (m : M A) (k : A -> M B) s a s' :
  m s = Done a s' -> bind m k s = k a s'.
Proof. unfold bind. intros ->. reflexivity. Qed.

Lemma bind_raised {A B} (m : M A) (k : A -> M B) s e s' :
  m s = Raised e s' -> bind m k s = Raised e s'.
Proof. unfold bind. intros ->. reflexivity. Qed.

Lemma for_each_app {X} (xs ys : list X) (body : X -> M unit) s :
  for_each (xs ++ ys) body s = (for_each xs body ;;; for_each ys body) s.
Proof.
  revert s. induction xs as [|x xs IH]; intros s; [reflexivity|].
  cbn [for_each app]. unfold bind.
  destruct (body x s) as [[] s'|e s']; [|reflexivity].
  rewrite IH. reflexivity.
Qed.

Lemma for_each_flat_map {X Y} (f : X -> list Y) (xs : list X) (body : Y -> M unit) s :
  for_each (flat_map f xs) body s = for_each xs (fun x => for_each (f x) body) s.
Proof.
  revert s. induction xs as [|x xs IH]; intros s; [reflexivity|].
  cbn [flat_map for_each]. rewrite for_each_app. unfold bind.
  destruct (for_each (f x) body s) as [[] s'|e s']; [apply IH | reflexivity].
Qed.

(** A property of the state that every iteration keeps, however it ends,
    holds when the loop ends. *)
Lemma for_each_invariant {X} (J : scan_state -> Prop) (xs : list X) (body : X -> M unit) s :
  (forall x s0, x ∈ xs -> J s0 -> J (final_state (body x s0))) ->
  J s -> J (final_state (for_each xs body s)).
Proof.
  revert s. induction xs as [|x xs IH]; intros s Hb HJ; [exact HJ|].
  cbn [for_each]. unfold bind.
  pose proof (Hb x s ltac:(left) HJ) as Hx.
  destruct (body x s) as [[] s'|e s']; [|exact Hx].
  apply IH; [|exact Hx]. intros y s0 Hy. apply Hb. right. exact Hy.
Qed.

(** Two bodies that agree on the states of an invariant give the same loop. *)
Lemma for_each_agree {X} (J : scan_state -> Prop) (xs : list X) (body body' : X -> M unit) s :
  (forall x s0, x ∈ xs -> J s0 -> body x s0 = body' x s0) ->
  (forall x s0, x ∈ xs -> J s0 -> J (final_state (body x s0))) ->
  J s -> for_each xs body s = for_each xs body' s.
Proof.
  revert s. induction xs as [|x xs IH]; intros s Hag Hb HJ; [reflexivity|].
  cbn [for_each]. unfold bind.
  rewrite <- (Hag x s ltac:(left) HJ).
  pose proof (Hb x s ltac:(left) HJ) as Hx.
  destruct (body x s) as [[] s'|e s']; [|reflexivity].
  apply IH; [| |exact Hx].
  - intros y s0 Hy. apply Hag. right. exact Hy.
  - intros y s0 Hy. apply Hb. right. exact Hy.
Qed.

(** ** The load phase *)

Section LoadFacts.
Context `{W : World}.

Lemma load_image_value (p : string) (verbose : bool) (s : io) :
  fst (load_image p verbose s) = load_value p.
Proof.
  unfold load_image, load_value.
  destruct (read_file (abspath p)) as [b|e]; [|reflexivity].
  destruct (cv2_imdecode b) as [image|e]; [|reflexivity].
  destruct (verbose && negb tqdm); reflexivity.
Qed.

Lemma report_emit (e : event) (s : io) :
  report (console (emit e s)) = report (console s) ++ report [e].
Proof. unfold report. cbn [emit console]. apply omap_app. Qed.

Lemma load_image_report (p : string) (verbose : bool) (s : io) :
  report (console (snd (load_image p verbose s))) = report (console s).
Proof.
  unfold load_image.
  destruct (read_file (abspath p)) as [b|e].
  - destruct (cv2_imdecode b) as [image|e].
    + destruct (verbose && negb tqdm); cbn [snd]; [|reflexivity].
      rewrite report_emit. cbn. apply app_nil_r.
    + cbn [snd]. rewrite report_emit. cbn. apply app_nil_r.
  - cbn [snd]. rewrite report_emit. cbn. apply app_nil_r.
Qed.

Lemma load_image_folder_lines (p : string) (verbose : bool) (s : io) :
  folder_lines (console (snd (load_image p verbose s))) = folder_lines (console s).
Proof.
  unfold load_image, folder_lines.
  destruct (read_file (abspath p)) as [b|e].
  - destruct (cv2_imdecode b) as [image|e].
    + destruct (verbose && negb tqdm); cbn [snd emit console set_history]; [|reflexivity].
      rewrite omap_app. cbn. apply app_nil_r.
    + cbn [snd emit console]. rewrite omap_app. cbn. apply app_nil_r.
  - cbn [snd emit console]. rewrite omap_app. cbn. apply app_nil_r.
Qed.

(** What caching one file does: nothing is raised, and the cache gets
    the file bound to a new array exactly when the file normalizes. *)
(** A quiet load leaves the history alone and writes only its error. *)
Lemma load_image_quiet (p : string) (s : io) :
  load_image p false s
  = (load_value p, {| history := history s; console := console s ++ load_failure p |}).
Proof.
  unfold load_image, load_value, load_failure.
  destruct (read_file (abspath p)) as [b|e]; [|reflexivity].
  destruct (cv2_imdecode b) as [image|e]; [|reflexivity].
  cbn [andb]. rewrite app_nil_r. destruct s; reflexivity.
Qed.

Lemma cache_image_spec (p : string) (s : scan_state) :
  exists s', cache_image p s = Done tt s' /\
    results s' = results s /\ current_pair s' = current_pair s /\
    progress s' = progress s /\ probes s' = probes s /\
    report (console (sio s')) = report (console (sio s)) /\
    match normalized p with
    | Ok a => heap s' = heap s ++ [a] /\
              processed_images s' = <[p := length (heap s)]> (processed_images s)
    | Err _ => heap s' = heap s /\ processed_images s' = processed_images s
    end.
Proof.
  unfold cache_image, normalized.
  rewrite load_image_value.
  pose proof (load_image_report p (negb tqdm) (sio s)) as Hrows.
  destruct (preprocess_image (load_value p) default_size) as [a|e].
  - eexists. split; [reflexivity|].
    destruct tqdm; cbn; repeat split; try reflexivity; try exact Hrows.
    rewrite omap_app. cbn. rewrite app_nil_r. exact Hrows.
  - eexists. split; [reflexivity|]. cbn. repeat split; try reflexivity.
    rewrite omap_app. cbn. rewrite app_nil_r. exact Hrows.
Qed.

Lemma cache_of_step (loaded : list string) (p : string) (s s' : scan_state) :
  cache_of loaded s ->
  match normalized p with
  | Ok a => heap s' = heap s ++ [a] /\
            processed_images s' = <[p := length (heap s)]> (processed_images s)
  | Err _ => heap s' = heap s /\ processed_images s' = processed_images s
  end ->
  cache_of (loaded ++ [p]) s'.
Proof.
  intros Hc Hn q. specialize (Hc q).
  destruct (normalized p) as [a|e] eqn:En; destruct Hn as [Hh Hm]; rewrite Hm, Hh.
  - destruct (decide (p = q)) as [->|Hne].
    + rewrite lookup_insert_eq. split; [apply elem_of_app; right; left|].
      exists a. split; [|exact En]. apply list_lookup_middle. reflexivity.
    + rewrite lookup_insert_ne by exact Hne.
      destruct (processed_images s !! q) as [r|].
      * destruct Hc as (Hin & a' & Ha' & Hq).
        split; [apply elem_of_app; left; exact Hin|].
        exists a'. split; [|exact Hq]. apply lookup_app_l_Some. exact Ha'.
      * intros Hin. apply Hc. apply elem_of_app in Hin as [Hin|Hin]; [exact Hin|].
        apply list_elem_of_singleton in Hin. congruence.
  - destruct (processed_images s !! q) as [r|].
    + destruct Hc as (Hin & a' & Ha' & Hq).
      split; [apply elem_of_app; left; exact Hin|].
      exists a'. split; assumption.
    + intros Hin. apply elem_of_app in Hin as [Hin|Hin]; [apply Hc; exact Hin|].
      apply list_elem_of_singleton in Hin as ->. rewrite En. reflexivity.
Qed.

Lemma load_loop_spec (files loaded : list string) (s : scan_state) :
  cache_of loaded s ->
  exists s', for_each files cache_image s = Done tt s' /\
    cache_of (loaded ++ files) s' /\
    results s' = results s /\ current_pair s' = current_pair s /\
    progress s' = progress s /\ probes s' = probes s /\
    report (console (sio s')) = report (console (sio s)).
Proof.
  revert loaded s. induction files as [|p files IH]; intros loaded s Hc.
  - exists s. rewrite app_nil_r. repeat split; try reflexivity. exact Hc.
  - destruct (cache_image_spec p s) as (s1 & E1 & Hr & Hp & Hg & Hb & Hw & Hn).
    pose proof (cache_of_step loaded p s s1 Hc Hn) as Hc1.
    destruct (IH (loaded ++ [p]) s1 Hc1) as (s' & E' & Hc' & Hr' & Hp' & Hg' & Hb' & Hw').
    exists s'. cbn [for_each]. rewrite (bind_done _ _ _ _ _ E1), E'.
    rewrite <- app_assoc in Hc'. repeat split; try congruence. exact Hc'.
Qed.

Lemma cache_of_enter (s : io) : cache_of [] (enter s).
Proof. intros p. cbn. rewrite lookup_empty. intros H. inversion H. Qed.

(** The load phase never raises and leaves the cache of the files. *)
Lemma load_phase_spec (files : list string) (s : io) :
  exists s', load_phase files (enter s) = Done tt s' /\
    cache_of files s' /\
    results s' = [] /\ current_pair s' = 0 /\ progress s' = None /\ probes s' = [] /\
    report (console (sio s')) = report (console s).
Proof.
  unfold load_phase.
  set (s0 := print (if tqdm then LoadBarOpen files else LoadBanner) (enter s)).
  assert (Hc0 : cache_of [] s0) by (intros p; apply (cache_of_enter s p)).
  destruct (load_loop_spec files [] s0 Hc0) as (s1 & E1 & Hc & Hr & Hp & Hg & Hb & Hw).
  assert (Hw0 : report (console (sio s0)) = report (console s)).
  { unfold s0. cbn [print sio]. rewrite report_emit. destruct tqdm; cbn; apply app_nil_r. }
  unfold exec at 1. unfold bind at 1. fold s0. unfold bind at 1. rewrite E1.
  destruct tqdm.
  - exists (print LoadBarClose s1). split; [reflexivity|].
    split; [exact Hc|]. cbn [print results current_pair progress probes sio].
    rewrite report_emit. cbn [report omap]. rewrite app_nil_r.
    repeat split; try assumption. congruence.
  - exists s1. split; [reflexivity|]. repeat split; try assumption. congruence.
Qed.

End LoadFacts.

(** ** Scoring one pair *)

Section StepFacts.
Context `{W : World}.

Lemma pair_score_spec (i j r1 r2 : nat) (s : scan_state) (a1 a2 : ndarray) :
  heap s !! r1 = Some a1 -> heap s !! r2 = Some a2 ->
  fst (pair_score i j r1 r2 s) = score_of a1 a2 /\
  sio (snd (pair_score i j r1 r2 s)) = sio s /\
  processed_images (snd (pair_score i j r1 r2 s)) = processed_images s /\
  (exists h, heap (snd (pair_score i j r1 r2 s)) = heap s ++ h) /\
  results (snd (pair_score i j r1 r2 s)) = results s /\
  current_pair (snd (pair_score i j r1 r2 s)) = current_pair s /\
  progress (snd (pair_score i j r1 r2 s)) = progress s /\
  (exists pr, probes (snd (pair_score i j r1 r2 s)) = probes s ++ pr /\
              Forall (probe_from i j a1 a2) pr).
Proof.
  intros H1 H2. unfold pair_score, reconcile, score_of, reconcile_shape.
  rewrite H1, H2.
  destruct (bool_decide (shape a1 = shape a2)) eqn:Eshape.
  - cbn [fst snd]. unfold measure. rewrite H1, H2. cbn.
    repeat split; try reflexivity.
    + exists []. symmetry. apply app_nil_r.
    + exists [Metric a1 a2]. split; [reflexivity|].
      constructor; [|constructor]. split; [reflexivity|].
      unfold reconcile_shape. rewrite Eshape. reflexivity.
  - apply bool_decide_eq_false in Eshape.
    destruct (resize_like a1 a2) as [resized|e] eqn:Er.
    + cbn [fst snd]. unfold measure. cbn [alloc probe_log heap].
      rewrite (lookup_app_l_Some _ _ _ _ H1), list_lookup_middle by reflexivity.
      cbn. repeat split; try reflexivity.
      * exists [resized]. reflexivity.
      * exists [Reconcile i j; Metric a1 resized]. split.
        -- rewrite <- app_assoc. reflexivity.
        -- constructor; [repeat split; assumption|].
           constructor; [|constructor]. split; [reflexivity|].
           unfold reconcile_shape. rewrite bool_decide_eq_false_2 by exact Eshape.
           exact Er.
    + cbn. repeat split; try reflexivity.
      * exists []. symmetry. apply app_nil_r.
      * exists [Reconcile i j]. split; [reflexivity|].
        constructor; [repeat split; assumption | constructor].
Qed.

Lemma score_block_spec (t : Q) (i j : nat) (p1 p2 : string) (r1 r2 : nat)
    (s : scan_state) (a1 a2 : ndarray) :
  heap s !! r1 = Some a1 -> heap s !! r2 = Some a2 ->
  fst (score_block t i j p1 p2 r1 r2 s) = similarity_of (score_of a1 a2) /\
  scored t i j p1 p2 a1 a2 s (snd (score_block t i j p1 p2 r1 r2 s)).
Proof.
  intros H1 H2.
  destruct (pair_score_spec i j r1 r2 s a1 a2 H1 H2)
    as (Hv & Hio & Hc & Hh & Hr & Hp & Hg & Hb).
  unfold score_block, scored. rewrite Hv.
  destruct (score_of a1 a2) as [q|e]; cbn [fst snd similarity_of matches_of].
  - split; [reflexivity|]. destruct (Qle_bool t q); cbn.
    + rewrite Hc, Hr, Hp, Hg, Hio. repeat split; try assumption; reflexivity.
    + rewrite Hc, Hr, Hp, Hg, Hio, app_nil_r. repeat split; try assumption; reflexivity.
  - split; [reflexivity|]. cbn.
    rewrite Hc, Hr, Hp, Hg, Hio, app_nil_r, omap_app. cbn. rewrite app_nil_r.
    repeat split; try assumption; reflexivity.
Qed.

End StepFacts.

(** ** One pass through the inner loop body *)

Section VisitFacts.
Context `{W : World}.
Variable sigint : option nat.

Lemma visit_pair_interrupt (t : Q) (total i j : nat) (p1 p2 : string) (r1 r2 : nat)
    (s : scan_state) :
  fires sigint s = true ->
  visit_pair sigint t total i j p1 p2 r1 r2 s = Raised KeyboardInterrupt s.
Proof.
  unfold fires, visit_pair, check_signal, bind. intros Hf.
  destruct sigint as [k|]; [|discriminate]. rewrite Hf. reflexivity.
Qed.

Lemma visit_pair_unfold (t : Q) (total i j : nat) (p1 p2 : string) (r1 r2 : nat)
    (s : scan_state) :
  fires sigint s = false ->
  visit_pair sigint t total i j p1 p2 r1 r2 s =
  report_progress total p1 p2
    (fst (score_block t i j p1 p2 r1 r2 (probe_log (Visit i j) s)))
    (snd (score_block t i j p1 p2 r1 r2 (probe_log (Visit i j) s))).
Proof.
  unfold fires, visit_pair, check_signal, bind, exec. intros Hf.
  destruct sigint as [k|]; [rewrite Hf|]; reflexivity.
Qed.

Lemma scored_after_visit_probe (t : Q) (i j : nat) (p1 p2 : string) (a1 a2 : ndarray)
    (s s1 s' : scan_state) :
  scored t i j p1 p2 a1 a2 (probe_log (Visit i j) s) s1 ->
  sio s' = sio s1 \/ (exists e, sio s' = emit e (sio s1) /\ report [e] = []) \/
    (exists e e', sio s' = emit e' (emit e (sio s1)) /\ report [e] = [] /\ report [e'] = []) ->
  heap s' = heap s1 -> processed_images s' = processed_images s1 ->
  results s' = results s1 -> probes s' = probes s1 ->
  current_pair s' = S (current_pair s1) ->
  (tqdm = false -> progress s' = progress s1) ->
  visit_effect t i j p1 p2 a1 a2 s s'.
Proof.
  intros (Hc & Hh & Hr & Hp & Hg & Hw & pr & Hb & Hf) Hio Eh Ec Er Eb Ep Eg.
  unfold visit_effect. cbn [probe_log processed_images heap results current_pair
    progress probes sio] in *.
  rewrite Ec, Eh, Er, Ep, Eb. repeat split; try assumption.
  - congruence.
  - intros Ht. rewrite (Eg Ht). exact Hg.
  - rewrite <- Hw. destruct Hio as [->|[(e & -> & He)|(e & e' & -> & He & He')]].
    + reflexivity.
    + rewrite report_emit, He. apply app_nil_r.
    + rewrite !report_emit, He, He', !app_nil_r. reflexivity.
  - exists pr. split; [|exact Hf]. rewrite Hb, <- app_assoc. reflexivity.
Qed.

(** With the progress-bar library the pass completes. *)
Lemma visit_pair_tqdm (t : Q) (total i j : nat) (p1 p2 : string) (r1 r2 : nat)
    (s : scan_state) (a1 a2 : ndarray) :
  tqdm = true -> total <> 0 -> fires sigint s = false ->
  heap s !! r1 = Some a1 -> heap s !! r2 = Some a2 ->
  exists s', visit_pair sigint t total i j p1 p2 r1 r2 s = Done tt s' /\
             visit_effect t i j p1 p2 a1 a2 s s'.
Proof.
  intros Ht Htot Hf H1 H2. rewrite visit_pair_unfold by exact Hf.
  destruct (score_block_spec t i j p1 p2 r1 r2 (probe_log (Visit i j) s) a1 a2 H1 H2)
    as [_ Hs].
  unfold report_progress. rewrite Ht.
  destruct (Nat.eqb_spec total 0) as [|_]; [contradiction|].
  eexists. split; [reflexivity|].
  eapply scored_after_visit_probe; [exact Hs | | reflexivity .. | ].
  - right. right. eexists _, _. split; [reflexivity|]. split; reflexivity.
  - intros Ht'. congruence.
Qed.

(** Without it, the pass ends at the read of the unbound local
    [progress]. *)
Lemma visit_pair_plain (t : Q) (total i j : nat) (p1 p2 : string) (r1 r2 : nat)
    (s : scan_state) (a1 a2 : ndarray) :
  tqdm = false -> progress s = None -> fires sigint s = false ->
  heap s !! r1 = Some a1 -> heap s !! r2 = Some a2 ->
  exists s', visit_pair sigint t total i j p1 p2 r1 r2 s
             = Raised (UnboundLocalError "progress") s' /\
             visit_effect t i j p1 p2 a1 a2 s s'.
Proof.
  intros Ht Hp Hf H1 H2. rewrite visit_pair_unfold by exact Hf.
  destruct (score_block_spec t i j p1 p2 r1 r2 (probe_log (Visit i j) s) a1 a2 H1 H2)
    as [_ Hs].
  unfold report_progress. rewrite Ht. cbn [next_pair progress].
  assert (Hg : progress (snd (score_block t i j p1 p2 r1 r2 (probe_log (Visit i j) s))) = None).
  { destruct Hs as (_ & _ & _ & _ & Hg & _). rewrite Hg. exact Hp. }
  rewrite Hg. eexists. split; [reflexivity|].
  eapply scored_after_visit_probe; [exact Hs | | reflexivity .. | ].
  - left. reflexivity.
  - intros _. reflexivity.
Qed.

End VisitFacts.

(** ** The two loops as one loop over [scan_order] *)

Lemma ordered_pairs_filter_seq (f : nat -> bool) (n k a : nat) :
  a + k = n ->
  ordered_pairs (List.filter f (seq a k)) =
  flat_map (fun i => if f i then map (pair i) (List.filter f (seq (i + 1) (n - (i + 1))))
                     else []) (seq a k).
Proof.
  revert a. induction k as [|k IH]; intros a Hn; [reflexivity|].
  cbn [seq List.filter flat_map].
  assert (E : seq (a + 1) (n - (a + 1)) = seq (S a) k) by (f_equal; lia).
  rewrite E. destruct (f a).
  - cbn [ordered_pairs]. f_equal. apply IH. lia.
  - cbn [app]. apply IH. lia.
Qed.

Section LoopFacts.
Context `{W : World}.
Variable sigint : option nat.
Variables (t : Q) (total : nat) (files : list string).
Hypothesis total_pos : total <> 0.

Lemma cache_of_extend (s s' : scan_state) :
  cache_of files s -> processed_images s' = processed_images s ->
  (exists h, heap s' = heap s ++ h) -> cache_of files s'.
Proof.
  intros Hc Ec [h Eh] p. specialize (Hc p). rewrite Ec.
  destruct (processed_images s !! p) as [r|]; [|exact Hc].
  destruct Hc as (Hin & a & Ha & Hn). split; [exact Hin|].
  exists a. split; [|exact Hn]. rewrite Eh. apply lookup_app_l_Some. exact Ha.
Qed.

Lemma scanning_array (c : gmap string nat) (s : scan_state) (p : string) (r : nat) :
  scanning files c s -> c !! p = Some r ->
  exists a, heap s !! r = Some a /\ normalized p = Ok a.
Proof.
  intros (<- & Hc & _) Hp. specialize (Hc p). rewrite Hp in Hc.
  destruct Hc as (_ & a & Ha & Hn). exists a. split; assumption.
Qed.

Lemma scanning_cached (c : gmap string nat) (s : scan_state) (i : nat) (p : string) :
  scanning files c s -> files !! i = Some p ->
  is_ok (normalized p) = bool_decide (is_Some (c !! p)).
Proof.
  intros (<- & Hc & _) Hp. specialize (Hc p).
  destruct (processed_images s !! p) as [r|].
  - destruct Hc as (_ & a & _ & ->). symmetry. apply bool_decide_eq_true. eauto.
  - rewrite Hc by (eapply list_elem_of_lookup_2; exact Hp).
    symmetry. apply bool_decide_eq_false. intros [? ?]. discriminate.
Qed.

Lemma visit_effect_scanning (c : gmap string nat) (i j : nat) (p1 p2 : string)
    (a1 a2 : ndarray) (s s' : scan_state) :
  scanning files c s -> visit_effect t i j p1 p2 a1 a2 s s' -> scanning files c s'.
Proof.
  intros (Ec & Hc & Hg) (Ec' & Hh & _ & _ & Hg' & _). repeat split.
  - congruence.
  - eapply cache_of_extend; eassumption.
  - intros Ht. rewrite (Hg' Ht). apply Hg, Ht.
Qed.

(** However a pass ends, the loop invariant holds after it. *)
Lemma visit_pair_keeps (c : gmap string nat) (i j : nat) (p1 p2 : string) (r1 r2 : nat)
    (s : scan_state) :
  scanning files c s -> c !! p1 = Some r1 -> c !! p2 = Some r2 ->
  scanning files c (final_state (visit_pair sigint t total i j p1 p2 r1 r2 s)).
Proof.
  intros HK H1 H2.
  destruct (scanning_array c s p1 r1 HK H1) as (a1 & Ha1 & _).
  destruct (scanning_array c s p2 r2 HK H2) as (a2 & Ha2 & _).
  destruct (fires sigint s) eqn:Ef.
  - rewrite visit_pair_interrupt by exact Ef. exact HK.
  - destruct tqdm eqn:Et.
    + destruct (visit_pair_tqdm sigint t total i j p1 p2 r1 r2 s a1 a2 Et total_pos Ef Ha1 Ha2)
        as (s' & -> & He).
      eapply visit_effect_scanning; eassumption.
    + destruct HK as (Ec & Hc & Hg).
      destruct (visit_pair_plain sigint t total i j p1 p2 r1 r2 s a1 a2 Et (Hg Et) Ef Ha1 Ha2)
        as (s' & -> & He).
      eapply visit_effect_scanning; [|eassumption]. repeat split; assumption.
Qed.

Lemma visit_at_keeps (c : gmap string nat) (ij : nat * nat) (s : scan_state) :
  scanning files c s -> scanning files c (final_state (visit_at sigint t total files ij s)).
Proof.
  intros HK. unfold visit_at.
  destruct (files !! ij.1) as [p1|]; [|exact HK].
  destruct (files !! ij.2) as [p2|]; [|exact HK].
  destruct (processed_images s !! p1) as [r1|] eqn:E1; [|exact HK].
  destruct (processed_images s !! p2) as [r2|] eqn:E2; [|exact HK].
  pose proof HK as (Ec & _). rewrite Ec in E1, E2.
  apply visit_pair_keeps; assumption.
Qed.

Lemma inner_loop_flat (c : gmap string nat) (i : nat) (p1 : string) (r1 : nat)
    (js : list nat) (s : scan_state) :
  files !! i = Some p1 -> c !! p1 = Some r1 ->
  (forall j, In j js -> j < length files) ->
  scanning files c s ->
  for_each js (inner_body sigint t total files i p1 r1) s =
  for_each (map (pair i) (List.filter (normalizes files) js)) (visit_at sigint t total files) s.
Proof.
  intros Hi Hr1. revert s. induction js as [|j js IH]; intros s Hjs HK; [reflexivity|].
  destruct (lookup_lt_is_Some_2 files j (Hjs j ltac:(left; reflexivity))) as [p2 Hj].
  assert (Hjs' : forall j', In j' js -> j' < length files)
    by (intros j' Hin; apply Hjs; right; exact Hin).
  cbn [for_each List.filter]. unfold normalizes at 1. rewrite Hj.
  rewrite (scanning_cached c s j p2 HK Hj).
  unfold bind at 1. unfold inner_body at 1. unfold bind at 1, index at 1. rewrite Hj.
  pose proof HK as (Ec & _). rewrite Ec.
  destruct (c !! p2) as [r2|] eqn:E2.
  - rewrite bool_decide_eq_true_2 by eauto. cbn [map for_each]. unfold bind at 1.
    unfold visit_at at 1. cbn [fst snd]. rewrite Hi, Hj, Ec, Hr1, E2.
    pose proof (visit_pair_keeps c i j p1 p2 r1 r2 s HK Hr1 E2) as HK'.
    destruct (visit_pair sigint t total i j p1 p2 r1 r2 s) as [[] s'|e s']; [|reflexivity].
    apply IH; assumption.
  - rewrite bool_decide_eq_false_2 by (intros [? ?]; discriminate).
    apply IH; assumption.
Qed.

Lemma outer_body_flat (c : gmap string nat) (i : nat) (s : scan_state) :
  i < length files -> scanning files c s ->
  outer_body sigint t total files i s =
  for_each (if normalizes files i
            then map (pair i) (List.filter (normalizes files) (seq (i + 1) (length files - (i + 1))))
            else [])
           (visit_at sigint t total files) s.
Proof.
  intros Hi HK. destruct (lookup_lt_is_Some_2 files i Hi) as [p1 Hp1].
  unfold outer_body, bind, index. rewrite Hp1. unfold normalizes at 1. rewrite Hp1.
  rewrite (scanning_cached c s i p1 HK Hp1).
  pose proof HK as (Ec & _). rewrite Ec.
  destruct (c !! p1) as [r1|] eqn:E1.
  - rewrite bool_decide_eq_true_2 by eauto.
    apply inner_loop_flat with (c := c); try assumption.
    intros j Hin. apply in_seq in Hin. lia.
  - rewrite bool_decide_eq_false_2 by (intros [? ?]; discriminate). reflexivity.
Qed.

(** The pair loop is the loop over [scan_order]. *)
Lemma pair_loop_flat (c : gmap string nat) (s : scan_state) :
  scanning files c s ->
  for_each (range 0 (length files)) (outer_body sigint t total files) s =
  for_each (scan_order files) (visit_at sigint t total files) s.
Proof.
  intros HK. unfold scan_order, cached_positions, range. rewrite Nat.sub_0_r.
  rewrite (ordered_pairs_filter_seq (normalizes files) (length files) (length files) 0 eq_refl).
  rewrite for_each_flat_map. apply for_each_agree with (J := scanning files c).
  - intros i s0 Hin HK0. apply outer_body_flat with (c := c); [|exact HK0].
    apply list_elem_of_In, in_seq in Hin. lia.
  - intros i s0 Hin HK0. rewrite (outer_body_flat c i s0); [|
      apply list_elem_of_In, in_seq in Hin; lia | exact HK0].
    apply for_each_invariant; [|exact HK0].
    intros ij s1 _ HK1. apply visit_at_keeps. exact HK1.
  - exact HK.
Qed.

End LoopFacts.

(** ** The index pairs of [scan_order] *)

Lemma in_ordered_pairs_filter_seq (f : nat -> bool) (k a x y : nat) :
  In (x, y) (ordered_pairs (List.filter f (seq a k))) <->
  a <= x /\ x < y /\ y < a + k /\ f x = true /\ f y = true.
Proof.
  revert a. induction k as [|k IH]; intros a.
  - cbn. split; [intros [] | lia].
  - cbn [seq List.filter]. destruct (f a) eqn:Efa.
    + cbn [ordered_pairs]. rewrite in_app_iff, in_map_iff, IH. split.
      * intros [(y' & Heq & Hin)|H].
        -- injection Heq as <- <-. apply filter_In in Hin as [Hin Hfy].
           apply in_seq in Hin. repeat split; try lia; assumption.
        -- destruct H as (? & ? & ? & ? & ?). repeat split; try lia; assumption.
      * intros (Hax & Hxy & Hy & Hfx & Hfy).
        destruct (Nat.eq_dec x a) as [->|Hne].
        -- left. exists y. split; [reflexivity|]. apply filter_In.
           split; [apply in_seq; lia | exact Hfy].
        -- right. repeat split; try lia; assumption.
    + rewrite IH. split.
      * intros (? & ? & ? & ? & ?). repeat split; try lia; assumption.
      * intros (Hax & Hxy & Hy & Hfx & Hfy).
        assert (x <> a) by congruence. repeat split; try lia; assumption.
Qed.

Lemma in_ordered_pairs_l {X} (l : list X) (x y : X) :
  In (x, y) (ordered_pairs l) -> In x l.
Proof.
  induction l as [|a l IH]; cbn [ordered_pairs]; [intros []|].
  rewrite in_app_iff, in_map_iff. intros [(y' & Heq & _)|H].
  - injection Heq as <- _. left. reflexivity.
  - right. apply IH, H.
Qed.

Lemma ordered_pairs_NoDup {X} (l : list X) : NoDup l -> NoDup (ordered_pairs l).
Proof.
  induction 1 as [|a l Hnin Hnd IH]; cbn [ordered_pairs]; [constructor|].
  apply NoDup_app. split; [|split].
  - apply NoDup_fmap_2; [|exact Hnd]. intros y y' Heq. congruence.
  - intros [x y] Hin Hin'. apply list_elem_of_In in Hin, Hin'.
    apply in_map_iff in Hin as (y' & Heq & _). injection Heq as <- _.
    apply Hnin. apply list_elem_of_In. eapply in_ordered_pairs_l. exact Hin'.
  - exact IH.
Qed.

Section OrderFacts.
Context `{W : World}.

(** The pair loop is to visit (i, j) exactly when i < j and both images
    normalize. *)
Lemma in_scan_order (files : list string) (i j : nat) :
  In (i, j) (scan_order files) <->
  i < j /\ j < length files /\ normalizes files i = true /\ normalizes files j = true.
Proof.
  unfold scan_order, cached_positions. rewrite in_ordered_pairs_filter_seq.
  split; intros H; repeat split; try lia; apply H.
Qed.

Lemma scan_order_NoDup (files : list string) : NoDup (scan_order files).
Proof.
  apply ordered_pairs_NoDup. unfold cached_positions.
  apply NoDup_ListNoDup, List.NoDup_filter, seq_NoDup.
Qed.

Lemma scan_order_length (files : list string) :
  length (scan_order files) = comb (length (cached_positions files)) 2.
Proof. apply ordered_pairs_length. Qed.

Lemma scan_order_valid (files : list string) :
  Forall (both_normalize files) (scan_order files).
Proof.
  apply List.Forall_forall. intros [i j] Hin. apply in_scan_order in Hin.
  split; apply Hin.
Qed.

Lemma cached_positions_length (files : list string) :
  length (cached_positions files) <= length files.
Proof.
  unfold cached_positions.
  etransitivity; [apply List.filter_length_le|]. rewrite length_seq. reflexivity.
Qed.

End OrderFacts.

(** ** Running the loop over a list of index pairs *)

Section RunFacts.
Context `{W : World}.
Variable sigint : option nat.
Variables (t : Q) (total : nat) (files : list string).
Hypothesis total_pos : total <> 0.

Lemma visited_probe_from (i j : nat) (a1 a2 : ndarray) (pr : list probe) :
  Forall (probe_from i j a1 a2) pr -> visited pr = [].
Proof.
  induction 1 as [|p pr Hp _ IH]; [reflexivity|].
  destruct p; [destruct Hp | exact IH | exact IH].
Qed.

Lemma visited_app (ps qs : list probe) : visited (ps ++ qs) = visited ps ++ visited qs.
Proof. apply omap_app. Qed.

Lemma pairs_effect_nil (s : scan_state) : pairs_effect t files [] s s.
Proof.
  unfold pairs_effect. cbn [flat_map length]. rewrite !app_nil_r, Nat.add_0_r.
  repeat split; try reflexivity.
  - exists []. symmetry. apply app_nil_r.
  - exists []. rewrite app_nil_r. repeat split. constructor.
Qed.

Lemma pairs_effect_app (ps1 ps2 : list (nat * nat)) (s s1 s2 : scan_state) :
  pairs_effect t files ps1 s s1 -> pairs_effect t files ps2 s1 s2 ->
  pairs_effect t files (ps1 ++ ps2) s s2.
Proof.
  intros (Hc & [h Hh] & Hr & Hp & Hg & Hw & pr & Hb & Hv & Hs)
         (Hc' & [h' Hh'] & Hr' & Hp' & Hg' & Hw' & pr' & Hb' & Hv' & Hs').
  unfold pairs_effect. rewrite flat_map_app, length_app.
  split; [congruence|]. split; [|split; [|split; [|split; [|split]]]].
  - exists (h ++ h'). rewrite Hh', Hh, <- app_assoc. reflexivity.
  - rewrite Hr', Hr, <- app_assoc. reflexivity.
  - lia.
  - intros Ht. rewrite (Hg' Ht). apply Hg, Ht.
  - congruence.
  - exists (pr ++ pr'). split; [|split].
    + rewrite Hb', Hb, <- app_assoc. reflexivity.
    + rewrite visited_app, Hv, Hv'. reflexivity.
    + apply Forall_app. split; assumption.
Qed.

(** At an index pair of [scan_order] the paths, cache entries and arrays
    are there, and the pass is [visit_pair] on them. *)
Lemma visit_at_valid (c : gmap string nat) (ij : nat * nat) (s : scan_state) :
  scanning files c s -> both_normalize files ij ->
  exists p1 p2 r1 r2 a1 a2,
    c !! p1 = Some r1 /\ c !! p2 = Some r2 /\
    heap s !! r1 = Some a1 /\ heap s !! r2 = Some a2 /\
    visit_at sigint t total files ij s
      = visit_pair sigint t total (fst ij) (snd ij) p1 p2 r1 r2 s /\
    (files !! fst ij = Some p1 /\ files !! snd ij = Some p2 /\
     normalized p1 = Ok a1 /\ normalized p2 = Ok a2) /\
    forall t', pair_matches t' files ij
               = matches_of t' (basename p1) (basename p2) (score_of a1 a2).
Proof.
  intros HK [H1 H2]. unfold normalizes in H1, H2. unfold visit_at, pair_matches.
  destruct (files !! ij.1) as [p1|] eqn:E1; [|discriminate].
  destruct (files !! ij.2) as [p2|] eqn:E2; [|discriminate].
  rewrite (scanning_cached files c s _ p1 HK E1) in H1.
  rewrite (scanning_cached files c s _ p2 HK E2) in H2.
  apply bool_decide_eq_true in H1 as [r1 Hr1], H2 as [r2 Hr2].
  destruct (scanning_array files c s p1 r1 HK Hr1) as (a1 & Ha1 & Hn1).
  destruct (scanning_array files c s p2 r2 HK Hr2) as (a2 & Ha2 & Hn2).
  exists p1, p2, r1, r2, a1, a2. pose proof HK as (Ec & _).
  rewrite Ec, Hr1, Hr2, Hn1, Hn2. repeat split; try assumption; reflexivity.
Qed.

Lemma probe_from_sound (i j : nat) (p1 p2 : string) (a1 a2 : ndarray) (p : probe) :
  files !! i = Some p1 -> files !! j = Some p2 ->
  normalized p1 = Ok a1 -> normalized p2 = Ok a2 ->
  probe_from i j a1 a2 p -> probe_sound files p.
Proof.
  intros Hi Hj H1 H2. destruct p as [i' j'|i' j'|b1 b2]; cbn.
  - intros [].
  - intros (-> & -> & Hne). exists p1, p2, a1, a2. repeat split; assumption.
  - intros [-> Hr]. exists p1, p2, a2.
    repeat split; try assumption; eapply list_elem_of_lookup_2; eassumption.
Qed.

Lemma visit_effect_pairs (i j : nat) (p1 p2 : string) (a1 a2 : ndarray) (s s' : scan_state) :
  both_normalize files (i, j) ->
  files !! i = Some p1 -> files !! j = Some p2 ->
  normalized p1 = Ok a1 -> normalized p2 = Ok a2 ->
  pair_matches t files (i, j) = matches_of t (basename p1) (basename p2) (score_of a1 a2) ->
  visit_effect t i j p1 p2 a1 a2 s s' -> pairs_effect t files [(i, j)] s s'.
Proof.
  intros Hv Hi Hj H1 H2 Hm (Hc & Hh & Hr & Hp & Hg & Hw & pr & Hb & Hf).
  unfold pairs_effect. cbn [flat_map length]. rewrite app_nil_r, Hm.
  split; [assumption|]. split; [assumption|]. split; [assumption|].
  split; [lia|]. split; [assumption|]. split; [assumption|].
  exists (Visit i j :: pr). split; [exact Hb|]. split.
  - change (Visit i j :: pr) with ([Visit i j] ++ pr).
    rewrite visited_app, (visited_probe_from i j a1 a2 pr Hf). reflexivity.
  - constructor; [exact Hv|].
    revert Hf. apply List.Forall_impl. intros p. apply (probe_from_sound i j p1 p2 a1 a2); assumption.
Qed.

(** With the progress-bar library, one pass for a pair of [scan_order]. *)
Lemma visit_at_tqdm (c : gmap string nat) (ij : nat * nat) (s : scan_state) :
  tqdm = true -> fires sigint s = false ->
  scanning files c s -> both_normalize files ij ->
  exists s', visit_at sigint t total files ij s = Done tt s' /\
             pairs_effect t files [ij] s s' /\ scanning files c s'.
Proof.
  intros Ht Hf HK Hv.
  destruct (visit_at_valid c ij s HK Hv)
    as (p1 & p2 & r1 & r2 & a1 & a2 & Hr1 & Hr2 & Ha1 & Ha2 & E & (Hi & Hj & Hn1 & Hn2) & Hm).
  destruct (visit_pair_tqdm sigint t total ij.1 ij.2 p1 p2 r1 r2 s a1 a2 Ht total_pos Hf Ha1 Ha2)
    as (s' & E' & He).
  exists s'. rewrite E, E'. split; [reflexivity|]. split.
  - destruct ij as [i j]. eapply visit_effect_pairs; [eassumption .. | apply Hm | exact He].
  - eapply visit_effect_scanning; eassumption.
Qed.

(** Without it, one pass for a pair of [scan_order]. *)
Lemma visit_at_plain (c : gmap string nat) (ij : nat * nat) (s : scan_state) :
  tqdm = false -> fires sigint s = false ->
  scanning files c s -> both_normalize files ij ->
  exists s', visit_at sigint t total files ij s = Raised (UnboundLocalError "progress") s' /\
             pairs_effect t files [ij] s s'.
Proof.
  intros Ht Hf HK Hv.
  destruct (visit_at_valid c ij s HK Hv)
    as (p1 & p2 & r1 & r2 & a1 & a2 & Hr1 & Hr2 & Ha1 & Ha2 & E & (Hi & Hj & Hn1 & Hn2) & Hm).
  pose proof HK as (_ & _ & Hg).
  destruct (visit_pair_plain sigint t total ij.1 ij.2 p1 p2 r1 r2 s a1 a2 Ht (Hg Ht) Hf Ha1 Ha2)
    as (s' & E' & He).
  exists s'. rewrite E, E'. split; [reflexivity|].
  destruct ij as [i j]. eapply visit_effect_pairs; [eassumption .. | apply Hm | exact He].
Qed.

Lemma visit_at_interrupt (c : gmap string nat) (ij : nat * nat) (s : scan_state) :
  fires sigint s = true -> scanning files c s -> both_normalize files ij ->
  visit_at sigint t total files ij s = Raised KeyboardInterrupt s.
Proof.
  intros Hf HK Hv.
  destruct (visit_at_valid c ij s HK Hv) as (p1 & p2 & r1 & r2 & a1 & a2 & _ & _ & _ & _ & E & _ & _).
  rewrite E. apply visit_pair_interrupt. exact Hf.
Qed.

Lemma quiet_fires (p : nat * nat) (ps : list (nat * nat)) (s : scan_state) :
  quiet sigint (p :: ps) s -> fires sigint s = false.
Proof.
  unfold quiet, fires. intros Hq. destruct sigint as [k|]; [|reflexivity].
  apply Nat.eqb_neq. specialize (Hq k eq_refl). cbn [length] in Hq. lia.
Qed.

(** With the progress-bar library and no interrupt, every pass completes. *)
Lemma run_complete (c : gmap string nat) (ps : list (nat * nat)) (s : scan_state) :
  tqdm = true -> scanning files c s -> Forall (both_normalize files) ps -> quiet sigint ps s ->
  exists s', for_each ps (visit_at sigint t total files) s = Done tt s' /\
             pairs_effect t files ps s s' /\ scanning files c s'.
Proof.
  intros Ht. revert s. induction ps as [|p ps IH]; intros s HK Hv Hq.
  - exists s. split; [reflexivity|]. split; [apply pairs_effect_nil | exact HK].
  - apply List.Forall_cons_iff in Hv as [Hp Hv'].
    destruct (visit_at_tqdm c p s Ht (quiet_fires p ps s Hq) HK Hp) as (s1 & E1 & He1 & HK1).
    assert (Hq1 : quiet sigint ps s1).
    { intros k Hk. destruct He1 as (_ & _ & _ & Hp1 & _). rewrite Hp1.
      specialize (Hq k Hk). cbn [length] in *. lia. }
    destruct (IH s1 HK1 Hv' Hq1) as (s' & E' & He' & HK').
    exists s'. cbn [for_each]. rewrite (bind_done _ _ _ _ _ E1), E'.
    split; [reflexivity|]. split; [|exact HK'].
    apply (pairs_effect_app [p] ps s s1 s'); assumption.
Qed.

(** With the progress-bar library, an interrupt that arrives after [k]
    more pairs stops the loop with the state those [k] passes left. *)
Lemma run_interrupted (c : gmap string nat) (ps : list (nat * nat)) (s : scan_state) (k : nat) :
  tqdm = true -> scanning files c s -> Forall (both_normalize files) ps ->
  sigint = Some (current_pair s + k) -> k < length ps ->
  exists s', for_each ps (visit_at sigint t total files) s = Raised KeyboardInterrupt s' /\
             pairs_effect t files (take k ps) s s'.
Proof.
  intros Ht. revert ps s. induction k as [|k IH]; intros ps s HK Hv Hs Hk.
  - destruct ps as [|p ps]; [cbn in Hk; lia|].
    apply List.Forall_cons_iff in Hv as [Hp Hv'].
    assert (Hf : fires sigint s = true).
    { unfold fires. rewrite Hs. apply Nat.eqb_eq. lia. }
    exists s. cbn [for_each]. rewrite (bind_raised _ _ _ _ _ (visit_at_interrupt c p s Hf HK Hp)).
    split; [reflexivity | apply pairs_effect_nil].
  - destruct ps as [|p ps]; [cbn in Hk; lia|].
    apply List.Forall_cons_iff in Hv as [Hp Hv'].
    assert (Hf : fires sigint s = false).
    { unfold fires. rewrite Hs. apply Nat.eqb_neq. lia. }
    destruct (visit_at_tqdm c p s Ht Hf HK Hp) as (s1 & E1 & He1 & HK1).
    assert (Hs1 : sigint = Some (current_pair s1 + k)).
    { destruct He1 as (_ & _ & _ & Hp1 & _). rewrite Hp1, Hs. f_equal. cbn [length]. lia. }
    destruct (IH ps s1 HK1 Hv' Hs1 ltac:(cbn [length] in Hk; lia)) as (s' & E' & He').
    exists s'. cbn [for_each]. rewrite (bind_done _ _ _ _ _ E1), E'.
    split; [reflexivity|].
    apply (pairs_effect_app [p] (take k ps) s s1 s'); assumption.
Qed.

(** Without the progress-bar library the loop ends in its first pass. *)
Lemma run_plain (c : gmap string nat) (p : nat * nat) (ps : list (nat * nat)) (s : scan_state) :
  tqdm = false -> scanning files c s -> Forall (both_normalize files) (p :: ps) ->
  (fires sigint s = true /\
   for_each (p :: ps) (visit_at sigint t total files) s = Raised KeyboardInterrupt s) \/
  (fires sigint s = false /\
   exists s', for_each (p :: ps) (visit_at sigint t total files) s
              = Raised (UnboundLocalError "progress") s' /\
              pairs_effect t files [p] s s').
Proof.
  intros Ht HK Hv. apply List.Forall_cons_iff in Hv as [Hp Hv'].
  destruct (fires sigint s) eqn:Hf; [left | right]; (split; [reflexivity|]).
  - cbn [for_each]. apply bind_raised. apply (visit_at_interrupt c); assumption.
  - destruct (visit_at_plain c p s Ht Hf HK Hp) as (s' & E & He).
    exists s'. split; [|exact He]. cbn [for_each]. apply bind_raised. exact E.
Qed.

End RunFacts.

(** ** Completion, interrupt handler and clean-up *)

Section FinishFacts.
Context `{W : World}.

Lemma same_locals_refl (s : scan_state) : same_locals s s.
Proof. repeat split. Qed.

Lemma same_locals_trans (s1 s2 s3 : scan_state) :
  same_locals s1 s2 -> same_locals s2 s3 -> same_locals s1 s3.
Proof.
  intros (? & ? & ? & ? & ? & ?) (? & ? & ? & ? & ? & ?). repeat split; congruence.
Qed.

Lemma same_locals_print (e : event) (s : scan_state) : same_locals s (print e s).
Proof. repeat split. Qed.

Lemma report_print (e : event) (s : scan_state) :
  report (console (sio (print e s))) = report (console (sio s)) ++ report [e].
Proof. cbn [print sio]. apply report_emit. Qed.

Lemma print_rows_fold (zs : list (nat * match_result)) (s : scan_state) :
  same_locals s (fold_left (fun s' r => print (Row (fst r) (snd r)) s') zs s) /\
  report (console (sio (fold_left (fun s' r => print (Row (fst r) (snd r)) s') zs s)))
  = report (console (sio s)) ++ map (fun r => Row (fst r) (snd r)) zs.
Proof.
  revert s. induction zs as [|z zs IH]; intros s; cbn [fold_left map].
  - split; [apply same_locals_refl | symmetry; apply app_nil_r].
  - destruct (IH (print (Row z.1 z.2) s)) as [Hl Hr]. split.
    + eapply same_locals_trans; [apply same_locals_print | exact Hl].
    + rewrite Hr, report_print. cbn [report omap]. rewrite <- app_assoc. reflexivity.
Qed.

Lemma cleanup_spec (s : scan_state) :
  same_locals s (cleanup s) /\
  report (console (sio (cleanup s))) = report (console (sio s)).
Proof.
  unfold cleanup. destruct tqdm.
  - split; [apply same_locals_print|]. rewrite report_print. apply app_nil_r.
  - split; [repeat split|]. rewrite !report_print. cbn. rewrite !app_nil_r. reflexivity.
Qed.

(** What the [finally] clause writes. *)
Lemma cleanup_console (s : scan_state) :
  console (sio (cleanup s))
  = console (sio s) ++ WindowTitle TitleDone :: (if tqdm then [] else [ClearLine]).
Proof.
  unfold cleanup. destruct tqdm; cbn [print sio emit console]; [reflexivity|].
  rewrite <- app_assoc. reflexivity.
Qed.

Lemma loop_start_spec (total : nat) (s : scan_state) :
  same_locals s (loop_start total s) /\
  report (console (sio (loop_start total s)))
  = report (console (sio s)) ++ (if tqdm then [PairBarOpen total] else []).
Proof.
  unfold loop_start. destruct tqdm.
  - split; [apply same_locals_print|]. rewrite report_print. reflexivity.
  - split; [repeat split|]. rewrite !report_print. cbn. rewrite !app_nil_r. reflexivity.
Qed.

(** Completion sorts the collected results, prints the count and the
    first twenty rows, and returns the sorted list. *)
Lemma finish_spec (s : scan_state) :
  exists s', finish s = Done (sort_desc mr_score (results s)) s' /\
    results s' = sort_desc mr_score (results s) /\
    processed_images s' = processed_images s /\ heap s' = heap s /\
    probes s' = probes s /\ current_pair s' = current_pair s /\
    report (console (sio s')) =
      report (console (sio s)) ++
      Summary (length (results s)) :: rows_of (take 20 (sort_desc mr_score (results s))).
Proof.
  unfold finish. cbv zeta.
  set (s1 := if tqdm then print PairBarClose s else print Newline s).
  assert (H1 : same_locals s s1 /\ report (console (sio s1)) = report (console (sio s))).
  { unfold s1. destruct tqdm; (split; [apply same_locals_print|]);
      rewrite report_print; apply app_nil_r. }
  destruct H1 as [(Hh1 & Hc1 & Hr1 & Hp1 & Hg1 & Hb1) Hw1].
  set (s3 := set_results _ _).
  destruct (print_rows_fold (zip (seq 1 (length (take 20 (results s3)))) (take 20 (results s3))) s3)
    as [(Hh & Hc & Hr & Hp & Hg & Hb) Hw].
  assert (Hr3 : results s3 = sort_desc mr_score (results s)).
  { unfold s3. cbn. rewrite Hr1. reflexivity. }
  exists (print_rows (take 20 (results s3)) s3).
  split; [|split; [|split; [|split; [|split; [|split]]]]].
  - f_equal. etransitivity; [exact Hr | exact Hr3].
  - etransitivity; [exact Hr | exact Hr3].
  - etransitivity; [exact Hc | exact Hc1].
  - etransitivity; [exact Hh | exact Hh1].
  - etransitivity; [exact Hb | exact Hb1].
  - etransitivity; [exact Hp | exact Hp1].
  - etransitivity; [exact Hw|]. unfold rows_of. rewrite Hr3.
    unfold s3 at 1. cbn [set_results sio].
    rewrite report_print, Hw1. cbn [report omap]. rewrite <- app_assoc.
    cbn [app print results]. rewrite Hr1. reflexivity.
Qed.

End FinishFacts.

(** ** The ways a call of [auto_scan_folder] ends *)

Section ScanFacts.
Context `{W : World}.
Variable sigint : option nat.
Variables (folder : string) (t : Q) (s : io).

Local Abbreviation files := (image_files folder).
Local Abbreviation total := (comb (length (image_files folder)) 2).

Lemma compare_phase_start (s1 : scan_state) :
  compare_phase sigint t total files s1 =
  for_each (range 0 (length files)) (outer_body sigint t total files) (loop_start total s1).
Proof. unfold compare_phase, loop_start, bind, exec. destruct tqdm; reflexivity. Qed.

(** After the checks and the load phase, the scan is the loop over
    [scan_order] followed by completion. *)
Lemma scan_setup :
  isdir folder = true -> 2 <= length files ->
  exists s1,
    scanning files (processed_images s1) s1 /\
    results s1 = [] /\ current_pair s1 = 0 /\ probes s1 = [] /\
    report (console (sio s1))
      = report (console s) ++ (if tqdm then [PairBarOpen total] else []) /\
    auto_scan_try sigint folder t (enter s) =
    (for_each (scan_order files) (visit_at sigint t total files) ;;; finish) s1.
Proof.
  intros Hdir Hlen.
  assert (Htot : total <> 0) by (apply comb_2_pos; exact Hlen).
  destruct (load_phase_spec files s) as (s0 & E0 & Hc & Hr & Hp & Hg & Hb & Hw).
  destruct (loop_start_spec total s0) as [(Hh1 & Hc1 & Hr1 & Hp1 & Hg1 & Hb1) Hw1].
  assert (HK : scanning files (processed_images (loop_start total s0)) (loop_start total s0)).
  { split; [reflexivity|]. split.
    - apply (cache_of_extend files s0); [exact Hc | exact Hc1|].
      exists []. rewrite Hh1. symmetry. apply app_nil_r.
    - intros _. congruence. }
  exists (loop_start total s0). split; [exact HK|].
  split; [congruence|]. split; [congruence|]. split; [congruence|].
  split; [rewrite Hw1, Hw; reflexivity|].
  unfold auto_scan_try. rewrite Hdir. cbn [negb].
  destruct (Nat.ltb_spec (length files) 2) as [Hlt|_]; [lia|].
  rewrite (bind_done _ _ _ _ _ E0).
  unfold bind at 1. rewrite compare_phase_start.
  rewrite (pair_loop_flat sigint t total files Htot _ _ HK). reflexivity.
Qed.

(** The checks fail: the scan does not start. *)
Lemma scan_not_started :
  isdir folder = false \/ length files < 2 ->
  exists s', auto_scan_folder sigint folder t s = Done [] s' /\
             results s' = [] /\ probes s' = [] /\ processed_images s' = ∅ /\
             report (console (sio s')) = report (console s).
Proof.
  intros Hno. unfold auto_scan_folder, auto_scan_try.
  destruct (isdir folder) eqn:Hdir; cbn [negb].
  - destruct Hno as [Hno|Hlt]; [discriminate|].
    destruct (Nat.ltb_spec (length files) 2) as [_|Hge]; [|lia].
    unfold bind, exec, ret. eexists. split; [reflexivity|].
    destruct (cleanup_spec (print NeedTwoImages (enter s))) as [(_ & Hc & Hr & _ & _ & Hb) Hw].
    rewrite Hr, Hb, Hc, Hw, report_print. cbn. rewrite app_nil_r. repeat split.
  - unfold bind, exec, ret. eexists. split; [reflexivity|].
    destruct (cleanup_spec (print (NoSuchFolder folder) (enter s))) as [(_ & Hc & Hr & _ & _ & Hb) Hw].
    rewrite Hr, Hb, Hc, Hw, report_print. cbn. rewrite app_nil_r. repeat split.
Qed.

(** The scan runs to completion: with the progress-bar library when no
    interrupt arrives during the pair loop, and in any case when there
    is no pair to visit. *)
Lemma scan_completes :
  isdir folder = true -> 2 <= length files ->
  (tqdm = true /\ forall k, sigint = Some k -> length (scan_order files) <= k) \/
  scan_order files = [] ->
  exists s',
    auto_scan_folder sigint folder t s
      = Done (sort_desc mr_score (flat_map (pair_matches t files) (scan_order files))) s' /\
    results s' = sort_desc mr_score (flat_map (pair_matches t files) (scan_order files)) /\
    cache_of files s' /\
    visited (probes s') = scan_order files /\
    Forall (probe_sound files) (probes s') /\
    current_pair s' = length (scan_order files) /\
    report (console (sio s')) =
      report (console s) ++ (if tqdm then [PairBarOpen total] else []) ++
      Summary (length (flat_map (pair_matches t files) (scan_order files))) ::
      rows_of (take 20 (sort_desc mr_score
                          (flat_map (pair_matches t files) (scan_order files)))).
Proof.
  intros Hdir Hlen Hrun.
  assert (Htot : total <> 0) by (apply comb_2_pos; exact Hlen).
  destruct (scan_setup Hdir Hlen) as (s1 & HK & Hr1 & Hp1 & Hb1 & Hw1 & E).
  assert (Hloop : exists s2,
    for_each (scan_order files) (visit_at sigint t total files) s1 = Done tt s2 /\
    pairs_effect t files (scan_order files) s1 s2 /\
    scanning files (processed_images s1) s2).
  { destruct Hrun as [[Ht Hq]|Hnil].
    - apply run_complete; try assumption; [apply scan_order_valid|].
      intros k Hk. right. rewrite Hp1. apply Hq, Hk.
    - rewrite Hnil. exists s1. split; [reflexivity|].
      split; [apply pairs_effect_nil | exact HK]. }
  destruct Hloop as (s2 & E2 & (Hc2 & Hh2 & Hr2 & Hp2 & _ & Hw2 & pr & Hb2 & Hv2 & Hs2) & HK2).
  destruct (finish_spec s2) as (s3 & E3 & Hr3 & Hc3 & Hh3 & Hb3 & Hp3 & Hw3).
  destruct (cleanup_spec s3) as [(Hh4 & Hc4 & Hr4 & Hp4 & _ & Hb4) Hw4].
  rewrite Hr1 in Hr2. rewrite Hb1 in Hb2. cbn [app] in Hr2, Hb2.
  exists (cleanup s3). unfold auto_scan_folder. rewrite E.
  rewrite (bind_done _ _ _ _ _ E2), E3, Hr2. split; [reflexivity|].
  split; [|split; [|split; [|split; [|split]]]].
  - rewrite Hr4, Hr3, Hr2. reflexivity.
  - destruct HK2 as (_ & Hcache & _).
    apply (cache_of_extend files s2); [exact Hcache | congruence |].
    exists []. rewrite app_nil_r. congruence.
  - rewrite Hb4, Hb3, Hb2. exact Hv2.
  - rewrite Hb4, Hb3, Hb2. exact Hs2.
  - rewrite Hp4, Hp3, Hp2, Hp1. reflexivity.
  - rewrite Hw4, Hw3, Hw2, Hw1, Hr2, <- app_assoc. reflexivity.
Qed.

(** With the progress-bar library, an interrupt during the pair loop
    makes the call return the empty list; the results collected from the
    pairs processed so far stay behind in the local [results]. *)
Lemma scan_interrupted (k : nat) :
  isdir folder = true -> 2 <= length files -> tqdm = true ->
  sigint = Some k -> k < length (scan_order files) ->
  exists s0 s',
    auto_scan_try sigint folder t (enter s) = Raised KeyboardInterrupt s0 /\
    results s0 = flat_map (pair_matches t files) (take k (scan_order files)) /\
    auto_scan_folder sigint folder t s = Done [] s' /\
    results s' = results s0 /\
    cache_of files s' /\
    visited (probes s') = take k (scan_order files) /\
    Forall (probe_sound files) (probes s').
Proof.
  intros Hdir Hlen Ht Hs Hk.
  assert (Htot : total <> 0) by (apply comb_2_pos; exact Hlen).
  destruct (scan_setup Hdir Hlen) as (s1 & HK & Hr1 & Hp1 & Hb1 & Hw1 & E).
  destruct (run_interrupted sigint t total files Htot (processed_images s1)
              (scan_order files) s1 k Ht HK (scan_order_valid files)
              ltac:(rewrite Hp1; exact Hs) Hk)
    as (s2 & E2 & (Hc2 & Hh2 & Hr2 & Hp2 & _ & Hw2 & pr & Hb2 & Hv2 & Hs2)).
  rewrite Hr1 in Hr2. rewrite Hb1 in Hb2. cbn [app] in Hr2, Hb2.
  destruct (cleanup_spec (print Interrupted s2)) as [(Hh4 & Hc4 & Hr4 & Hp4 & _ & Hb4) Hw4].
  exists s2, (cleanup (print Interrupted s2)).
  unfold auto_scan_folder. rewrite E, (bind_raised _ _ _ _ _ E2).
  split; [reflexivity|]. split; [exact Hr2|]. split; [reflexivity|].
  split; [exact Hr4|]. split; [|split].
  - destruct HK as (_ & Hcache & _).
    apply (cache_of_extend files s1); [exact Hcache | rewrite Hc4; exact Hc2 |].
    destruct Hh2 as [h Hh2]. exists h. rewrite Hh4. exact Hh2.
  - rewrite Hb4. cbn [print probes]. rewrite Hb2. exact Hv2.
  - rewrite Hb4. cbn [print probes]. rewrite Hb2. exact Hs2.
Qed.

(** The interrupted call prints neither the count of matches nor a row
    of the table. *)
Lemma scan_interrupted_report (k : nat) :
  isdir folder = true -> 2 <= length files -> tqdm = true ->
  sigint = Some k -> k < length (scan_order files) ->
  report (console (sio (final_state (auto_scan_folder sigint folder t s))))
  = report (console s) ++ [PairBarOpen total].
Proof.
  intros Hdir Hlen Ht Hs Hk.
  assert (Htot : total <> 0) by (apply comb_2_pos; exact Hlen).
  destruct (scan_setup Hdir Hlen) as (s1 & HK & Hr1 & Hp1 & Hb1 & Hw1 & E).
  destruct (run_interrupted sigint t total files Htot (processed_images s1)
              (scan_order files) s1 k Ht HK (scan_order_valid files)
              ltac:(rewrite Hp1; exact Hs) Hk)
    as (s2 & E2 & (Hc2 & Hh2 & Hr2 & Hp2 & _ & Hw2 & pr & Hb2 & Hv2 & Hs2)).
  destruct (cleanup_spec (print Interrupted s2)) as [_ Hw4].
  unfold auto_scan_folder. rewrite E, (bind_raised _ _ _ _ _ E2). cbn [final_state].
  rewrite Hw4, report_print, Hw2, Hw1, Ht. cbn [report omap]. apply app_nil_r.
Qed.

(** Without the progress-bar library, as soon as there is a pair to
    visit the call ends in its first pass: with the empty list when the
    interrupt is already there, with [UnboundLocalError] otherwise. *)
Lemma scan_plain (p : nat * nat) (ps : list (nat * nat)) :
  isdir folder = true -> 2 <= length files -> tqdm = false ->
  scan_order files = p :: ps ->
  (sigint = Some 0 /\
   exists s', auto_scan_folder sigint folder t s = Done [] s' /\
              results s' = [] /\ cache_of files s' /\ probes s' = []) \/
  (sigint <> Some 0 /\
   exists s', auto_scan_folder sigint folder t s = Raised (UnboundLocalError "progress") s' /\
              results s' = pair_matches t files p /\
              cache_of files s' /\
              visited (probes s') = [p] /\
              Forall (probe_sound files) (probes s')).
Proof.
  intros Hdir Hlen Ht Hps.
  assert (Htot : total <> 0) by (apply comb_2_pos; exact Hlen).
  destruct (scan_setup Hdir Hlen) as (s1 & HK & Hr1 & Hp1 & Hb1 & Hw1 & E).
  pose proof (scan_order_valid files) as Hv. rewrite Hps in Hv.
  unfold auto_scan_folder. rewrite E, Hps.
  destruct (run_plain sigint t total files Htot (processed_images s1) p ps s1 Ht HK Hv)
    as [[Hf E2]|[Hf (s2 & E2 & (Hc2 & Hh2 & Hr2 & Hp2 & _ & Hw2 & pr & Hb2 & Hv2 & Hs2))]].
  - left. split.
    + unfold fires in Hf. rewrite Hp1 in Hf. destruct sigint as [k|]; [|discriminate].
      apply Nat.eqb_eq in Hf. congruence.
    + rewrite (bind_raised _ _ _ _ _ E2).
      destruct (cleanup_spec (print Interrupted s1)) as [(Hh4 & Hc4 & Hr4 & Hp4 & _ & Hb4) Hw4].
      eexists. split; [reflexivity|]. rewrite Hr4, Hb4. cbn [print results probes].
      split; [exact Hr1|]. split; [|exact Hb1].
      destruct HK as (_ & Hcache & _).
      apply (cache_of_extend files s1); [exact Hcache | exact Hc4 |].
      exists []. rewrite app_nil_r. exact Hh4.
  - right. split.
    + unfold fires in Hf. rewrite Hp1 in Hf. intros Hs. rewrite Hs in Hf. discriminate.
    + rewrite (bind_raised _ _ _ _ _ E2).
      destruct (cleanup_spec s2) as [(Hh4 & Hc4 & Hr4 & Hp4 & _ & Hb4) Hw4].
      rewrite Hr1 in Hr2. rewrite Hb1 in Hb2. cbn [app flat_map] in Hr2, Hb2.
      rewrite app_nil_r in Hr2.
      eexists. split; [reflexivity|]. rewrite Hr4, Hb4, Hb2.
      split; [exact Hr2|]. split; [|split; assumption].
      destruct HK as (_ & Hcache & _).
      apply (cache_of_extend files s1); [exact Hcache | congruence |].
      destruct Hh2 as [h Hh2]. exists h. rewrite Hh4. exact Hh2.
Qed.

End ScanFacts.

(** ** The base-vs-folder mode *)

Section FolderFacts.
Context `{W : World}.
Variables (base folder : string) (t : Q).

Lemma folder_lines_emit (e : event) (s : io) :
  folder_lines (console (emit e s)) = folder_lines (console s) ++ folder_lines [e].
Proof. unfold folder_lines. cbn [emit console]. apply omap_app. Qed.

Lemma folder_loop_spec (a : ndarray) (entries : list string)
    (acc : list folder_result) (s : io) :
  exists s',
    fold_left (folder_entry base folder t a) entries (acc, s)
      = (acc ++ folder_kept base folder t a entries, s') /\
    folder_lines (console s') =
      folder_lines (console s) ++ folder_kept base folder t a entries.
Proof.
  revert acc s. induction entries as [|f entries IH]; intros acc s.
  - exists s. cbn. rewrite !app_nil_r. split; reflexivity.
  - cbn [fold_left folder_kept flat_map]. fold (folder_kept base folder t a entries).
    unfold folder_entry at 2. cbn [fst snd].
    destruct (String.eqb (abspath (path_join folder f)) (abspath base)).
    + apply IH.
    + rewrite load_image_value.
      pose proof (load_image_folder_lines (path_join folder f) false s) as Hl.
      destruct (folder_score a (load_value (path_join folder f))) as [q|e].
      * destruct (Qle_bool t q).
        -- destruct (IH (acc ++ [(f, q)])
                        (emit (FolderLine f q) (snd (load_image (path_join folder f) false s))))
             as (s' & E & Hw).
           exists s'. rewrite E, Hw, folder_lines_emit, Hl, <- !app_assoc.
           split; reflexivity.
        -- destruct (IH acc (snd (load_image (path_join folder f) false s))) as (s' & E & Hw).
           exists s'. rewrite E, Hw, Hl. split; reflexivity.
      * destruct (IH acc (snd (load_image (path_join folder f) false s))) as (s' & E & Hw).
        exists s'. rewrite E, Hw, Hl. split; reflexivity.
Qed.


Lemma emit_lines_console (l : list folder_result) (s : io) :
  console (fold_left (fun s' r => emit (FolderLine (fst r) (snd r)) s') l s)
  = console s ++ map (fun r => FolderLine (fst r) (snd r)) l.
Proof.
  revert s. induction l as [|r l IH]; intros s; cbn [fold_left map].
  - symmetry. apply app_nil_r.
  - rewrite IH. cbn [emit console]. rewrite <- app_assoc. reflexivity.
Qed.

Lemma folder_report_console (kept : list folder_result) (s : io) :
  console (folder_report kept s) = console s ++ folder_final kept.
Proof.
  destruct kept as [|r kept]; [reflexivity|].
  unfold folder_report, folder_final. rewrite emit_lines_console.
  cbn [emit console]. rewrite <- app_assoc. reflexivity.
Qed.

(** When the base image normalizes and the folder can be listed, the
    call completes: the loop prints the kept lines as it finds them, and
    the report prints them sorted. *)
Lemma compare_image_with_folder_spec (a : ndarray) (entries : list string) (s : io) :
  normalized base = Ok a -> os_listdir folder = Ok entries ->
  exists s1,
    compare_image_with_folder base folder t s
      = (Ok tt, folder_report (folder_kept base folder t a entries) s1) /\
    folder_lines (console s1) =
      folder_lines (console s) ++ folder_kept base folder t a entries.
Proof.
  intros Ha He. unfold compare_image_with_folder. rewrite load_image_value.
  unfold normalized in Ha. rewrite Ha, He.
  destruct (folder_loop_spec a entries [] (snd (load_image base false s)))
    as (s1 & E & Hw).
  exists s1. rewrite E. cbn [fst snd app]. split; [reflexivity|].
  rewrite Hw, load_image_folder_lines. reflexivity.
Qed.


(** When the folder cannot be listed the call raises once the base image
    is loaded and normalized, and nothing more is written. *)
Lemma compare_image_with_folder_missing (a : ndarray) (e : string) (s : io) :
  normalized base = Ok a -> os_listdir folder = Err e ->
  compare_image_with_folder base folder t s = (Err e, snd (load_image base false s)).
Proof.
  intros Ha He. unfold compare_image_with_folder. rewrite load_image_value.
  unfold normalized in Ha. rewrite Ha, He. reflexivity.
Qed.

(** The score the [try] block computes for a file is the metric of the
    base and the file's normalized, reconciled image, times 100. *)
Lemma folder_score_scored (a : ndarray) (p : string) (q : Q) :
  folder_score a (load_value p) = Ok q <-> scored_against a p q.
Proof.
  unfold folder_score, scored_against, load_value, preprocess_image, default_size,
    reconcile_shape, resize_like, compare_images.
  split.
  - destruct (read_file (abspath p)) as [b|e] eqn:E1; [|discriminate].
    destruct (cv2_imdecode b) as [[image|]|e] eqn:E2; [|discriminate|discriminate].
    destruct (cv2_resize image (300, 300)) as [resized|e] eqn:E3; [|discriminate].
    destruct (cv2_cvtColor resized) as [gray|e] eqn:E4; [|discriminate].
    destruct (bool_decide (shape a = shape gray)) eqn:Eb.
    + destruct (ssim a gray) as [score|e] eqn:Es; [|discriminate].
      intros Hq. injection Hq as <-.
      exists b, image, resized, gray, gray, score. rewrite Eb.
      repeat split; assumption || reflexivity.
    + destruct (shape a !! 1) as [width|] eqn:Ew; [|discriminate].
      destruct (shape a !! 0) as [height|] eqn:Eh; [|discriminate].
      destruct (cv2_resize gray (width, height)) as [img2|e] eqn:Er; [|discriminate].
      destruct (ssim a img2) as [score|e] eqn:Es; [|discriminate].
      intros Hq. injection Hq as <-.
      exists b, image, resized, gray, img2, score. rewrite Eb.
      repeat split; try (assumption || reflexivity).
      exists width, height. repeat split; assumption || reflexivity.
  - intros (b & image & resized & gray & img2 & score & -> & -> & -> & -> & Hr & Hs & ->).
    destruct (bool_decide (shape a = shape gray)).
    + subst img2. rewrite Hs. reflexivity.
    + destruct Hr as (width & height & -> & -> & ->). rewrite Hs. reflexivity.
Qed.

Lemma in_folder_kept (a : ndarray) (entries : list string) (f : string) (q : Q) :
  In (f, q) (folder_kept base folder t a entries) <->
  In f entries /\ abspath (path_join folder f) <> abspath base /\
  scored_against a (path_join folder f) q /\ (t <= q)%Q.
Proof.
  rewrite <- folder_score_scored.
  unfold folder_kept. rewrite in_flat_map. split.
  - intros (f' & Hin & Hk).
    destruct (String.eqb_spec (abspath (path_join folder f')) (abspath base)) as [|Hne];
      [destruct Hk|].
    destruct (folder_score a (load_value (path_join folder f'))) as [q'|e] eqn:Es;
      [|destruct Hk].
    destruct (Qle_bool t q') eqn:Eq; [|destruct Hk].
    destruct Hk as [Hk|[]]. injection Hk as -> ->.
    apply Qle_bool_iff in Eq. repeat split; assumption.
  - intros (Hin & Hne & Es & Hq). exists f. split; [exact Hin|].
    destruct (String.eqb_spec (abspath (path_join folder f)) (abspath base)) as [|_];
      [contradiction|].
    rewrite Es. apply Qle_bool_iff in Hq. rewrite Hq. left. reflexivity.
Qed.

End FolderFacts.

(** * The claims *)

Section SizeFacts.
Context `{W : World}.

Lemma cached_positions_count (files l : list string) (a : nat) :
(forall i, i < length l -> files !! (a + i) = l !! i) ->
length (List.filter (normalizes files) (seq a (length l)))
= length (List.filter (fun p => is_ok (normalized p)) l).
Proof.
revert a. induction l as [|x l IH]; intros a Hl; [reflexivity|].
cbn [length seq List.filter]. unfold normalizes at 1.
pose proof (Hl 0 ltac:(cbn; lia)) as H0. rewrite Nat.add_0_r in H0. rewrite H0.
cbn [lookup list_lookup].
assert (IH' : length (List.filter (normalizes files) (seq (S a) (length l)))
              = length (List.filter (fun p => is_ok (normalized p)) l)).
{ apply IH. intros i Hi. specialize (Hl (S i) ltac:(cbn; lia)).
  transitivity (files !! (a + S i)); [f_equal; lia | exact Hl]. }
destruct (is_ok (normalized x)); cbn [length]; rewrite IH'; reflexivity.
Qed.

(** Among distinct files, the cache has one entry per position that
  normalizes. *)
Lemma cache_size (files : list string) (s : scan_state) :
cache_of files s -> NoDup files ->
size (processed_images s) = length (cached_positions files).
Proof.
intros Hc Hnd. unfold cached_positions.
rewrite (cached_positions_count files files 0) by (intros i _; reflexivity).
rewrite <- size_dom.
assert (E : dom (processed_images s)
            = list_to_set (List.filter (fun p => is_ok (normalized p)) files)).
{ apply set_eq. intros p. rewrite elem_of_dom, elem_of_list_to_set, list_elem_of_In, filter_In.
  specialize (Hc p). destruct (processed_images s !! p) as [r|].
  - destruct Hc as (Hin & a & _ & Hn). rewrite Hn. split; [|eauto].
    intros _. split; [apply list_elem_of_In; exact Hin | reflexivity].
  - split; [intros [? ?]; discriminate|]. intros [Hin Hok].
    rewrite Hc in Hok by (apply list_elem_of_In; exact Hin). discriminate. }
rewrite E. apply size_list_to_set.
apply NoDup_ListNoDup, List.NoDup_filter, NoDup_ListNoDup, Hnd.
Qed.

Lemma normalizes_cached (files : list string) (s : scan_state) (i : nat) :
cache_of files s ->
normalizes files i = true <->
exists p, files !! i = Some p /\ is_Some (processed_images s !! p).
Proof.
intros Hc. unfold normalizes. destruct (files !! i) as [p|] eqn:Ei.
- specialize (Hc p). destruct (processed_images s !! p) as [r|] eqn:Er.
  + destruct Hc as (_ & a & _ & ->). split; [|reflexivity]. intros _. exists p.
    rewrite Er. eauto.
  + rewrite Hc by (eapply list_elem_of_lookup_2; exact Ei).
    split; [discriminate|]. intros (p' & Hp' & [r Hr]).
    injection Hp' as <-. rewrite Er in Hr. discriminate.
- split; [discriminate|]. intros (p & Hp & _). discriminate.
Qed.

End SizeFacts.

(** C1 (amended).  With the progress-bar library and no interrupt,
    [auto_scan_folder] visits the index pairs (i, j), i < j, of cached
    images, each exactly once and in the order of the double loop: C(n,2)
    visits for the n cached images.  The total used for progress reporting
    is computed up front as C(N,2) for the number N of candidate files,
    which is at least C(n,2). *)
Theorem scan_visits_cached_pairs_once `{W : World} (folder : string) (t : Q) (s : io) :
  tqdm = true -> isdir folder = true -> 2 <= length (image_files folder) ->
  NoDup (image_files folder) ->
  exists r s',
    auto_scan_folder None folder t s = Done r s' /\
    visited (probes s') = ordered_pairs (cached_positions (image_files folder)) /\
    NoDup (visited (probes s')) /\
    (forall i j, In (i, j) (visited (probes s')) <->
       i < j /\
       exists p1 p2, image_files folder !! i = Some p1 /\ image_files folder !! j = Some p2 /\
                     is_Some (processed_images s' !! p1) /\
                     is_Some (processed_images s' !! p2)) /\
    length (visited (probes s')) = comb (size (processed_images s')) 2 /\
    (exists rest, report (console (sio s'))
                  = report (console s) ++
                    PairBarOpen (comb (length (image_files folder)) 2) :: rest) /\
    comb (size (processed_images s')) 2 <= comb (length (image_files folder)) 2.
Proof.
  intros Ht Hdir Hlen Hnd.
  destruct (scan_completes None folder t s Hdir Hlen) as (s' & E & _ & Hc & Hv & _ & _ & Hw).
  { left. split; [exact Ht|]. intros k Hk. discriminate. }
  pose proof (cache_size _ _ Hc Hnd) as Hsize.
  eexists _, s'. split; [exact E|]. split; [exact Hv|].
  split; [rewrite Hv; apply scan_order_NoDup|]. split; [|split; [|split]].
  - intros i j. rewrite Hv, in_scan_order, !(normalizes_cached _ s' _ Hc). split.
    + intros (Hij & Hj & (p1 & Hp1 & Hc1) & (p2 & Hp2 & Hc2)).
      split; [exact Hij|]. exists p1, p2. repeat split; assumption.
    + intros (Hij & p1 & p2 & Hp1 & Hp2 & Hc1 & Hc2).
      split; [exact Hij|]. split; [eapply lookup_lt_Some; exact Hp2|].
      split; [exists p1 | exists p2]; split; assumption.
  - rewrite Hv, scan_order_length, Hsize. reflexivity.
  - rewrite Hw, Ht. eexists. reflexivity.
  - rewrite Hsize. apply comb_2_mono, cached_positions_length.
Qed.

Lemma scan_visits_cached_pairs_once_witness :
  exists r s',
    auto_scan_folder (W := Toy.world true) None "pics" 80 Toy.fresh = Done r s' /\
    visited (probes s')
      = ordered_pairs (cached_positions (W := Toy.world true)
                         (image_files (W := Toy.world true) "pics")) /\
    NoDup (visited (probes s')) /\
    (forall i j, In (i, j) (visited (probes s')) <->
       i < j /\
       exists p1 p2, image_files (W := Toy.world true) "pics" !! i = Some p1 /\
                     image_files (W := Toy.world true) "pics" !! j = Some p2 /\
                     is_Some (processed_images s' !! p1) /\
                     is_Some (processed_images s' !! p2)) /\
    length (visited (probes s')) = comb (size (processed_images s')) 2 /\
    (exists rest, report (console (sio s'))
                  = report (console Toy.fresh) ++
                    PairBarOpen (comb (length (image_files (W := Toy.world true) "pics")) 2)
                    :: rest) /\
    comb (size (processed_images s')) 2
    <= comb (length (image_files (W := Toy.world true) "pics")) 2.
Proof.
  apply (scan_visits_cached_pairs_once (W := Toy.world true) "pics" 80 Toy.fresh).
  - reflexivity.
  - reflexivity.
  - vm_compute. lia.
  - apply (bool_decide_unpack _). vm_compute. exact I.
Defined.

(** C1 (as stated) fails: of four candidate files three are cached, and the
    total of the progress report is C(4,2) = 6, not C(3,2) = 3. *)
Lemma total_counts_cached_pairs_counterexample :
  ~ total_counts_cached_pairs (W := Toy.world true) "pics" 80 Toy.fresh.
Proof.
  intros H.
  assert (Hsz : size (processed_images (final_state
            (auto_scan_folder (W := Toy.world true) None "pics" 80 Toy.fresh))) = 3)
    by (vm_compute; reflexivity).
  assert (Hrep : report (console (sio (final_state
            (auto_scan_folder (W := Toy.world true) None "pics" 80 Toy.fresh))))
          = [PairBarOpen 6; Summary 1; Row 1 ("a.png", "b.PNG", 100%Q)])
    by (vm_compute; reflexivity).
  assert (Hret : raised (auto_scan_folder (W := Toy.world true) None "pics" 80 Toy.fresh) = None)
    by (vm_compute; reflexivity).
  destruct (auto_scan_folder (W := Toy.world true) None "pics" 80 Toy.fresh) as [r s'|e s'] eqn:E;
    [|discriminate Hret].
  cbn [final_state] in Hsz, Hrep.
  specialize (H r s' 6 E). rewrite Hsz, Hrep in H.
  specialize (H ltac:(lia) ltac:(left; reflexivity)). vm_compute in H. discriminate H.
Qed.

(** C2 (amended).  When the operator's interrupt arrives in the pair loop,
    [auto_scan_folder] does not raise: the handler prints that the scan
    was interrupted and the call returns the empty list, whatever has been
    collected.  With the progress-bar library, an interrupt after k pairs
    arrives as [KeyboardInterrupt] with the matches of those k pairs in
    the local [results]; the call prints the interruption message, then
    the clean-up of the [finally] clause, prints neither the count of
    matches nor the table, and returns the empty list. *)
Theorem interrupt_returns_empty_list `{W : World} (folder : string) (t : Q) (s : io) (k : nat) :
  (forall sigint s0,
     auto_scan_try sigint folder t (enter s) = Raised KeyboardInterrupt s0 ->
     exists s', auto_scan_folder sigint folder t s = Done [] s' /\
                results s' = results s0 /\
                console (sio s')
                = console (sio s0) ++
                  Interrupted :: WindowTitle TitleDone :: (if tqdm then [] else [ClearLine])) /\
  (isdir folder = true -> 2 <= length (image_files folder) -> tqdm = true ->
   k < length (scan_order (image_files folder)) ->
   exists s0 s',
     auto_scan_try (Some k) folder t (enter s) = Raised KeyboardInterrupt s0 /\
     results s0 = flat_map (pair_matches t (image_files folder))
                           (take k (scan_order (image_files folder))) /\
     auto_scan_folder (Some k) folder t s = Done [] s' /\
     visited (probes s') = take k (scan_order (image_files folder)) /\
     console (sio s') = console (sio s0) ++ [Interrupted; WindowTitle TitleDone] /\
     report (console (sio s'))
     = report (console s) ++ [PairBarOpen (comb (length (image_files folder)) 2)]).
Proof.
  assert (Hhandler : forall sigint s0,
     auto_scan_try sigint folder t (enter s) = Raised KeyboardInterrupt s0 ->
     exists s', auto_scan_folder sigint folder t s = Done [] s' /\
                results s' = results s0 /\
                console (sio s')
                = console (sio s0) ++
                  Interrupted :: WindowTitle TitleDone :: (if tqdm then [] else [ClearLine])).
  { intros sigint s0 E. unfold auto_scan_folder. rewrite E.
    exists (cleanup (print Interrupted s0)). split; [reflexivity|].
    destruct (cleanup_spec (print Interrupted s0)) as [(_ & _ & Hr & _) _].
    split; [exact Hr|].
    rewrite cleanup_console. cbn [print sio emit console].
    rewrite <- app_assoc. reflexivity. }
  split; [exact Hhandler|]. intros Hdir Hlen Ht Hk.
  destruct (scan_interrupted (Some k) folder t s k Hdir Hlen Ht eq_refl Hk)
    as (s0 & s' & E0 & Hr0 & E & _ & _ & Hv & _).
  pose proof (scan_interrupted_report (Some k) folder t s k Hdir Hlen Ht eq_refl Hk) as Hrep.
  destruct (Hhandler (Some k) s0 E0) as (s'' & E' & _ & Hcon).
  rewrite E in E'. injection E' as <-.
  rewrite E in Hrep. cbn [final_state] in Hrep. rewrite Ht in Hcon.
  exists s0, s'. repeat split; assumption.
Qed.

Lemma interrupt_returns_empty_list_witness :
  (forall sigint s0,
     auto_scan_try (W := Toy.world true) sigint "pics" 80 (enter Toy.fresh)
       = Raised KeyboardInterrupt s0 ->
     exists s', auto_scan_folder (W := Toy.world true) sigint "pics" 80 Toy.fresh = Done [] s' /\
                results s' = results s0 /\
                console (sio s')
                = console (sio s0) ++
                  Interrupted :: WindowTitle TitleDone ::
                  (if tqdm (World := Toy.world true) then [] else [ClearLine])) /\
  exists s0 s',
    auto_scan_try (W := Toy.world true) (Some 1) "pics" 80 (enter Toy.fresh)
      = Raised KeyboardInterrupt s0 /\
    results s0 = flat_map (pair_matches (W := Toy.world true) 80
                             (image_files (W := Toy.world true) "pics"))
                          (take 1 (scan_order (W := Toy.world true)
                                     (image_files (W := Toy.world true) "pics"))) /\
    auto_scan_folder (W := Toy.world true) (Some 1) "pics" 80 Toy.fresh = Done [] s' /\
    visited (probes s') = take 1 (scan_order (W := Toy.world true)
                                    (image_files (W := Toy.world true) "pics")) /\
    console (sio s') = console (sio s0) ++ [Interrupted; WindowTitle TitleDone] /\
    report (console (sio s'))
    = report (console Toy.fresh)
      ++ [PairBarOpen (comb (length (image_files (W := Toy.world true) "pics")) 2)].
Proof.
  destruct (interrupt_returns_empty_list (W := Toy.world true) "pics" 80 Toy.fresh 1)
    as [Hhandler Hscan].
  split; [exact Hhandler|]. apply Hscan.
  - reflexivity.
  - vm_compute. lia.
  - reflexivity.
  - vm_compute. lia.
Defined.

(** Interrupted after one pair, the small scan has printed the opening
    of the pair bar and its first update, then the interruption message
    and the clean-up; the match of a.png and b.PNG is not reported. *)
Example toy_interrupted_console :
  omap (fun e => match e with
                 | PairBarOpen _ | PairBarUpdate _ _ _ | Summary _ | Row _ _
                 | Interrupted | WindowTitle TitleDone => Some e
                 | _ => None
                 end)
       (console (sio (final_state
          (auto_scan_folder (W := Toy.world true) (Some 1) "pics" 80 Toy.fresh))))
  = [PairBarOpen 6; PairBarUpdate "a.png" "b.PNG" 100; Interrupted; WindowTitle TitleDone].
Proof. vm_compute. reflexivity. Qed.

(** C2 (as stated) fails: interrupted after one pair, the scan has
    collected the match of a.png and b.PNG and returns the empty list. *)
Lemma cancel_returns_partial_results_counterexample :
  ~ cancel_returns_partial_results (W := Toy.world true) (Some 1) "pics" 80 Toy.fresh.
Proof.
  intros H.
  assert (Hraised : raised (auto_scan_try (W := Toy.world true) (Some 1) "pics" 80
                              (enter Toy.fresh)) = Some KeyboardInterrupt)
    by (vm_compute; reflexivity).
  assert (Hres : results (final_state (auto_scan_try (W := Toy.world true) (Some 1) "pics" 80
                              (enter Toy.fresh))) = [("a.png", "b.PNG", 100%Q)])
    by (vm_compute; reflexivity).
  assert (Hret : returned (auto_scan_folder (W := Toy.world true) (Some 1) "pics" 80 Toy.fresh)
                 = Some [])
    by (vm_compute; reflexivity).
  destruct (auto_scan_try (W := Toy.world true) (Some 1) "pics" 80 (enter Toy.fresh))
    as [r s0|e s0] eqn:E; [discriminate Hraised|].
  cbn [raised final_state] in Hraised, Hres. injection Hraised as ->.
  specialize (H s0 E). rewrite Hret, Hres in H. discriminate H.
Qed.

(** C3 (the code at the failing input).  Without the progress-bar library,
    on a folder with three cached images, the scan ends in the pass for its
    first pair with [UnboundLocalError], which leaves [auto_scan_folder]. *)
Theorem plain_scan_raises_unbound_local :
  raised (auto_scan_folder (W := Toy.world false) None "pics" 80 Toy.fresh)
    = Some (UnboundLocalError "progress") /\
  visited (probes (final_state
     (auto_scan_folder (W := Toy.world false) None "pics" 80 Toy.fresh))) = [(0, 1)] /\
  scan_order (W := Toy.world false) (image_files (W := Toy.world false) "pics")
    = [(0, 1); (0, 2); (1, 2)].
Proof. repeat split; vm_compute; reflexivity. Qed.

(** ** How a started scan ends *)

Section EndingFacts.
Context `{W : World}.
Variable sigint : option nat.
Variables (folder : string) (t : Q) (s : io).
Hypothesis Hdir : isdir folder = true.
Hypothesis Hlen : 2 <= length (image_files folder).


(** What holds of the state a started scan leaves, however it ends: the
  cache is that of the files, the passes made are a prefix of
  [scan_order], and the collected results are the matches of those
  passes. *)
Lemma scan_final_facts :
exists n,
  cache_of (image_files folder) (final_state (auto_scan_folder sigint folder t s)) /\
  visited (probes (final_state (auto_scan_folder sigint folder t s)))
    = take n (scan_order (image_files folder)) /\
  Forall (probe_sound (image_files folder))
         (probes (final_state (auto_scan_folder sigint folder t s))) /\
  Permutation (results (final_state (auto_scan_folder sigint folder t s)))
              (flat_map (pair_matches t (image_files folder))
                        (take n (scan_order (image_files folder)))) /\
  match auto_scan_folder sigint folder t s with
  | Done r s' => r = [] \/ r = results s'
  | Raised e _ => tqdm = false /\ e = UnboundLocalError "progress"
  end.
Proof.
assert (Hfull : forall s', 
  auto_scan_folder sigint folder t s
    = Done (sort_desc mr_score (flat_map (pair_matches t (image_files folder))
                                         (scan_order (image_files folder)))) s' /\
  results s' = sort_desc mr_score (flat_map (pair_matches t (image_files folder))
                                            (scan_order (image_files folder))) /\
  cache_of (image_files folder) s' /\
  visited (probes s') = scan_order (image_files folder) /\
  Forall (probe_sound (image_files folder)) (probes s') ->
  exists n,
  cache_of (image_files folder) (final_state (auto_scan_folder sigint folder t s)) /\
  visited (probes (final_state (auto_scan_folder sigint folder t s)))
    = take n (scan_order (image_files folder)) /\
  Forall (probe_sound (image_files folder))
         (probes (final_state (auto_scan_folder sigint folder t s))) /\
  Permutation (results (final_state (auto_scan_folder sigint folder t s)))
              (flat_map (pair_matches t (image_files folder))
                        (take n (scan_order (image_files folder)))) /\
  match auto_scan_folder sigint folder t s with
  | Done r s' => r = [] \/ r = results s'
  | Raised e _ => tqdm = false /\ e = UnboundLocalError "progress"
  end).
{ intros s' (E & Hr & Hc & Hv & Hs). exists (length (scan_order (image_files folder))).
  rewrite E. cbn [final_state]. rewrite firstn_all.
  split; [exact Hc|]. split; [exact Hv|]. split; [exact Hs|]. split.
  - rewrite Hr. symmetry. apply sort_desc_perm.
  - right. symmetry. exact Hr. }
destruct tqdm eqn:Ht.
- destruct sigint as [k|] eqn:Es.
  + destruct (Nat.ltb_spec k (length (scan_order (image_files folder)))) as [Hk|Hk].
    * destruct (scan_interrupted (Some k) folder t s k Hdir Hlen Ht eq_refl Hk)
        as (s0 & s' & _ & Hr0 & E & Hr & Hc & Hv & Hs).
      exists k. rewrite E. cbn [final_state].
      split; [exact Hc|]. split; [exact Hv|]. split; [exact Hs|]. split.
      -- rewrite Hr, Hr0. reflexivity.
      -- left. reflexivity.
    * destruct (scan_completes (Some k) folder t s Hdir Hlen)
        as (s' & E & Hr & Hc & Hv & Hs & _).
      { left. split; [exact Ht|]. intros k' Hk'. injection Hk' as <-. exact Hk. }
      apply (Hfull s'). repeat split; assumption.
  + destruct (scan_completes None folder t s Hdir Hlen)
      as (s' & E & Hr & Hc & Hv & Hs & _).
    { left. split; [exact Ht|]. intros k' Hk'. discriminate Hk'. }
    apply (Hfull s'). repeat split; assumption.
- destruct (scan_order (image_files folder)) as [|p ps] eqn:Eso.
  + destruct (scan_completes sigint folder t s Hdir Hlen)
      as (s' & E & Hr & Hc & Hv & Hs & _).
    { right. exact Eso. }
    rewrite Eso in *. apply (Hfull s'). repeat split; assumption.
  + destruct (scan_plain sigint folder t s p ps Hdir Hlen Ht Eso)
      as [[Hsig (s' & E & Hr & Hc & Hb)]|[Hsig (s' & E & Hr & Hc & Hv & Hs)]].
    * exists 0. rewrite E. cbn [final_state take flat_map]. rewrite Hr, Hb.
      split; [exact Hc|]. split; [reflexivity|]. split; [constructor|].
      split; [reflexivity | left; reflexivity].
    * exists 1. rewrite E. cbn [final_state take flat_map]. rewrite Hr, app_nil_r.
      split; [exact Hc|]. split; [exact Hv|]. split; [exact Hs|].
      split; [reflexivity | split; reflexivity].
Qed.

End EndingFacts.

(** ** Thresholds *)

Section ThresholdFacts.
Context `{W : World}.




Lemma scan_ending_completes (sigint : option nat) (files : list string) :
  scan_ending sigint files = Completes ->
  (tqdm = true /\ forall k, sigint = Some k -> length (scan_order files) <= k) \/
  scan_order files = [].
Proof.
  unfold scan_ending. destruct tqdm.
  - intros H. left. split; [reflexivity|]. intros k ->.
    destruct (Nat.ltb_spec k (length (scan_order files))); [discriminate | assumption].
  - intros H. right. destruct (scan_order files) as [|p ps]; [reflexivity|].
    destruct sigint as [[|k]|]; discriminate.
Qed.

End ThresholdFacts.



(** C5.  At scan completion the collected MatchResults, which stand in
    the order of the pair enumeration, are sorted by score descending by a
    stable sort; the whole sorted list is returned, and the rows printed
    are its first twenty entries. *)
Theorem results_sorted_stable_top20 `{W : World}
    (sigint : option nat) (folder : string) (t : Q) (s : io) :
  isdir folder = true -> 2 <= length (image_files folder) ->
  scan_ending sigint (image_files folder) = Completes ->
  (forall st, exists st',
     finish st = Done (sort_desc mr_score (results st)) st' /\
     report (console (sio st'))
     = report (console (sio st)) ++
       Summary (length (results st)) :: rows_of (take 20 (sort_desc mr_score (results st)))) /\
  (forall l : list match_result,
     Permutation l (sort_desc mr_score l) /\
     StronglySorted (desc mr_score) (sort_desc mr_score l) /\
     forall q, with_score mr_score q (sort_desc mr_score l) = with_score mr_score q l) /\
  exists s',
    auto_scan_folder sigint folder t s
    = Done (sort_desc mr_score
              (flat_map (pair_matches t (image_files folder))
                        (scan_order (image_files folder)))) s' /\
    report (console (sio s'))
    = report (console s) ++
      (if tqdm then [PairBarOpen (comb (length (image_files folder)) 2)] else []) ++
      Summary (length (flat_map (pair_matches t (image_files folder))
                                (scan_order (image_files folder)))) ::
      rows_of (take 20 (sort_desc mr_score
                          (flat_map (pair_matches t (image_files folder))
                                    (scan_order (image_files folder))))).
Proof.
  intros Hdir Hlen Hend. split; [|split].
  - intros st. destruct (finish_spec st) as (st' & E & _ & _ & _ & _ & _ & Hw).
    exists st'. split; assumption.
  - intros l. split; [apply sort_desc_perm|]. split; [apply sort_desc_sorted|].
    intros q. apply sort_desc_stable.
  - destruct (scan_completes sigint folder t s Hdir Hlen (scan_ending_completes _ _ Hend))
      as (s' & E & _ & _ & _ & _ & _ & Hw).
    exists s'. split; assumption.
Qed.

Lemma results_sorted_stable_top20_witness :
  (forall st, exists st',
     finish (W := Toy.world true) st = Done (sort_desc mr_score (results st)) st' /\
     report (console (sio st'))
     = report (console (sio st)) ++
       Summary (length (results st)) :: rows_of (take 20 (sort_desc mr_score (results st)))) /\
  (forall l : list match_result,
     Permutation l (sort_desc mr_score l) /\
     StronglySorted (desc mr_score) (sort_desc mr_score l) /\
     forall q, with_score mr_score q (sort_desc mr_score l) = with_score mr_score q l) /\
  exists s',
    auto_scan_folder (W := Toy.world true) None "pics" 0 Toy.fresh
    = Done (sort_desc mr_score
              (flat_map (pair_matches (W := Toy.world true) 0
                           (image_files (W := Toy.world true) "pics"))
                        (scan_order (W := Toy.world true)
                           (image_files (W := Toy.world true) "pics")))) s' /\
    report (console (sio s'))
    = report (console Toy.fresh) ++
      (if tqdm (World := Toy.world true)
       then [PairBarOpen (comb (length (image_files (W := Toy.world true) "pics")) 2)]
       else []) ++
      Summary (length (flat_map (pair_matches (W := Toy.world true) 0
                                   (image_files (W := Toy.world true) "pics"))
                                (scan_order (W := Toy.world true)
                                   (image_files (W := Toy.world true) "pics")))) ::
      rows_of (take 20 (sort_desc mr_score
                          (flat_map (pair_matches (W := Toy.world true) 0
                                       (image_files (W := Toy.world true) "pics"))
                                    (scan_order (W := Toy.world true)
                                       (image_files (W := Toy.world true) "pics"))))).
Proof.
  apply (results_sorted_stable_top20 (W := Toy.world true) None "pics" 0 Toy.fresh).
  - reflexivity.
  - vm_compute. lia.
  - vm_compute. reflexivity.
Defined.

(** With threshold 0 the three pairs of the folder all match; the pair of
    the two white pictures, enumerated first, comes first, and the two
    pairs of score 0 keep their order of enumeration. *)
Example toy_scan_sorted :
  returned (auto_scan_folder (W := Toy.world true) None "pics" 0 Toy.fresh)
  = Some [("a.png", "b.PNG", 100%Q); ("a.png", "c.jpg", 0%Q); ("b.PNG", "c.jpg", 0%Q)].
Proof. vm_compute. reflexivity. Qed.



(** The base c.jpg is left out of its own folder; a base lying elsewhere
    under the name a.png, with the content of pics/a.png, leaves nothing
    out.  The loop prints the kept lines as found, the report sorted. *)
Example toy_folder_base_inside :
  folder_lines (console (snd (compare_image_with_folder (W := Toy.world true)
                                "pics/c.jpg" "pics" 0 Toy.fresh)))
  = [("a.png", 0%Q); ("b.PNG", 0%Q); ("notes.txt", 0%Q);
     ("a.png", 0%Q); ("b.PNG", 0%Q); ("notes.txt", 0%Q)].
Proof. vm_compute. reflexivity. Qed.

Example toy_folder_base_elsewhere :
  folder_lines (console (snd (compare_image_with_folder (W := Toy.world true)
                                "elsewhere/a.png" "pics" 0 Toy.fresh)))
  = [("a.png", 100%Q); ("b.PNG", 100%Q); ("c.jpg", 0%Q); ("notes.txt", 100%Q);
     ("a.png", 100%Q); ("b.PNG", 100%Q); ("notes.txt", 100%Q); ("c.jpg", 0%Q)].
Proof. vm_compute. reflexivity. Qed.

(** A folder that does not exist: the base is loaded, [os.listdir]
    raises and the call writes nothing. *)
Example toy_folder_missing :
  compare_image_with_folder (W := Toy.world true) "pics/c.jpg" "nowhere" 0 Toy.fresh
  = (Err "FileNotFoundError: No such file or directory", Toy.fresh).
Proof. vm_compute. reflexivity. Qed.

(** ** Files that do not decode *)

Lemma in_take_in {X} (n : nat) (l : list X) (x : X) : In x (take n l) -> In x l.
Proof.
  revert l. induction n as [|n IH]; intros [|y l]; cbn; try tauto.
  intros [->|H]; [left; reflexivity | right; apply IH, H].
Qed.

Section CacheFacts.
Context `{W : World}.


Lemma cache_of_cached (files : list string) (st : scan_state) (p : string) (a : ndarray) :
  cache_of files st -> p ∈ files -> normalized p = Ok a -> is_Some (processed_images st !! p).
Proof.
  intros Hc Hin Hn. specialize (Hc p). destruct (processed_images st !! p) as [r|]; [eauto|].
  rewrite Hn in Hc. specialize (Hc Hin). discriminate Hc.
Qed.

Lemma in_pair_matches (t : Q) (files : list string) (ij : nat * nat) (m : match_result) :
  In m (pair_matches t files ij) ->
  exists p1 p2 a1 a2 q,
    files !! fst ij = Some p1 /\ files !! snd ij = Some p2 /\
    normalized p1 = Ok a1 /\ normalized p2 = Ok a2 /\
    score_of a1 a2 = Ok q /\ (t <= q)%Q /\ m = (basename p1, basename p2, q).
Proof.
  unfold pair_matches.
  destruct (files !! ij.1) as [p1|] eqn:E1; [|intros []].
  destruct (files !! ij.2) as [p2|] eqn:E2; [|intros []].
  destruct (normalized p1) as [a1|] eqn:En1; [|intros []].
  destruct (normalized p2) as [a2|] eqn:En2; [|intros []].
  destruct (score_of a1 a2) as [q|e] eqn:Es; cbn [matches_of]; [|intros []].
  destruct (Qle_bool t q) eqn:E; [|intros []].
  intros [<-|[]]. apply Qle_bool_iff in E.
  exists p1, p2, a1, a2, q. repeat split; assumption.
Qed.

End CacheFacts.




(** C8.  When the shapes of the two images of a pair differ, the metric
    is called on the first image and on
    [cv2.resize(img2, (img1.shape[1], img1.shape[0]))]; scoring the pair
    leaves the cache as it was: the same paths bound to the same
    references, and every array object that existed unchanged. *)
Theorem scoring_leaves_cache_unchanged `{W : World}
    (t : Q) (i j : nat) (p1 p2 : string) (r1 r2 : nat) (st : scan_state) (a1 a2 : ndarray) :
  heap st !! r1 = Some a1 -> heap st !! r2 = Some a2 ->
  processed_images (snd (score_block t i j p1 p2 r1 r2 st)) = processed_images st /\
  (forall r a, heap st !! r = Some a ->
               heap (snd (score_block t i j p1 p2 r1 r2 st)) !! r = Some a) /\
  (shape a1 = shape a2 -> fst (pair_score i j r1 r2 st) = compare_images a1 a2) /\
  (shape a1 <> shape a2 ->
   forall height width, shape a1 !! 0 = Some height -> shape a1 !! 1 = Some width ->
     fst (pair_score i j r1 r2 st)
     = match cv2_resize a2 (width, height) with
       | Ok resized => compare_images a1 resized
       | Err e => Err e
       end) /\
  exists pr,
    probes (snd (score_block t i j p1 p2 r1 r2 st)) = probes st ++ pr /\
    Forall (fun p => match p with
                     | Visit _ _ => False
                     | Reconcile _ _ => shape a1 <> shape a2
                     | Metric b1 b2 =>
                       b1 = a1 /\
                       (if bool_decide (shape a1 = shape a2) then b2 = a2
                        else resize_like a1 a2 = Ok b2)
                     end) pr.
Proof.
  intros H1 H2.
  destruct (pair_score_spec i j r1 r2 st a1 a2 H1 H2) as (Hv & _).
  destruct (score_block_spec t i j p1 p2 r1 r2 st a1 a2 H1 H2)
    as (_ & Hc & [h Hh] & _ & _ & _ & _ & pr & Hb & Hf).
  split; [exact Hc|]. split; [|split; [|split]].
  - intros r a Hr. rewrite Hh. apply lookup_app_l_Some. exact Hr.
  - intros Heq. rewrite Hv. unfold score_of, reconcile_shape.
    rewrite bool_decide_eq_true_2 by exact Heq. reflexivity.
  - intros Hne height width Hh0 Hw0. rewrite Hv. unfold score_of, reconcile_shape, resize_like.
    rewrite bool_decide_eq_false_2 by exact Hne. rewrite Hh0, Hw0. reflexivity.
  - exists pr. split; [exact Hb|]. revert Hf. apply List.Forall_impl.
    intros [i' j'|i' j'|b1 b2]; cbn [probe_from]; [tauto | tauto |].
    intros [-> Hr]. split; [reflexivity|]. unfold reconcile_shape in Hr.
    destruct (bool_decide (shape a1 = shape a2)); [congruence | exact Hr].
Qed.

Lemma scoring_leaves_cache_unchanged_witness :
  processed_images (snd (score_block (W := Toy.world true) 80 0 1 "pics/a.png" "pics/b.PNG"
                           0 1 Toy.two_arrays)) = processed_images Toy.two_arrays /\
  (forall r a, heap Toy.two_arrays !! r = Some a ->
               heap (snd (score_block (W := Toy.world true) 80 0 1 "pics/a.png" "pics/b.PNG"
                            0 1 Toy.two_arrays)) !! r = Some a) /\
  (shape (Toy.solid [2; 3] 255) = shape (Toy.solid [4; 4] 255) ->
   fst (pair_score (W := Toy.world true) 0 1 0 1 Toy.two_arrays)
   = compare_images (W := Toy.world true) (Toy.solid [2; 3] 255) (Toy.solid [4; 4] 255)) /\
  (shape (Toy.solid [2; 3] 255) <> shape (Toy.solid [4; 4] 255) ->
   forall height width,
     shape (Toy.solid [2; 3] 255) !! 0 = Some height ->
     shape (Toy.solid [2; 3] 255) !! 1 = Some width ->
     fst (pair_score (W := Toy.world true) 0 1 0 1 Toy.two_arrays)
     = match cv2_resize (World := Toy.world true) (Toy.solid [4; 4] 255) (width, height) with
       | Ok resized => compare_images (W := Toy.world true) (Toy.solid [2; 3] 255) resized
       | Err e => Err e
       end) /\
  exists pr,
    probes (snd (score_block (W := Toy.world true) 80 0 1 "pics/a.png" "pics/b.PNG"
                   0 1 Toy.two_arrays)) = probes Toy.two_arrays ++ pr /\
    Forall (fun p => match p with
                     | Visit _ _ => False
                     | Reconcile _ _ => shape (Toy.solid [2; 3] 255) <> shape (Toy.solid [4; 4] 255)
                     | Metric b1 b2 =>
                       b1 = Toy.solid [2; 3] 255 /\
                       (if bool_decide (shape (Toy.solid [2; 3] 255) = shape (Toy.solid [4; 4] 255))
                        then b2 = Toy.solid [4; 4] 255
                        else resize_like (W := Toy.world true) (Toy.solid [2; 3] 255)
                               (Toy.solid [4; 4] 255) = Ok b2)
                     end) pr.
Proof.
  apply (scoring_leaves_cache_unchanged (W := Toy.world true) 80 0 1 "pics/a.png" "pics/b.PNG"
           0 1 Toy.two_arrays (Toy.solid [2; 3] 255) (Toy.solid [4; 4] 255)).
  - reflexivity.
  - reflexivity.
Defined.

(** In the small state the second array, of shape (4, 4), is resized to
    the shape (2, 3) of the first: the heap gets a third array and the two
    cached ones stay. *)
Example toy_reconcile :
  map shape (heap (snd (score_block (W := Toy.world true) 80 0 1 "pics/a.png" "pics/b.PNG"
                          0 1 Toy.two_arrays)))
  = [[2; 3]; [4; 4]; [2; 3]] /\
  results (snd (score_block (W := Toy.world true) 80 0 1 "pics/a.png" "pics/b.PNG"
                  0 1 Toy.two_arrays))
  = [("a.png", "b.PNG", 100%Q)].
Proof. split; vm_compute; reflexivity. Qed.

(** ** Candidate files *)

Lemma filter_extension_idemp (l : list string) :
  filter (fun f => has_image_extension f = true) (filter (fun f => has_image_extension f = true) l)
  = filter (fun f => has_image_extension f = true) l.
Proof.
  induction l as [|f l IH]; [reflexivity|].
  rewrite filter_cons. destruct (decide (has_image_extension f = true)) as [Hf|Hf].
  - rewrite filter_cons. destruct (decide (has_image_extension f = true)); [|contradiction].
    f_equal. exact IH.
  - exact IH.
Qed.

Lemma image_files_only_images (W : World) (folder : string) :
  image_files (W := only_images W) folder = image_files (W := W) folder.
Proof.
  unfold image_files, only_images. cbn [listdir path_join].
  rewrite filter_extension_idemp. reflexivity.
Qed.

(** C9 (amended).  The auto-scan considers exactly the folder entries
    whose lower-cased name ends in .png, .jpg, .jpeg, .bmp or .tiff; the
    other entries are left out silently: the call behaves as if they were
    not in the folder.  The base-vs-folder mode has no such filter: every
    entry whose absolute path is not the base's is loaded and scored, and
    reported when its score reaches the threshold, whatever its
    extension. *)
Theorem auto_scan_filters_by_extension (W : World)
    (sigint : option nat) (folder : string) (t : Q) (s : io) :
  image_files (W := W) folder
  = map (path_join folder) (filter (fun f => has_image_extension f = true) (listdir folder)) /\
  (forall f, has_image_extension f = true <->
             exists front ext, ext ∈ [".png"; ".jpg"; ".jpeg"; ".bmp"; ".tiff"] /\
                               PyStr.lower f = front +:+ ext) /\
  (forall f g, PyStr.lower f = PyStr.lower g ->
               has_image_extension f = has_image_extension g) /\
  auto_scan_folder (W := only_images W) sigint folder t s
  = auto_scan_folder (W := W) sigint folder t s /\
  (forall base a entries f q,
     normalized (W := W) base = Ok a ->
     os_listdir (W := W) folder = Ok entries ->
     In f entries ->
     abspath (path_join folder f) <> abspath base ->
     folder_score (W := W) a (load_value (W := W) (path_join folder f)) = Ok q ->
     (t <= q)%Q ->
     In (f, q) (folder_lines (console (snd (compare_image_with_folder (W := W)
                                              base folder t s))))).
Proof.
  split; [reflexivity|]. split; [apply has_image_extension_spec|]. split; [|split].
  - intros f g Hfg. unfold has_image_extension. rewrite Hfg. reflexivity.
  - unfold auto_scan_folder, auto_scan_try.
    rewrite (image_files_only_images W folder). reflexivity.
  - intros base a entries f q Ha He Hin Hne Hs Hq.
    destruct (compare_image_with_folder_spec base folder t a entries s Ha He) as (s1 & E & Hw).
    rewrite E. cbn [snd]. rewrite folder_report_console.
    unfold folder_lines in *. rewrite omap_app, Hw.
    apply in_or_app. left. apply in_or_app. right.
    apply in_folder_kept. apply folder_score_scored in Hs. repeat split; assumption.
Qed.

(** C9 (as stated) fails in base-vs-folder mode: notes.txt, which holds a
    picture, is compared and reported. *)
Lemma folder_mode_filters_extensions_counterexample :
  ~ folder_mode_filters_extensions (W := Toy.world true) "elsewhere/a.png" "pics" 50 Toy.fresh.
Proof.
  intros H. specialize (H "notes.txt" 100%Q).
  assert (Hlines : folder_lines (console (snd (compare_image_with_folder (W := Toy.world true)
                                                  "elsewhere/a.png" "pics" 50 Toy.fresh)))
                   = [("a.png", 100%Q); ("b.PNG", 100%Q); ("notes.txt", 100%Q);
                      ("a.png", 100%Q); ("b.PNG", 100%Q); ("notes.txt", 100%Q)])
    by (vm_compute; reflexivity).
  rewrite Hlines in H.
  specialize (H ltac:(right; right; left; reflexivity)).
  vm_compute in H. discriminate H.
Qed.

(** ** Shapes *)

Section ShapeFacts.
Context `{W : World}.
Hypothesis resize_shape :
  forall a width height b,
    cv2_resize a (width, height) = Ok b -> shape b = height :: width :: drop 2 (shape a).
Hypothesis cvtColor_shape :
  forall a b, cv2_cvtColor a = Ok b -> shape b = take 2 (shape a).

Lemma preprocess_image_shape (image : option ndarray) (a : ndarray) :
  preprocess_image image default_size = Ok a -> shape a = [300; 300].
Proof.
  unfold preprocess_image, default_size. destruct image as [img|]; [|discriminate].
  destruct (cv2_resize img (300, 300)) as [resized|e] eqn:Er; [|discriminate].
  intros Hg. apply cvtColor_shape in Hg. apply resize_shape in Er.
  rewrite Hg, Er. reflexivity.
Qed.

Lemma probe_sound_shapes (files : list string) (p : probe) :
  probe_sound files p ->
  match p with
  | Visit _ _ => True
  | Reconcile _ _ => False
  | Metric b1 b2 => shape b1 = [300; 300] /\ shape b2 = [300; 300]
  end.
Proof.
  destruct p as [i j|i j|b1 b2]; cbn [probe_sound]; [tauto | |].
  - intros (p1 & p2 & a1 & a2 & _ & _ & H1 & H2 & Hne).
    apply preprocess_image_shape in H1, H2. congruence.
  - intros (p1 & p2 & a2 & _ & _ & H1 & H2 & Hr).
    apply preprocess_image_shape in H1, H2. split; [exact H1|].
    unfold reconcile_shape in Hr.
    rewrite bool_decide_eq_true_2 in Hr by congruence. congruence.
Qed.

End ShapeFacts.

(** C10.  When [cv2.resize] returns an array of the requested size and
    [cv2.cvtColor] one of the same height and width, every image of the
    cache is the result of [preprocess_image] at the default size and has
    shape (300, 300); so any two cache entries have equal shapes, the
    reconciliation branch of the pair loop is never entered, and every
    call of the metric in a folder scan is on two images of shape
    (300, 300). *)
Theorem cache_entries_are_300x300 `{W : World}
    (sigint : option nat) (folder : string) (t : Q) (s : io) :
  (forall a width height b,
     cv2_resize a (width, height) = Ok b -> shape b = height :: width :: drop 2 (shape a)) ->
  (forall a b, cv2_cvtColor a = Ok b -> shape b = take 2 (shape a)) ->
  isdir folder = true -> 2 <= length (image_files folder) ->
  (forall p r,
     processed_images (final_state (auto_scan_folder sigint folder t s)) !! p = Some r ->
     exists a,
       heap (final_state (auto_scan_folder sigint folder t s)) !! r = Some a /\
       preprocess_image (load_value p) default_size = Ok a /\
       shape a = [300; 300]) /\
  (forall p1 p2 r1 r2 a1 a2,
     processed_images (final_state (auto_scan_folder sigint folder t s)) !! p1 = Some r1 ->
     processed_images (final_state (auto_scan_folder sigint folder t s)) !! p2 = Some r2 ->
     heap (final_state (auto_scan_folder sigint folder t s)) !! r1 = Some a1 ->
     heap (final_state (auto_scan_folder sigint folder t s)) !! r2 = Some a2 ->
     shape a1 = shape a2) /\
  Forall (fun p => match p with
                   | Visit _ _ => True
                   | Reconcile _ _ => False
                   | Metric b1 b2 => shape b1 = [300; 300] /\ shape b2 = [300; 300]
                   end)
         (probes (final_state (auto_scan_folder sigint folder t s))).
Proof.
  intros Hresize Hgray Hdir Hlen.
  destruct (scan_final_facts sigint folder t s Hdir Hlen) as (n & Hc & _ & Hs & _).
  set (st := final_state (auto_scan_folder sigint folder t s)) in *.
  assert (Hentry : forall p r, processed_images st !! p = Some r ->
            exists a, heap st !! r = Some a /\
                      preprocess_image (load_value p) default_size = Ok a /\
                      shape a = [300; 300]).
  { intros p r Hp. specialize (Hc p). rewrite Hp in Hc. destruct Hc as (_ & a & Ha & Hn).
    exists a. split; [exact Ha|]. split; [exact Hn|].
    eapply preprocess_image_shape; eassumption. }
  split; [exact Hentry|]. split.
  - intros p1 p2 r1 r2 a1 a2 Hp1 Hp2 Ha1 Ha2.
    destruct (Hentry p1 r1 Hp1) as (b1 & Hb1 & _ & Hs1).
    destruct (Hentry p2 r2 Hp2) as (b2 & Hb2 & _ & Hs2).
    congruence.
  - revert Hs. apply List.Forall_impl. intros p.
    apply probe_sound_shapes; assumption.
Qed.

Lemma toy_resize_shape (a : ndarray) (width height : nat) (b : ndarray) :
  Toy.toy_resize a (width, height) = Ok b -> shape b = height :: width :: drop 2 (shape a).
Proof.
  unfold Toy.toy_resize. destruct (buffer a) as [|v l]; [discriminate|].
  intros Hb. injection Hb as <-. reflexivity.
Qed.

Lemma toy_cvtColor_shape (a b : ndarray) :
  Toy.toy_cvtColor a = Ok b -> shape b = take 2 (shape a).
Proof.
  unfold Toy.toy_cvtColor. intros Hb.
  repeat case_match; try discriminate Hb.
  injection Hb as <-. reflexivity.
Qed.

Lemma cache_entries_are_300x300_witness :
  (forall p r,
     processed_images (final_state
        (auto_scan_folder (W := Toy.world true) None "pics" 80 Toy.fresh)) !! p = Some r ->
     exists a,
       heap (final_state (auto_scan_folder (W := Toy.world true) None "pics" 80 Toy.fresh)) !! r
       = Some a /\
       preprocess_image (W := Toy.world true) (load_value (W := Toy.world true) p) default_size
       = Ok a /\
       shape a = [300; 300]) /\
  (forall p1 p2 r1 r2 a1 a2,
     processed_images (final_state
        (auto_scan_folder (W := Toy.world true) None "pics" 80 Toy.fresh)) !! p1 = Some r1 ->
     processed_images (final_state
        (auto_scan_folder (W := Toy.world true) None "pics" 80 Toy.fresh)) !! p2 = Some r2 ->
     heap (final_state (auto_scan_folder (W := Toy.world true) None "pics" 80 Toy.fresh)) !! r1
     = Some a1 ->
     heap (final_state (auto_scan_folder (W := Toy.world true) None "pics" 80 Toy.fresh)) !! r2
     = Some a2 ->
     shape a1 = shape a2) /\
  Forall (fun p => match p with
                   | Visit _ _ => True
                   | Reconcile _ _ => False
                   | Metric b1 b2 => shape b1 = [300; 300] /\ shape b2 = [300; 300]
                   end)
         (probes (final_state (auto_scan_folder (W := Toy.world true) None "pics" 80 Toy.fresh))).
Proof.
  apply (cache_entries_are_300x300 (W := Toy.world true) None "pics" 80 Toy.fresh).
  - exact toy_resize_shape.
  - exact toy_cvtColor_shape.
  - reflexivity.
  - vm_compute. lia.
Defined.

(** * Further properties of the program *)

(** ** The text progress bar *)

Section FloatFacts.
Import PyFloat.
Local Open Scope Z_scope.

(** *** Rounding to the nearest integer *)

(** The rounded value is within one half of the quotient, and at one half
    only when it is even. *)
Lemma nearest_even_bounds (n d : Z) :
  0 < d ->
  (2 * nearest_even n d - 1) * d <= 2 * n <= (2 * nearest_even n d + 1) * d /\
  (2 * n = (2 * nearest_even n d - 1) * d -> Z.even (nearest_even n d) = true) /\
  (2 * n = (2 * nearest_even n d + 1) * d -> Z.even (nearest_even n d) = true).
Proof.
  intros Hd. unfold nearest_even.
  pose proof (Z.div_mod n d ltac:(lia)) as Hdm.
  pose proof (Z.mod_pos_bound n d Hd) as Hm.
  destruct (Z.compare_spec (2 * (n mod d)) d) as [E|E|E].
  - destruct (Z.even (n / d)) eqn:Ev.
    + split; [nia|]. split; [nia | intros _; exact Ev].
    + split; [nia|]. rewrite Z.add_1_r, Z.even_succ, <- Z.negb_even, Ev.
      split; [reflexivity | nia].
  - split; [nia|]. split; nia.
  - split; [nia|]. split; nia.
Qed.

Lemma nearest_even_le (n d k : Z) : 0 < d -> n <= k * d -> nearest_even n d <= k.
Proof. intros Hd Hn. pose proof (nearest_even_bounds n d Hd) as [Hb _]. nia. Qed.

Lemma nearest_even_lt (n d k : Z) :
  0 < d -> 2 * n < (2 * k - 1) * d -> nearest_even n d <= k - 1.
Proof. intros Hd Hn. pose proof (nearest_even_bounds n d Hd) as [Hb _]. nia. Qed.

Lemma nearest_even_ge (n d k : Z) : 0 < d -> k * d <= n -> k <= nearest_even n d.
Proof. intros Hd Hn. pose proof (nearest_even_bounds n d Hd) as [Hb _]. nia. Qed.

Lemma even_succ_false (k : Z) : Z.even k = true -> Z.even (k + 1) = false.
Proof. intros Hk. rewrite Z.add_1_r, Z.even_succ, <- Z.negb_even, Hk. reflexivity. Qed.

Lemma nearest_even_ge_half (n d k : Z) :
  0 < d -> Z.even k = true -> (2 * k - 1) * d <= 2 * n -> k <= nearest_even n d.
Proof.
  intros Hd Hk Hn. pose proof (nearest_even_bounds n d Hd) as (Hb & _ & Hup).
  destruct (Z_le_gt_dec k (nearest_even n d)) as [|Hgt]; [assumption|].
  assert (Heq : nearest_even n d = k - 1) by nia.
  assert (Hev : Z.even (nearest_even n d) = true) by (apply Hup; nia).
  rewrite Heq in Hev. apply even_succ_false in Hev.
  replace (k - 1 + 1) with k in Hev by lia. congruence.
Qed.

(** Rounding keeps the order of the quotients. *)
Lemma nearest_even_mono (n d n' d' : Z) :
  0 < d -> 0 < d' -> n * d' <= n' * d -> nearest_even n d <= nearest_even n' d'.
Proof.
  intros Hd Hd' Hle.
  pose proof (nearest_even_bounds n d Hd) as (Hb & Hlo & _).
  pose proof (nearest_even_bounds n' d' Hd') as (Hb' & _ & Hup').
  set (k := nearest_even n d) in *. set (k' := nearest_even n' d') in *.
  destruct (Z_le_gt_dec k k') as [|Hgt]; [assumption|]. exfalso.
  assert (H1 : (2 * k - 1) * (d * d') <= 2 * (n * d')) by nia.
  assert (H2 : 2 * (n' * d) <= (2 * k' + 1) * (d * d')) by nia.
  assert (Hdd : 0 < d * d') by nia.
  assert (Hk : k = k' + 1) by nia.
  assert (E1 : 2 * n = (2 * k - 1) * d) by nia.
  assert (E2 : 2 * n' = (2 * k' + 1) * d') by nia.
  specialize (Hlo E1). specialize (Hup' E2).
  apply even_succ_false in Hup'. rewrite <- Hk in Hup'. congruence.
Qed.

(** *** Powers of two *)

Lemma pow2_pos (k : Z) : 0 <= k -> 0 < 2 ^ k.
Proof. intros Hk. apply Z.pow_pos_nonneg; lia. Qed.

Lemma pow2_ge_2 (k : Z) : 1 <= k -> 2 <= 2 ^ k.
Proof.
  intros Hk. replace k with (1 + (k - 1)) by lia.
  rewrite Z.pow_add_r by lia. pose proof (pow2_pos (k - 1) ltac:(lia)). lia.
Qed.

Lemma pow2_mono (a b : Z) : 0 <= a <= b -> 2 ^ a <= 2 ^ b.
Proof. intros H. apply Z.pow_le_mono_r; lia. Qed.

Lemma pow2_split (a b : Z) : 0 <= a -> 0 <= b -> 2 ^ (a + b) = 2 ^ a * 2 ^ b.
Proof. intros Ha Hb. apply Z.pow_add_r; assumption. Qed.

(** *** The exponent *)

(** The exponent brackets the quotient. *)
Lemma exponent_spec (n d : Z) :
  0 < n -> 0 < d ->
  d * 2 ^ Z.max 0 (exponent n d) <= n * 2 ^ Z.max 0 (- exponent n d) /\
  n * 2 ^ Z.max 0 (- (exponent n d + 1)) < d * 2 ^ Z.max 0 (exponent n d + 1).
Proof.
  intros Hn Hd. unfold exponent.
  pose proof (Z.log2_spec n Hn) as [Hn1 Hn2].
  pose proof (Z.log2_spec d Hd) as [Hd1 Hd2].
  pose proof (Z.log2_nonneg n) as Hln. pose proof (Z.log2_nonneg d) as Hld.
  rewrite <- Z.add_1_r in Hn2, Hd2.
  set (ln := Z.log2 n) in *. set (ld := Z.log2 d) in *.
  destruct (Z.ltb_spec (n * 2 ^ Z.max 0 (- (ln - ld))) (d * 2 ^ Z.max 0 (ln - ld))) as [Hlt|Hge].
  - split.
    + destruct (Z_le_gt_dec 1 (ln - ld)) as [He|He].
      * rewrite (Z.max_r 0 (ln - ld - 1)), (Z.max_l 0 (- (ln - ld - 1))) by lia.
        rewrite Z.pow_0_r, Z.mul_1_r.
        assert (H : 2 ^ ln = 2 ^ (ld + 1) * 2 ^ (ln - ld - 1)).
        { rewrite <- Z.pow_add_r by lia. f_equal. lia. }
        pose proof (pow2_pos (ln - ld - 1) ltac:(lia)). nia.
      * rewrite (Z.max_l 0 (ln - ld - 1)), (Z.max_r 0 (- (ln - ld - 1))) by lia.
        rewrite Z.pow_0_r, Z.mul_1_r.
        assert (H : 2 ^ (ld + 1) = 2 ^ ln * 2 ^ (- (ln - ld - 1))).
        { rewrite <- Z.pow_add_r by lia. f_equal. lia. }
        pose proof (pow2_pos (- (ln - ld - 1)) ltac:(lia)). nia.
    + replace (ln - ld - 1 + 1) with (ln - ld) by lia. exact Hlt.
  - split; [exact Hge|].
    destruct (Z_le_gt_dec 0 (ln - ld)) as [He|He].
    + rewrite (Z.max_r 0 (ln - ld + 1)), (Z.max_l 0 (- (ln - ld + 1))) by lia.
      rewrite Z.pow_0_r, Z.mul_1_r.
      assert (H : 2 ^ (ln + 1) = 2 ^ ld * 2 ^ (ln - ld + 1)).
      { rewrite <- Z.pow_add_r by lia. f_equal. lia. }
      pose proof (pow2_pos (ln - ld + 1) ltac:(lia)). nia.
    + rewrite (Z.max_l 0 (ln - ld + 1)), (Z.max_r 0 (- (ln - ld + 1))) by lia.
      rewrite Z.pow_0_r, Z.mul_1_r.
      assert (H : 2 ^ ld = 2 ^ (ln + 1) * 2 ^ (- (ln - ld + 1))).
      { rewrite <- Z.pow_add_r by lia. f_equal. lia. }
      pose proof (pow2_pos (- (ln - ld + 1)) ltac:(lia)). nia.
Qed.

(** The same brackets, scaled by a power of two that makes both
    exponents non-negative. *)
Lemma exponent_lower (n d s : Z) :
  0 < n -> 0 < d -> 0 <= s -> 0 <= exponent n d + s ->
  d * 2 ^ (exponent n d + s) <= n * 2 ^ s.
Proof.
  intros Hn Hd Hs Hes. destruct (exponent_spec n d Hn Hd) as [Hlo _].
  set (e := exponent n d) in *.
  destruct (Z_le_gt_dec 0 e) as [He|He].
  - rewrite (Z.max_r 0 e), (Z.max_l 0 (- e)), Z.pow_0_r in Hlo by lia.
    rewrite (pow2_split e s) by lia. pose proof (pow2_pos s Hs). nia.
  - rewrite (Z.max_l 0 e), (Z.max_r 0 (- e)), Z.pow_0_r in Hlo by lia.
    replace (2 ^ s) with (2 ^ (- e) * 2 ^ (e + s))
      by (rewrite <- pow2_split by lia; f_equal; lia).
    pose proof (pow2_pos (e + s) Hes). nia.
Qed.

Lemma exponent_upper (n d s : Z) :
  0 < n -> 0 < d -> 0 <= s -> 0 <= exponent n d + 1 + s ->
  n * 2 ^ s < d * 2 ^ (exponent n d + 1 + s).
Proof.
  intros Hn Hd Hs Hes. destruct (exponent_spec n d Hn Hd) as [_ Hhi].
  set (e := exponent n d) in *.
  destruct (Z_le_gt_dec 0 (e + 1)) as [He|He].
  - rewrite (Z.max_r 0 (e + 1)), (Z.max_l 0 (- (e + 1))), Z.pow_0_r in Hhi by lia.
    rewrite (pow2_split (e + 1) s) by lia. pose proof (pow2_pos s Hs). nia.
  - rewrite (Z.max_l 0 (e + 1)), (Z.max_r 0 (- (e + 1))), Z.pow_0_r in Hhi by lia.
    replace (2 ^ s) with (2 ^ (- (e + 1)) * 2 ^ (e + 1 + s))
      by (rewrite <- pow2_split by lia; f_equal; lia).
    pose proof (pow2_pos (e + 1 + s) Hes). nia.
Qed.

(** The exponent keeps the order of the quotients. *)
Lemma exponent_mono (n d n' d' : Z) :
  0 < n -> 0 < d -> 0 < n' -> 0 < d' -> n * d' <= n' * d ->
  exponent n d <= exponent n' d'.
Proof.
  intros Hn Hd Hn' Hd' Hle.
  destruct (Z_le_gt_dec (exponent n d) (exponent n' d')) as [|Hgt]; [assumption|]. exfalso.
  set (e := exponent n d) in *. set (e' := exponent n' d') in *.
  set (s := Z.max 0 (Z.max (- e) (- e')) + 1).
  assert (Hs : 0 <= s) by (unfold s; lia).
  pose proof (exponent_lower n d s Hn Hd Hs ltac:(fold e; unfold s; lia)) as Hlo.
  pose proof (exponent_upper n' d' s Hn' Hd' Hs ltac:(fold e'; unfold s; lia)) as Hhi.
  fold e in Hlo. fold e' in Hhi.
  pose proof (pow2_mono (e' + 1 + s) (e + s) ltac:(unfold s; lia)) as Hmono.
  pose proof (pow2_pos s Hs) as Hps.
  pose proof (pow2_pos (e' + 1 + s) ltac:(unfold s; lia)) as Hp1.
  assert (H1 : n' * 2 ^ s * d < d' * 2 ^ (e' + 1 + s) * d) by nia.
  assert (H2 : d' * 2 ^ (e' + 1 + s) * d <= d' * 2 ^ (e + s) * d) by nia.
  assert (H3 : d' * (d * 2 ^ (e + s)) <= d' * (n * 2 ^ s)) by nia.
  assert (H4 : n * d' * 2 ^ s <= n' * d * 2 ^ s) by nia.
  nia.
Qed.

(** *** Rounding to a float *)

(** The float of a quotient below 2^53: the mantissa is the quotient,
    scaled by 2^s and rounded. *)
Lemma round_small (n d : Z) :
  0 < n -> 0 < d -> n < d * 2 ^ 53 ->
  exponent n d <= 52 /\
  round n d = Num (nearest_even (n * 2 ^ Z.min (52 - exponent n d) 1074) d)
                  (- Z.min (52 - exponent n d) 1074).
Proof.
  intros Hn Hd Hsmall.
  assert (He : exponent n d <= 52).
  { destruct (Z_le_gt_dec (exponent n d) 52) as [|Hgt]; [assumption|]. exfalso.
    pose proof (exponent_lower n d 0 Hn Hd ltac:(lia) ltac:(lia)) as Hlo.
    rewrite Z.add_0_r, Z.pow_0_r in Hlo.
    pose proof (pow2_mono 53 (exponent n d) ltac:(lia)). nia. }
  split; [exact He|]. unfold round. destruct (Z.eqb_spec n 0) as [|_]; [lia|].
  replace (Z.max (exponent n d - 52) (-1074)) with (- Z.min (52 - exponent n d) 1074) by lia.
  set (s := Z.min (52 - exponent n d) 1074). assert (Hs : 0 <= s) by (unfold s; lia).
  rewrite Z.opp_involutive, (Z.max_r 0 s), (Z.max_l 0 (- s)), Z.pow_0_r, Z.mul_1_r by lia.
  destruct (Z.eq_dec s 0) as [Hs0|Hs0].
  - rewrite Hs0. cbn [Z.opp]. rewrite Z.pow_0_r, !Z.mul_1_r.
    assert (nearest_even n d <= 2 ^ 53) by (apply nearest_even_le; lia).
    destruct (Z.leb_spec (2 ^ 1024) (nearest_even n d)) as [Hbig|_]; [|reflexivity].
    pose proof (pow2_mono 53 1024 ltac:(lia)). lia.
  - rewrite (Z.pow_neg_r 2 (- s)) by lia. rewrite Z.mul_0_r. reflexivity.
Qed.


(** Rounding to a float keeps the order of the quotients. *)
Lemma round_mono (n d n' d' : Z) :
  0 < n -> 0 < d -> 0 < n' -> 0 < d' -> n * d' <= n' * d -> n' < d' * 2 ^ 53 ->
  exists m s m' s',
    round n d = Num m (- s) /\ round n' d' = Num m' (- s') /\
    0 <= s' <= s /\ 0 <= m /\ m * 2 ^ s' <= m' * 2 ^ s.
Proof.
  intros Hn Hd Hn' Hd' Hle Hsmall'.
  assert (Hsmall : n < d * 2 ^ 53).
  { assert (n * d' < d * 2 ^ 53 * d') by nia. nia. }
  destruct (round_small n d Hn Hd Hsmall) as [He Hr].
  destruct (round_small n' d' Hn' Hd' Hsmall') as [He' Hr'].
  pose proof (exponent_mono n d n' d' Hn Hd Hn' Hd' Hle) as Hmono.
  set (e := exponent n d) in *. set (e' := exponent n' d') in *.
  set (s := Z.min (52 - e) 1074) in *. set (s' := Z.min (52 - e') 1074) in *.
  assert (Hs : 0 <= s' <= s) by (unfold s, s'; lia).
  pose proof (pow2_pos s ltac:(lia)) as Hps. pose proof (pow2_pos s' ltac:(lia)) as Hps'.
  exists (nearest_even (n * 2 ^ s) d), s, (nearest_even (n' * 2 ^ s') d'), s'.
  split; [exact Hr|]. split; [exact Hr'|]. split; [exact Hs|].
  assert (Hm0 : 0 <= nearest_even (n * 2 ^ s) d) by (apply nearest_even_ge; nia).
  assert (Hm0' : 0 <= nearest_even (n' * 2 ^ s') d') by (apply nearest_even_ge; nia).
  split; [exact Hm0|].
  destruct (Z.eq_dec s s') as [Heq|Hne].
  - rewrite <- Heq.
    assert (nearest_even (n * 2 ^ s) d <= nearest_even (n' * 2 ^ s) d'); [|nia].
    apply nearest_even_mono; [assumption | assumption | nia].
  - assert (Hs' : s' = 52 - e') by (unfold s, s' in *; lia).
    assert (Hee : e + 1 <= e') by (unfold s, s' in *; lia).
    assert (Hbig : 2 ^ 52 <= nearest_even (n' * 2 ^ s') d').
    { apply nearest_even_ge; [assumption|].
      pose proof (exponent_lower n' d' s' Hn' Hd' ltac:(lia) ltac:(fold e'; lia)) as Hlo.
      fold e' in Hlo. replace (e' + s') with 52 in Hlo by lia. lia. }
    destruct (Z_le_gt_dec 0 (e + 1 + s)) as [Hpos|Hneg].
    + assert (Hm : nearest_even (n * 2 ^ s) d <= 2 ^ (e + 1 + s)).
      { apply nearest_even_le; [assumption|].
        pose proof (exponent_upper n d s Hn Hd ltac:(lia) ltac:(fold e; lia)) as Hhi.
        fold e in Hhi. lia. }
      pose proof (pow2_mono (e + 1 + s) (e' + s) ltac:(lia)) as Hp.
      assert (Hsum : 2 ^ (e' + s) * 2 ^ s' = 2 ^ 52 * 2 ^ s).
      { rewrite <- !pow2_split by lia. f_equal. lia. }
      pose proof (pow2_pos (e + 1 + s) Hpos).
      assert (H1 : nearest_even (n * 2 ^ s) d * 2 ^ s' <= 2 ^ (e' + s) * 2 ^ s') by nia.
      nia.
    + assert (Hm : nearest_even (n * 2 ^ s) d <= 1 - 1).
      { apply nearest_even_lt; [assumption|].
        pose proof (exponent_upper n d (- (e + 1)) Hn Hd ltac:(lia) ltac:(fold e; lia)) as Hhi.
        fold e in Hhi. replace (e + 1 + - (e + 1)) with 0 in Hhi by lia.
        rewrite Z.pow_0_r in Hhi.
        pose proof (pow2_mono (s + 1) (- (e + 1)) ltac:(lia)) as Hp.
        rewrite (pow2_split s 1) in Hp by lia. change (2 ^ 1) with 2 in Hp. nia. }
      nia.
Qed.

(** *** The bar of [print_progress] *)

(** The quotient of two counts, the first not above the second: a float
    m / 2^s that is at most 1, and 1 exactly when the counts are within
    one part in 2^54 of each other. *)
Lemma round_ratio_le_one (c t : Z) :
  0 < c -> c <= t ->
  exists m s,
    round c t = Num m (- s) /\ 52 <= s /\ 0 <= m <= 2 ^ s /\
    m = nearest_even (c * 2 ^ s) t /\
    (2 ^ 54 * (t - c) <= t -> m = 2 ^ s) /\
    (t < 2 ^ 54 * (t - c) -> m * 2 ^ 53 <= (2 ^ 53 - 1) * 2 ^ s).
Proof.
  intros Hc Hct. assert (Ht : 0 < t) by lia.
  destruct (round_small c t Hc Ht ltac:(change (2 ^ 53) with 9007199254740992; lia))
    as [_ Hround].
  pose proof (exponent_lower c t 0 Hc Ht ltac:(lia)) as Hlo.
  pose proof (exponent_upper c t) as Hhi.
  set (e := exponent c t) in *.
  assert (He : e <= 0).
  { destruct (Z_le_gt_dec e 0) as [|Hgt]; [assumption|].
    specialize (Hlo ltac:(lia)). rewrite Z.add_0_r, Z.pow_0_r in Hlo.
    pose proof (pow2_ge_2 e ltac:(lia)). nia. }
  set (s := Z.min (52 - e) 1074) in *.
  assert (Hs : 52 <= s <= 1074) by (unfold s; lia).
  pose proof (pow2_pos s ltac:(lia)) as Hpos.
  exists (nearest_even (c * 2 ^ s) t), s.
  split; [exact Hround|]. split; [lia|].
  assert (Hm0 : 0 <= nearest_even (c * 2 ^ s) t) by (apply nearest_even_ge; nia).
  assert (Hm1 : nearest_even (c * 2 ^ s) t <= 2 ^ s) by (apply nearest_even_le; nia).
  split; [lia|]. split; [reflexivity|].
  assert (Hzero : c < t -> e <= -1).
  { intros Hlt. destruct (Z.eq_dec e 0) as [E0|E0]; [|lia].
    specialize (Hlo ltac:(lia)). rewrite E0, Z.pow_0_r in Hlo. cbn in Hlo. lia. }
  assert (Hhalf : e <= -2 -> 2 * c < t).
  { intros He2. specialize (Hhi (- (e + 1)) Hc Ht ltac:(lia) ltac:(lia)).
    replace (e + 1 + - (e + 1)) with 0 in Hhi by lia. rewrite Z.pow_0_r in Hhi.
    pose proof (pow2_ge_2 (- (e + 1)) ltac:(lia)). nia. }
  split.
  - intros Hnear. apply Z.le_antisymm; [exact Hm1|].
    destruct (Z.eq_dec c t) as [->|Hne].
    + apply nearest_even_ge; lia.
    + assert (He1 : e = -1).
      { specialize (Hzero ltac:(lia)).
        destruct (Z.eq_dec e (-1)) as [|E1]; [assumption|].
        specialize (Hhalf ltac:(lia)). lia. }
      replace s with 53 by (unfold s; lia).
      apply nearest_even_ge_half; [exact Ht | reflexivity |].
      change (2 ^ 54) with (2 * 2 ^ 53) in Hnear. lia.
  - intros Hfar. assert (Hlt : c < t) by nia. specialize (Hzero Hlt).
    destruct (Z.eq_dec e (-1)) as [He1|He1].
    + replace s with 53 in * by (unfold s; lia).
      assert (nearest_even (c * 2 ^ 53) t <= 2 ^ 53 - 1); [|lia].
      apply nearest_even_lt; [exact Ht|].
      change (2 ^ 54) with (2 * 2 ^ 53) in Hfar. lia.
    + specialize (Hhalf ltac:(lia)).
      assert (Hs54 : 54 <= s) by (unfold s; lia).
      assert (Hsplit : 2 ^ s = 2 * 2 ^ (s - 1)).
      { replace s with (1 + (s - 1)) at 1 by lia. rewrite Z.pow_add_r by lia. reflexivity. }
      pose proof (pow2_pos (s - 1) ltac:(lia)) as Hpos1.
      assert (nearest_even (c * 2 ^ s) t <= 2 ^ (s - 1)) by (apply nearest_even_le; nia).
      nia.
Qed.

(** Forty times a float m / 2^s that is at most 1: a float m' / 2^s'
    whose integer part is 40 when the first float is 1 and at most 39
    when it is below 1. *)
Lemma times_bar_length (m s : Z) :
  52 <= s -> 0 < m <= 2 ^ s ->
  exists m' s',
    times 40 (Num m (- s)) = Num m' (- s') /\ 47 <= s' /\ 0 <= m' <= 40 * 2 ^ s' /\
    m' = nearest_even (40 * m * 2 ^ s') (2 ^ s) /\
    to_int (times 40 (Num m (- s))) = Ok (m' / 2 ^ s') /\
    (m = 2 ^ s -> m' = 40 * 2 ^ s') /\
    (m * 2 ^ 53 <= (2 ^ 53 - 1) * 2 ^ s -> m' <= 40 * 2 ^ s' - 1).
Proof.
  intros Hs Hm. pose proof (pow2_pos s ltac:(lia)) as Hpos.
  unfold times. rewrite (Z.max_l 0 (- s)), (Z.max_r 0 (- - s)), Z.pow_0_r, Z.mul_1_r by lia.
  rewrite Z.opp_involutive.
  assert (Hn : 0 < 40 * m) by lia.
  assert (Hsmall : 40 * m < 2 ^ s * 2 ^ 53)
    by (change (2 ^ 53) with 9007199254740992; nia).
  destruct (round_small (40 * m) (2 ^ s) Hn Hpos Hsmall) as [_ Hround].
  pose proof (exponent_lower (40 * m) (2 ^ s) 0 Hn Hpos ltac:(lia)) as Hlo.
  set (e := exponent (40 * m) (2 ^ s)) in *.
  assert (He : e <= 5).
  { destruct (Z_le_gt_dec e 5) as [|Hgt]; [assumption|].
    specialize (Hlo ltac:(lia)). rewrite Z.add_0_r, Z.pow_0_r in Hlo.
    pose proof (pow2_mono 6 e ltac:(lia)) as H6. change (2 ^ 6) with 64 in H6. nia. }
  set (s' := Z.min (52 - e) 1074) in *.
  assert (Hs' : 47 <= s' <= 1074) by (unfold s'; lia).
  pose proof (pow2_pos s' ltac:(lia)) as Hpos'.
  pose proof (pow2_mono 47 s' ltac:(lia)) as H47.
  set (m' := nearest_even (40 * m * 2 ^ s') (2 ^ s)) in *.
  assert (Hm0' : 0 <= m') by (apply nearest_even_ge; nia).
  assert (Hm1' : m' <= 40 * 2 ^ s') by (apply nearest_even_le; nia).
  exists m', s'. rewrite Hround.
  split; [reflexivity|]. split; [lia|]. split; [lia|]. split; [reflexivity|].
  split; [|split].
  - unfold to_int. destruct (Z.leb_spec 0 (- s')) as [|_]; [lia|].
    rewrite Z.opp_involutive. reflexivity.
  - intros ->. assert (40 * 2 ^ s' <= m') by (apply nearest_even_ge; nia). lia.
  - intros Hbelow. apply nearest_even_lt; [exact Hpos|].
    change (2 ^ 47) with 140737488355328 in H47.
    change (2 ^ 53) with 9007199254740992 in Hbelow. nia.
Qed.


(** The number of full cells, for a count that does not exceed the
    total. *)
Lemma bar_fill_bounds (c t : Z) :
  0 <= c <= t -> 0 < t ->
  exists p f,
    truediv c t = Ok p /\ to_int (times 40 p) = Ok f /\ 0 <= f <= 40 /\
    (f = 40 <-> 2 ^ 54 * (t - c) <= t).
Proof.
  intros Hc Ht. unfold truediv. destruct (Z.eqb_spec t 0) as [|_]; [lia|].
  destruct (Z.eq_dec c 0) as [->|Hc0].
  { exists (Num 0 0), 0. split; [reflexivity|]. split; [reflexivity|]. split; [lia|].
    change (2 ^ 54) with 18014398509481984. lia. }
  destruct (round_ratio_le_one c t ltac:(lia) ltac:(lia))
    as (m & s & Hr & Hs & Hm & Hmv & Hone & Hbelow).
  pose proof (pow2_pos s ltac:(lia)) as Hpos.
  rewrite Hr. destruct (Z.eq_dec m 0) as [Hm0|Hm0].
  { exists (Num m (- s)), 0. split; [reflexivity|]. split.
    - rewrite Hm0. unfold times. rewrite Z.mul_0_r, Z.mul_0_l. reflexivity.
    - split; [lia|]. split; [lia|]. intros Hnear. specialize (Hone Hnear). lia. }
  destruct (times_bar_length m s Hs ltac:(lia))
    as (m' & s' & Ht' & Hs' & Hm' & _ & Hint & Hfull & Hless).
  pose proof (pow2_pos s' ltac:(lia)) as Hpos'.
  exists (Num m (- s)), (m' / 2 ^ s').
  split; [reflexivity|]. split; [exact Hint|]. split.
  - split; [apply Z.div_pos; lia|]. apply Z.div_le_upper_bound; lia.
  - split.
    + intros Hf. destruct (Z_le_gt_dec (2 ^ 54 * (t - c)) t) as [|Hfar]; [assumption|].
      specialize (Hless (Hbelow ltac:(lia))).
      assert (m' / 2 ^ s' < 40); [|lia].
      apply Z.div_lt_upper_bound; lia.
    + intros Hnear. rewrite (Hfull (Hone Hnear)). apply Z.div_mul. lia.
Qed.

Lemma bar_table_holds (k : Z) : 1 <= k <= 40 -> bar_table k = true.
Proof.
  intros Hk.
  assert (Hall : forallb bar_table (map Z.of_nat (seq 1 40)) = true)
    by (vm_compute; reflexivity).
  rewrite forallb_forall in Hall. apply Hall.
  apply in_map_iff. exists (Z.to_nat k). split; [lia|].
  apply in_seq. lia.
Qed.

(** The arithmetic of the upper bound: with a total below 2^45 the
    rounding errors cannot lift the product over the next integer. *)
Lemma bar_upper_arith (m c t k A B : Z) :
  0 < t -> t < 2 ^ 45 -> 2 ^ 52 <= A -> 2 ^ 47 <= B ->
  (2 * m - 1) * t <= 2 * (c * A) -> 40 * c < (k + 1) * t ->
  2 * (40 * m * B) < (2 * ((k + 1) * B) - 1) * A.
Proof.
  intros Ht Hsmall HA HB Herr Hk.
  change (2 ^ 45) with 35184372088832 in Hsmall.
  change (2 ^ 52) with 4503599627370496 in HA.
  change (2 ^ 47) with 140737488355328 in HB.
  assert (H1 : 80 * (m * t) <= 80 * (c * A) + 40 * t) by lia.
  assert (H2 : (40 * c) * A <= ((k + 1) * t - 1) * A)
    by (apply Z.mul_le_mono_nonneg_r; lia).
  assert (H3 : (80 * (m * t)) * B <= (2 * ((k + 1) * t * A) - 2 * A + 40 * t) * B)
    by (apply Z.mul_le_mono_nonneg_r; lia).
  assert (H4 : A * t < A * B) by (apply Z.mul_lt_mono_pos_l; lia).
  assert (H5 : A * B <= (2 * A - 40 * t) * B)
    by (apply Z.mul_le_mono_nonneg_r; lia).
  apply (Z.mul_lt_mono_pos_r t); [exact Ht|]. lia.
Qed.

(** For a total below 2^45 the number of full cells is the integer part
    of the exact quotient 40 * current / total. *)
Lemma bar_fill_exact (c t : Z) :
  0 <= c <= t -> 0 < t -> t < 2 ^ 45 ->
  exists p, truediv c t = Ok p /\ to_int (times 40 p) = Ok (40 * c / t).
Proof.
  intros Hc Ht Hsmall.
  unfold truediv. destruct (Z.eqb_spec t 0) as [|_]; [lia|].
  destruct (Z.eq_dec c 0) as [->|Hc0].
  { exists (Num 0 0). split; reflexivity. }
  destruct (round_ratio_le_one c t ltac:(lia) ltac:(lia))
    as (m & s & Hr & Hs & Hm & Hmv & _ & _).
  pose proof (pow2_pos s ltac:(lia)) as Hpos.
  pose proof (pow2_mono 52 s ltac:(lia)) as H52.
  change (2 ^ 52) with 4503599627370496 in H52.
  assert (Hm1 : 1 <= m).
  { rewrite Hmv. apply nearest_even_ge; [lia|]. nia. }
  destruct (times_bar_length m s Hs ltac:(lia))
    as (m' & s' & Ht' & Hs' & Hm' & Hmv' & Hint & _ & _).
  pose proof (pow2_pos s' ltac:(lia)) as Hpos'.
  pose proof (pow2_mono 47 s' ltac:(lia)) as H47.
  change (2 ^ 47) with 140737488355328 in H47.
  rewrite Hr. exists (Num m (- s)). split; [reflexivity|]. rewrite Hint. f_equal.
  set (k := 40 * c / t).
  assert (Hk : k * t <= 40 * c < (k + 1) * t).
  { unfold k. pose proof (Z.mul_div_le (40 * c) t Ht).
    pose proof (Z.mul_succ_div_gt (40 * c) t Ht). lia. }
  assert (Hk0 : 0 <= k <= 40) by nia.
  apply Z.le_antisymm.
  - (* above: the product stays below k + 1 *)
    assert (Hup : m' <= (k + 1) * 2 ^ s' - 1).
    { rewrite Hmv'. apply nearest_even_lt; [exact Hpos|].
      pose proof (nearest_even_bounds (c * 2 ^ s) t Ht) as [[Herr _] _].
      rewrite <- Hmv in Herr.
      apply (bar_upper_arith m c t k (2 ^ s) (2 ^ s')); assumption || lia. }
    assert (m' / 2 ^ s' < k + 1); [|lia].
    apply Z.div_lt_upper_bound; lia.
  - (* below: the order of the floats and the table *)
    destruct (Z.eq_dec k 0) as [->|Hk1]; [apply Z.div_pos; lia|].
    apply Z.div_le_lower_bound; [lia|].
    destruct (round_mono k 40 c t ltac:(lia) ltac:(lia) ltac:(lia) Ht ltac:(lia)
                ltac:(change (2 ^ 53) with 9007199254740992; lia))
      as (mk & sk & m2 & s2 & Hrk & Hr2 & Hsk & Hmk0 & Hmk).
    rewrite Hr in Hr2. injection Hr2 as <- Hs2.
    assert (s2 = s) by lia. subst s2.
    pose proof (bar_table_holds k ltac:(lia)) as Htab. unfold bar_table in Htab.
    rewrite Hrk in Htab.
    destruct (Z.eq_dec mk 0) as [->|Hmk1].
    { exfalso. revert Htab. unfold times.
      rewrite Z.mul_0_r, Z.mul_0_l. cbn [round Z.eqb]. cbn [Z.opp Z.leb Z.compare andb].
      rewrite Z.pow_0_r, Z.mul_1_r. destruct (Z.leb_spec k 0); [lia | discriminate]. }
    pose proof (pow2_pos sk ltac:(lia)) as Hposk.
    unfold times in Htab, Ht'.
    rewrite (Z.max_l 0 (- s)), (Z.max_r 0 (- - s)), Z.pow_0_r, Z.mul_1_r, Z.opp_involutive
      in Ht' by lia.
    assert (Hsk0 : 0 <= sk) by lia.
    rewrite (Z.max_l 0 (- sk)), (Z.max_r 0 (- - sk)), Z.pow_0_r, Z.mul_1_r, Z.opp_involutive
      in Htab by lia.
    destruct (round_mono (40 * mk) (2 ^ sk) (40 * m) (2 ^ s)
                ltac:(lia) Hposk ltac:(lia) Hpos ltac:(nia)
                ltac:(change (2 ^ 53) with 9007199254740992; nia))
      as (mk' & sk' & m3 & s3 & Hrk' & Hr3 & Hsk' & Hmk0' & Hmk').
    rewrite Ht' in Hr3. injection Hr3 as <- Hs3.
    assert (s3 = s') by lia. subst s3.
    rewrite Hrk' in Htab. apply andb_true_iff in Htab as [_ Htab].
    apply Z.leb_le in Htab. rewrite Z.opp_involutive in Htab.
    pose proof (pow2_pos sk' ltac:(lia)) as Hposk'.
    assert (H1 : k * 2 ^ sk' * 2 ^ s' <= m' * 2 ^ sk') by nia.
    nia.
Qed.

End FloatFacts.

Lemma bar_cells_length (filled : nat) :
  filled <= 40 ->
  length (bar_cells filled) = 40 /\ length (List.filter id (bar_cells filled)) = filled.
Proof.
  intros Hle. unfold bar_cells, bar_length.
  rewrite List.filter_app, !length_app, !length_replicate.
  assert (H1 : forall k, List.filter id (replicate k true) = replicate k true)
    by (induction k as [|k IH]; cbn; [reflexivity | rewrite IH; reflexivity]).
  assert (H2 : forall k, List.filter id (replicate k false) = [])
    by (induction k as [|k IH]; cbn; [reflexivity | exact IH]).
  rewrite H1, H2, length_replicate. cbn [length]. lia.
Qed.

(** X1.  [print_progress] raises ZeroDivisionError exactly when the total
    is 0.  For a count that does not exceed a total other than 0 it
    returns: the number of full cells is the integer part of the float
    40 * (current / total), the percentage is the float
    (current / total) * 100, and the bar has exactly 40 cells.  Because
    the quotient is rounded to a float, the bar is full exactly when the
    count is within one part in 2^54 of the total; for a total below 2^54
    that is when the count has reached the total. *)
Theorem progress_bar_has_forty_cells (current total : nat) (s : scan_state) :
  (print_progress current total s = Raised (LibError "ZeroDivisionError") s <-> total = 0) /\
  (0 < total -> current <= total ->
   exists progress filled,
     PyFloat.truediv (Z.of_nat current) (Z.of_nat total) = Ok progress /\
     PyFloat.to_int (PyFloat.times 40 progress) = Ok (Z.of_nat filled) /\
     print_progress current total s
     = Done tt (print (TextProgress filled (PyFloat.times 100 progress) current total) s) /\
     filled <= 40 /\
     length (bar_cells filled) = 40 /\
     length (List.filter id (bar_cells filled)) = filled /\
     (filled = 40 <->
      (2 ^ 54 * (Z.of_nat total - Z.of_nat current) <= Z.of_nat total)%Z) /\
     ((Z.of_nat total < 2 ^ 54)%Z -> (filled = 40 <-> current = total))).
Proof.
  split.
  - unfold print_progress, PyFloat.truediv. split.
    + destruct (Z.eqb_spec (Z.of_nat total) 0) as [E|_]; [lia|].
      destruct (PyFloat.round (Z.of_nat current) (Z.of_nat total)) as [m q|];
        [|intros H; discriminate H].
      destruct (PyFloat.to_int _) as [f|e] eqn:Ei; [intros H; discriminate H|].
      unfold PyFloat.to_int in Ei. destruct (PyFloat.times _ _); [discriminate Ei|].
      injection Ei as <-. intros H. discriminate H.
    + intros ->. reflexivity.
  - intros Htot Hle.
    destruct (bar_fill_bounds (Z.of_nat current) (Z.of_nat total) ltac:(lia) ltac:(lia))
      as (p & f & Hp & Hf & Hf40 & Hfull).
    exists p, (Z.to_nat f). rewrite Z2Nat.id by lia.
    split; [exact Hp|]. split; [exact Hf|]. split.
    { unfold print_progress. rewrite Hp. unfold bar_length.
      change (Z.of_nat 40) with 40%Z. rewrite Hf. reflexivity. }
    split; [lia|].
    destruct (bar_cells_length (Z.to_nat f) ltac:(lia)) as [Hlen Hfilled].
    split; [exact Hlen|]. split; [exact Hfilled|]. split.
    + rewrite <- Hfull. lia.
    + intros Hsmall. split.
      * intros H40. assert (Hf' : f = 40%Z) by lia. apply Hfull in Hf'.
        change (2 ^ 54)%Z with 18014398509481984%Z in Hf', Hsmall. lia.
      * intros ->. assert (f = 40%Z); [|lia]. apply Hfull. lia.
Qed.

Lemma progress_bar_has_forty_cells_witness :
  exists progress filled,
    PyFloat.truediv (Z.of_nat 3) (Z.of_nat 10) = Ok progress /\
    PyFloat.to_int (PyFloat.times 40 progress) = Ok (Z.of_nat filled) /\
    print_progress 3 10 Toy.two_arrays
    = Done tt (print (TextProgress filled (PyFloat.times 100 progress) 3 10) Toy.two_arrays) /\
    filled <= 40 /\
    length (bar_cells filled) = 40 /\
    length (List.filter id (bar_cells filled)) = filled /\
    (filled = 40 <-> (2 ^ 54 * (Z.of_nat 10 - Z.of_nat 3) <= Z.of_nat 10)%Z) /\
    ((Z.of_nat 10 < 2 ^ 54)%Z -> (filled = 40 <-> 3 = 10)).
Proof.
  apply (progress_bar_has_forty_cells 3 10 Toy.two_arrays); lia.
Defined.

(** X18.  For a total below 2^45 the rounding of the floats does not
    show: the number of full cells is the integer part of the exact
    quotient 40 * current / total. *)
Theorem progress_bar_fill_is_floor (current total : nat) (s : scan_state) :
  0 < total -> current <= total -> (Z.of_nat total < 2 ^ 45)%Z ->
  exists percent,
    print_progress current total s
    = Done tt (print (TextProgress ((40 * current) / total) percent current total) s).
Proof.
  intros Htot Hle Hsmall.
  destruct (bar_fill_exact (Z.of_nat current) (Z.of_nat total) ltac:(lia) ltac:(lia) Hsmall)
    as (p & Hp & Hf).
  exists (PyFloat.times 100 p). unfold print_progress. rewrite Hp. unfold bar_length.
  change (Z.of_nat 40) with 40%Z. rewrite Hf.
  change 40%Z with (Z.of_nat 40). rewrite <- Nat2Z.inj_mul, <- Nat2Z.inj_div, Nat2Z.id.
  reflexivity.
Qed.

Lemma progress_bar_fill_is_floor_witness :
  exists percent,
    print_progress 3 10 Toy.two_arrays
    = Done tt (print (TextProgress ((40 * 3) / 10) percent 3 10) Toy.two_arrays).
Proof.
  apply (progress_bar_fill_is_floor 3 10 Toy.two_arrays); [lia | lia |].
  vm_compute. reflexivity.
Defined.

(** The floats of the bar in three cases: 3 of 10 gives 12 cells and
    30.0 percent; one short of a total of 2^53 gives 39 cells; one short
    of a total of 2^55 gives the full 40 cells, since the quotient rounds
    to 1.0. *)
Example toy_bar_floats :
  PyFloat.truediv 3 10 = Ok (PyFloat.Num 5404319552844595 (-54)) /\
  PyFloat.to_int (PyFloat.times 40 (PyFloat.Num 5404319552844595 (-54))) = Ok 12%Z /\
  PyFloat.times 100 (PyFloat.Num 5404319552844595 (-54)) = PyFloat.Num (30 * 2 ^ 48) (-48) /\
  (exists p, PyFloat.truediv (2 ^ 53 - 1) (2 ^ 53) = Ok p /\
             PyFloat.to_int (PyFloat.times 40 p) = Ok 39%Z) /\
  (exists p, PyFloat.truediv (2 ^ 55 - 1) (2 ^ 55) = Ok p /\
             PyFloat.to_int (PyFloat.times 40 p) = Ok 40%Z) /\
  PyFloat.truediv 1 0 = Err "ZeroDivisionError" /\
  PyFloat.truediv (2 ^ 1024) 1 = Err "OverflowError".
Proof.
  split; [vm_compute; reflexivity|]. split; [vm_compute; reflexivity|].
  split; [vm_compute; reflexivity|].
  split; [eexists; split; [vm_compute; reflexivity | vm_compute; reflexivity]|].
  split; [eexists; split; [vm_compute; reflexivity | vm_compute; reflexivity]|].
  split; vm_compute; reflexivity.
Qed.

(** ** The history of [load_image] *)

Lemma prefix_length (n : nat) (s : string) : String.length (PyStr.prefix n s) <= n.
Proof.
  unfold PyStr.prefix. revert s. induction n as [|n IH]; intros s.
  - destruct s; cbn; lia.
  - destruct s as [|c s]; cbn; [lia|]. specialize (IH s). lia.
Qed.

(** X2.  [load_image] records a name exactly when it is called verbose
    without the progress-bar library for a file that was read and that
    [cv2.imdecode] did not raise on (also when the bytes are no image and
    the result is [None]): the name, the basename cut at 15 characters,
    comes last, the history is cut to its last 10 names and printed.  When
    the file cannot be read or [cv2.imdecode] raises, the call returns
    [None], prints the error and leaves the history as it was, verbose or
    not.  In every other case nothing is written and the history is left
    alone.  A history of at most 10 names of at most 15 characters stays
    so whatever the call does. *)
Theorem load_image_history_bounded `{W : World} (image_path : string) (verbose : bool) (s : io) :
  history_bounded (history s) ->
  history_bounded (history (snd (load_image image_path verbose s))) /\
  (verbose && negb tqdm = false -> history (snd (load_image image_path verbose s)) = history s) /\
  (verbose && negb tqdm = true ->
   forall file_bytes image,
     read_file (abspath image_path) = Ok file_bytes ->
     cv2_imdecode file_bytes = Ok image ->
     fst (load_image image_path verbose s) = image /\
     last (history (snd (load_image image_path verbose s)))
     = Some (PyStr.prefix 15 (basename image_path)) /\
     history (snd (load_image image_path verbose s))
     = last_n 10 (history s ++ [PyStr.prefix 15 (basename image_path)]) /\
     console (snd (load_image image_path verbose s))
     = console s ++ [RecentFiles (history (snd (load_image image_path verbose s)))]) /\
  (verbose && negb tqdm = false ->
   forall file_bytes image,
     read_file (abspath image_path) = Ok file_bytes ->
     cv2_imdecode file_bytes = Ok image ->
     load_image image_path verbose s = (image, s)) /\
  (forall e,
     read_file (abspath image_path) = Err e \/
     (exists file_bytes, read_file (abspath image_path) = Ok file_bytes /\
                         cv2_imdecode file_bytes = Err e) ->
     fst (load_image image_path verbose s) = None /\
     history (snd (load_image image_path verbose s)) = history s /\
     console (snd (load_image image_path verbose s))
     = console s ++ [LoadError (basename image_path) e]).
Proof.
  intros [Hlen Hall]. unfold load_image.
  assert (Hnew : history_bounded (last_n 10 (history s ++ [PyStr.prefix 15 (basename image_path)]))).
  { unfold last_n. split.
    - rewrite length_drop. lia.
    - apply Forall_drop, Forall_app. split; [exact Hall|].
      constructor; [apply prefix_length | constructor]. }
  split; [|split; [|split; [|split]]].
  - destruct (read_file (abspath image_path)) as [b|e]; [|split; assumption].
    destruct (cv2_imdecode b) as [image|e]; [|split; assumption].
    destruct (verbose && negb tqdm); [exact Hnew | split; assumption].
  - intros ->. destruct (read_file (abspath image_path)) as [b|e]; [|reflexivity].
    destruct (cv2_imdecode b) as [image|e]; reflexivity.
  - intros -> b image -> ->. cbn [fst snd emit set_history history console].
    split; [reflexivity|]. split; [|split; reflexivity].
    unfold last_n. rewrite length_app. cbn [length].
    rewrite drop_app_le by lia. apply last_snoc.
  - intros -> b image -> ->. reflexivity.
  - intros e [->|(b & -> & ->)]; repeat split.
Qed.

Lemma load_image_history_bounded_witness :
  history_bounded (history (snd (load_image (W := Toy.world false) "pics/a.png" true Toy.fresh))) /\
  (true && negb (tqdm (World := Toy.world false)) = false ->
   history (snd (load_image (W := Toy.world false) "pics/a.png" true Toy.fresh))
   = history Toy.fresh) /\
  (true && negb (tqdm (World := Toy.world false)) = true ->
   forall file_bytes image,
     read_file (World := Toy.world false) (abspath (World := Toy.world false) "pics/a.png")
     = Ok file_bytes ->
     cv2_imdecode (World := Toy.world false) file_bytes = Ok image ->
     fst (load_image (W := Toy.world false) "pics/a.png" true Toy.fresh) = image /\
     last (history (snd (load_image (W := Toy.world false) "pics/a.png" true Toy.fresh)))
     = Some (PyStr.prefix 15 (basename (World := Toy.world false) "pics/a.png")) /\
     history (snd (load_image (W := Toy.world false) "pics/a.png" true Toy.fresh))
     = last_n 10 (history Toy.fresh
                  ++ [PyStr.prefix 15 (basename (World := Toy.world false) "pics/a.png")]) /\
     console (snd (load_image (W := Toy.world false) "pics/a.png" true Toy.fresh))
     = console Toy.fresh
       ++ [RecentFiles (history (snd (load_image (W := Toy.world false) "pics/a.png" true
                                        Toy.fresh)))]) /\
  (true && negb (tqdm (World := Toy.world false)) = false ->
   forall file_bytes image,
     read_file (World := Toy.world false) (abspath (World := Toy.world false) "pics/a.png")
     = Ok file_bytes ->
     cv2_imdecode (World := Toy.world false) file_bytes = Ok image ->
     load_image (W := Toy.world false) "pics/a.png" true Toy.fresh = (image, Toy.fresh)) /\
  (forall e,
     read_file (World := Toy.world false) (abspath (World := Toy.world false) "pics/a.png") = Err e \/
     (exists file_bytes,
        read_file (World := Toy.world false) (abspath (World := Toy.world false) "pics/a.png")
        = Ok file_bytes /\
        cv2_imdecode (World := Toy.world false) file_bytes = Err e) ->
     fst (load_image (W := Toy.world false) "pics/a.png" true Toy.fresh) = None /\
     history (snd (load_image (W := Toy.world false) "pics/a.png" true Toy.fresh))
     = history Toy.fresh /\
     console (snd (load_image (W := Toy.world false) "pics/a.png" true Toy.fresh))
     = console Toy.fresh
       ++ [LoadError (basename (World := Toy.world false) "pics/a.png") e]).
Proof.
  apply (load_image_history_bounded (W := Toy.world false) "pics/a.png" true Toy.fresh).
  split; [cbn; lia | constructor].
Defined.

(** A file that is not on the disk is not recorded, and one whose bytes
    are no image is. *)
Example toy_load_image_unreadable :
  load_image (W := Toy.world false) "pics/missing.png" true Toy.fresh
  = (None, {| history := []; console := [LoadError "missing.png" "FileNotFoundError"] |}) /\
  load_image (W := Toy.world false) "pics/broken.bmp" true Toy.fresh
  = (None, {| history := ["broken.bmp"]; console := [RecentFiles ["broken.bmp"]] |}).
Proof. split; vm_compute; reflexivity. Qed.

(** ** The folder scan: its edges *)

(** X3.  When the folder does not exist, or holds fewer than two entries
    with an image extension, [auto_scan_folder] says so and returns the
    empty list without reading a file: nothing is cached, no array is
    made, the history of [load_image] is as before, and the only things
    written are the message and the clean-up of the [finally] clause. *)
Theorem scan_does_not_start `{W : World}
    (sigint : option nat) (folder : string) (t : Q) (s : io) :
  isdir folder = false \/ length (image_files folder) < 2 ->
  exists s',
    auto_scan_folder sigint folder t s = Done [] s' /\
    processed_images s' = ∅ /\ heap s' = [] /\ probes s' = [] /\
    history (sio s') = history s /\
    console (sio s')
    = console s ++
      (if isdir folder then NeedTwoImages else NoSuchFolder folder) ::
      WindowTitle TitleDone :: (if tqdm then [] else [ClearLine]).
Proof.
  intros Hno. unfold auto_scan_folder, auto_scan_try.
  destruct (isdir folder) eqn:Hdir; cbn [negb].
  - destruct Hno as [Hno|Hlt]; [discriminate Hno|].
    destruct (Nat.ltb_spec (length (image_files folder)) 2) as [_|Hge]; [|lia].
    unfold bind, exec, ret, cleanup. eexists. split; [reflexivity|].
    destruct tqdm; cbn; rewrite <- ?app_assoc; repeat split; reflexivity.
  - unfold bind, exec, ret, cleanup. eexists. split; [reflexivity|].
    destruct tqdm; cbn; rewrite <- ?app_assoc; repeat split; reflexivity.
Qed.

Lemma scan_does_not_start_witness :
  exists s',
    auto_scan_folder (W := Toy.world false) None "nowhere" 80 Toy.fresh = Done [] s' /\
    processed_images s' = ∅ /\ heap s' = [] /\ probes s' = [] /\
    history (sio s') = history Toy.fresh /\
    console (sio s')
    = console Toy.fresh ++
      (if isdir (World := Toy.world false) "nowhere"
       then NeedTwoImages else NoSuchFolder "nowhere") ::
      WindowTitle TitleDone ::
      (if tqdm (World := Toy.world false) then [] else [ClearLine]).
Proof.
  apply (scan_does_not_start (W := Toy.world false) None "nowhere" 80 Toy.fresh).
  left. reflexivity.
Defined.

Lemma ordered_pairs_short {X} (l : list X) : length l < 2 -> ordered_pairs l = [].
Proof.
  destruct l as [|x [|y l]]; cbn [length]; [reflexivity | reflexivity | lia].
Qed.

Lemma size_list_to_set_le (l : list string) :
  size (list_to_set (C := gset string) l) <= length l.
Proof.
  induction l as [|x l IH]; [rewrite list_to_set_nil, size_empty; cbn; lia|].
  rewrite list_to_set_cons, size_union_alt, size_singleton. cbn [length].
  pose proof (subseteq_size (list_to_set (C := gset string) l ∖ {[x]})
                (list_to_set (C := gset string) l)) as Hd.
  assert (Hsub : list_to_set (C := gset string) l ∖ {[x]} ⊆ list_to_set (C := gset string) l).
  { intros y Hy. apply elem_of_difference in Hy as [Hy _]. exact Hy. }
  specialize (Hd Hsub). lia.
Qed.

(** X4.  The check for two images counts candidate files, not decodable
    ones: with two or more candidates of which fewer than two decode, and
    no interrupt, the scan starts, visits no pair and completes in both
    display strategies: it returns the empty list and reports 0
    matches. *)
Theorem few_decodable_images_complete `{W : World} (folder : string) (t : Q) (s : io) :
  isdir folder = true -> 2 <= length (image_files folder) ->
  length (cached_positions (image_files folder)) < 2 ->
  exists s',
    auto_scan_folder None folder t s = Done [] s' /\
    visited (probes s') = [] /\ current_pair s' = 0 /\
    size (processed_images s') < 2 /\
    report (console (sio s'))
    = report (console s) ++
      (if tqdm then [PairBarOpen (comb (length (image_files folder)) 2)] else []) ++
      [Summary 0].
Proof.
  intros Hdir Hlen Hfew.
  assert (Hso : scan_order (image_files folder) = [])
    by (apply ordered_pairs_short; exact Hfew).
  destruct (scan_completes None folder t s Hdir Hlen (or_intror Hso))
    as (s' & E & _ & Hc & Hv & _ & Hp & Hw).
  rewrite Hso in *. exists s'. repeat split; try assumption.
  apply Nat.le_lt_trans with (length (cached_positions (image_files folder))); [|exact Hfew].
  clear - Hc. unfold cached_positions.
  rewrite (cached_positions_count (image_files folder) (image_files folder) 0)
    by (intros i _; reflexivity).
  rewrite <- size_dom.
  assert (Hsub : dom (processed_images s')
                 ⊆ list_to_set (C := gset string)
                     (List.filter (fun p => is_ok (normalized p)) (image_files folder))).
  { intros p Hp. apply elem_of_dom in Hp as [r Hr]. apply elem_of_list_to_set.
    apply list_elem_of_In, filter_In. specialize (Hc p). rewrite Hr in Hc.
    destruct Hc as (Hin & a & _ & Hn). rewrite Hn.
    split; [apply list_elem_of_In; exact Hin | reflexivity]. }
  etransitivity; [apply subseteq_size; exact Hsub|]. apply size_list_to_set_le.
Qed.

Lemma few_decodable_images_complete_witness :
  exists s',
    auto_scan_folder (W := ToyJunk.world false) None "junk" 80 Toy.fresh = Done [] s' /\
    visited (probes s') = [] /\ current_pair s' = 0 /\
    size (processed_images s') < 2 /\
    report (console (sio s'))
    = report (console Toy.fresh) ++
      (if tqdm (World := ToyJunk.world false)
       then [PairBarOpen (comb (length (image_files (W := ToyJunk.world false) "junk")) 2)]
       else []) ++
      [Summary 0].
Proof.
  apply (few_decodable_images_complete (W := ToyJunk.world false) "junk" 80 Toy.fresh).
  - reflexivity.
  - vm_compute. lia.
  - vm_compute. lia.
Defined.

Section ResultFacts.
Context `{W : World}.

Lemma pair_matches_at_most_one (t : Q) (files : list string) (ps : list (nat * nat)) :
  length (flat_map (pair_matches t files) ps) <= length ps.
Proof.
  induction ps as [|ij ps IH]; [reflexivity|].
  cbn [flat_map length]. rewrite length_app.
  assert (length (pair_matches t files ij) <= 1); [|lia].
  unfold pair_matches.
  destruct (files !! ij.1) as [p1|]; [|cbn; lia].
  destruct (files !! ij.2) as [p2|]; [|cbn; lia].
  destruct (normalized p1) as [a1|]; [|cbn; lia].
  destruct (normalized p2) as [a2|]; [|cbn; lia].
  destruct (score_of a1 a2) as [q|e]; cbn [matches_of]; [|cbn; lia].
  destruct (Qle_bool t q); cbn; lia.
Qed.

End ResultFacts.

(** X5.  Whenever [auto_scan_folder] returns, every returned MatchResult
    has a score that reaches the threshold and names the files at two
    positions i < j of the candidate list, both cached; there is at most
    one result per visited pair, and no more visited pairs than the
    total of the progress report. *)
Theorem returned_results_reach_threshold `{W : World}
    (sigint : option nat) (folder : string) (t : Q) (s : io) :
  match auto_scan_folder sigint folder t s with
  | Done r s' =>
    (forall m, In m r ->
       (t <= mr_score m)%Q /\
       exists i j p1 p2,
         i < j /\ image_files folder !! i = Some p1 /\ image_files folder !! j = Some p2 /\
         fst (fst m) = basename p1 /\ snd (fst m) = basename p2 /\
         is_Some (processed_images s' !! p1) /\ is_Some (processed_images s' !! p2)) /\
    length r <= length (visited (probes s')) /\
    length (visited (probes s')) <= comb (length (image_files folder)) 2
  | Raised _ _ => True
  end.
Proof.
  destruct (isdir folder) eqn:Hdir.
  - destruct (le_lt_dec 2 (length (image_files folder))) as [Hlen|Hlen].
    + destruct (scan_final_facts sigint folder t s Hdir Hlen) as (n & Hc & Hv & _ & Hperm & Hend).
      destruct (auto_scan_folder sigint folder t s) as [r s'|e s']; [|exact I].
      cbn [final_state] in *.
      assert (Hsub : forall m, In m r -> In m (results s')).
      { intros m Hm. destruct Hend as [->| ->]; [destruct Hm | exact Hm]. }
      split; [|split].
      * intros m Hm. apply Hsub in Hm. eapply Permutation_in in Hm; [|exact Hperm].
        apply in_flat_map in Hm as ([i j] & Hij & Hm).
        apply in_take_in, in_scan_order in Hij. destruct Hij as (Hlt & _ & _ & _).
        apply in_pair_matches in Hm
          as (p1 & p2 & a1 & a2 & q & Hp1 & Hp2 & Hn1 & Hn2 & _ & Hq & ->).
        split; [exact Hq|]. exists i, j, p1, p2. cbn [fst snd] in *.
        repeat split; try assumption.
        -- eapply cache_of_cached; [exact Hc | eapply list_elem_of_lookup_2; exact Hp1 | exact Hn1].
        -- eapply cache_of_cached; [exact Hc | eapply list_elem_of_lookup_2; exact Hp2 | exact Hn2].
      * rewrite Hv. destruct Hend as [->| ->]; [cbn; lia|].
        rewrite (Permutation_length Hperm). apply pair_matches_at_most_one.
      * rewrite Hv, length_take. etransitivity; [apply Nat.le_min_r|].
        rewrite scan_order_length. apply comb_2_mono, cached_positions_length.
    + destruct (scan_not_started sigint folder t s (or_intror Hlen)) as (s' & -> & _ & Hb & _).
      rewrite Hb. cbn. split; [intros m []|]. lia.
  - destruct (scan_not_started sigint folder t s (or_introl Hdir)) as (s' & -> & _ & Hb & _).
    rewrite Hb. cbn. split; [intros m []|]. lia.
Qed.

Lemma comb_2_reaches (m n : nat) : m <= n -> 2 <= n -> comb m 2 = comb n 2 -> m = n.
Proof.
  intros Hle Hn Heq. destruct (Nat.eq_dec m n) as [|Hne]; [assumption|].
  assert (Hlt : m <= n - 1) by lia.
  pose proof (comb_2_mono m (n - 1) Hlt) as Hmono.
  destruct n as [|n]; [lia|]. rewrite comb_S_2 in Heq.
  replace (S n - 1) with n in Hmono by lia. lia.
Qed.

(** X6.  With the progress-bar library and no interrupt, the pair counter
    ends at C(n,2) for the n cached images; it reaches the total given to
    the progress bar exactly when every candidate file was cached, so one
    undecodable file leaves the bar short of its end. *)
Theorem progress_reaches_total_iff_all_cached `{W : World} (folder : string) (t : Q) (s : io) :
  tqdm = true -> isdir folder = true -> 2 <= length (image_files folder) ->
  NoDup (image_files folder) ->
  exists r s',
    auto_scan_folder None folder t s = Done r s' /\
    current_pair s' = comb (size (processed_images s')) 2 /\
    (current_pair s' = comb (length (image_files folder)) 2 <->
     size (processed_images s') = length (image_files folder)).
Proof.
  intros Ht Hdir Hlen Hnd.
  destruct (scan_completes None folder t s Hdir Hlen) as (s' & E & _ & Hc & _ & _ & Hp & _).
  { left. split; [exact Ht|]. intros k Hk. discriminate Hk. }
  pose proof (cache_size _ _ Hc Hnd) as Hsize.
  eexists _, s'. split; [exact E|].
  rewrite Hp, scan_order_length, Hsize. split; [reflexivity|]. split.
  - apply comb_2_reaches; [apply cached_positions_length | exact Hlen].
  - intros ->. reflexivity.
Qed.

Lemma progress_reaches_total_iff_all_cached_witness :
  exists r s',
    auto_scan_folder (W := Toy.world true) None "pics" 80 Toy.fresh = Done r s' /\
    current_pair s' = comb (size (processed_images s')) 2 /\
    (current_pair s' = comb (length (image_files (W := Toy.world true) "pics")) 2 <->
     size (processed_images s') = length (image_files (W := Toy.world true) "pics")).
Proof.
  apply (progress_reaches_total_iff_all_cached (W := Toy.world true) "pics" 80 Toy.fresh).
  - reflexivity.
  - reflexivity.
  - vm_compute. lia.
  - apply (bool_decide_unpack _). vm_compute. exact I.
Defined.

(** X7.  The [finally] clause runs on every way out of
    [auto_scan_folder]: a return from the checks, completion, the
    interrupt handler and an exception that leaves the call.  The last
    thing written is the window title "Готово", followed without the
    progress-bar library by the clearing of the line. *)
Theorem cleanup_runs_on_every_exit `{W : World}
    (sigint : option nat) (folder : string) (t : Q) (s : io) :
  exists before,
    console (sio (final_state (auto_scan_folder sigint folder t s)))
    = before ++ WindowTitle TitleDone :: (if tqdm then [] else [ClearLine]).
Proof.
  unfold auto_scan_folder.
  destruct (auto_scan_try sigint folder t (enter s)) as [r s'|e s'].
  - exists (console (sio s')). apply cleanup_console.
  - destruct e; cbn [final_state].
    + exists (console (sio (print Interrupted s'))). apply cleanup_console.
    + exists (console (sio s')). apply cleanup_console.
    + exists (console (sio s')). apply cleanup_console.
Qed.

(** ** The base-vs-folder mode: what is printed *)

Section FolderOutput.
Context `{W : World}.
Variables (base folder : string).

Lemma folder_lines_final (kept : list folder_result) :
  folder_lines (folder_final kept) = sort_desc snd kept.
Proof.
  destruct kept as [|r kept]; [reflexivity|].
  unfold folder_final. generalize (sort_desc snd (r :: kept)) as l. intros l.
  change (folder_lines (FolderHeader :: ?x)) with (folder_lines x).
  induction l as [|[f q] l IH]; [reflexivity|].
  change (folder_lines (map (fun r0 : string * Q => FolderLine r0.1 r0.2) ((f, q) :: l)))
    with ((f, q) :: folder_lines (map (fun r0 : string * Q => FolderLine r0.1 r0.2) l)).
  f_equal. exact IH.
Qed.


Lemma folder_kept_mono (t1 t2 : Q) (a : ndarray) (entries : list string) :
  (t1 <= t2)%Q ->
  sublist (folder_kept base folder t2 a entries) (folder_kept base folder t1 a entries).
Proof.
  intros Hle. induction entries as [|f entries IH]; [constructor|].
  cbn [folder_kept flat_map].
  fold (folder_kept base folder t1 a entries). fold (folder_kept base folder t2 a entries).
  destruct (String.eqb (abspath (path_join folder f)) (abspath base)); [exact IH|].
  destruct (folder_score a (load_value (path_join folder f))) as [q|e]; [|exact IH].
  destruct (Qle_bool t2 q) eqn:E2.
  - apply Qle_bool_iff in E2.
    assert (E1 : Qle_bool t1 q = true) by (apply Qle_bool_iff; eapply Qle_trans; eassumption).
    rewrite E1. apply sublist_skip, IH.
  - destruct (Qle_bool t1 q); [apply sublist_cons, IH | exact IH].
Qed.

Lemma folder_mode_lines (t : Q) (a : ndarray) (entries : list string) (s : io) :
  normalized base = Ok a -> os_listdir folder = Ok entries ->
  folder_lines (console (snd (compare_image_with_folder base folder t s)))
  = folder_lines (console s) ++
    folder_kept base folder t a entries ++
    sort_desc snd (folder_kept base folder t a entries).
Proof.
  intros Ha He.
  destruct (compare_image_with_folder_spec base folder t a entries s Ha He) as (s1 & E & Hw).
  rewrite E. cbn [snd]. rewrite folder_report_console.
  unfold folder_lines at 1. rewrite omap_app.
  change (omap _ (console s1)) with (folder_lines (console s1)).
  change (omap _ (folder_final ?k)) with (folder_lines (folder_final k)).
  rewrite Hw, folder_lines_final, <- app_assoc. reflexivity.
Qed.

Lemma folder_mode_lines_missing (t : Q) (a : ndarray) (e : string) (s : io) :
  normalized base = Ok a -> os_listdir folder = Err e ->
  folder_lines (console (snd (compare_image_with_folder base folder t s)))
  = folder_lines (console s).
Proof.
  intros Ha He. rewrite (compare_image_with_folder_missing base folder t a e s Ha He).
  cbn [snd]. apply load_image_folder_lines.
Qed.

End FolderOutput.



(** X9.  In base-vs-folder mode raising the threshold only removes result
    lines: the entries kept at the higher threshold are, in order, among
    those kept at the lower one. *)
Theorem folder_threshold_monotone `{W : World}
    (base folder : string) (t1 t2 : Q) (s : io) (a : ndarray) :
  normalized base = Ok a -> (t1 <= t2)%Q ->
  exists kept1 kept2,
    folder_lines (console (snd (compare_image_with_folder base folder t1 s)))
    = folder_lines (console s) ++ kept1 ++ sort_desc snd kept1 /\
    folder_lines (console (snd (compare_image_with_folder base folder t2 s)))
    = folder_lines (console s) ++ kept2 ++ sort_desc snd kept2 /\
    sublist kept2 kept1.
Proof.
  intros Ha Hle. destruct (os_listdir folder) as [entries|e] eqn:He.
  - exists (folder_kept base folder t1 a entries), (folder_kept base folder t2 a entries).
    split; [apply folder_mode_lines; assumption|].
    split; [apply folder_mode_lines; assumption|].
    apply folder_kept_mono, Hle.
  - exists [], []. cbn [sort_desc app]. rewrite !app_nil_r.
    split; [eapply folder_mode_lines_missing; eassumption|].
    split; [eapply folder_mode_lines_missing; eassumption | constructor].
Qed.

Lemma folder_threshold_monotone_witness :
  exists kept1 kept2,
    folder_lines (console (snd (compare_image_with_folder (W := Toy.world true)
                                  "pics/c.jpg" "pics" 0 Toy.fresh)))
    = folder_lines (console Toy.fresh) ++ kept1 ++ sort_desc snd kept1 /\
    folder_lines (console (snd (compare_image_with_folder (W := Toy.world true)
                                  "pics/c.jpg" "pics" 80 Toy.fresh)))
    = folder_lines (console Toy.fresh) ++ kept2 ++ sort_desc snd kept2 /\
    sublist kept2 kept1.
Proof.
  apply (folder_threshold_monotone (W := Toy.world true) "pics/c.jpg" "pics" 0 80 Toy.fresh
           (Toy.normalized_image "pics/c.jpg")).
  - assert (H : is_ok (normalized (W := Toy.world true) "pics/c.jpg") = true)
      by (vm_compute; reflexivity).
    unfold Toy.normalized_image.
    destruct (normalized (W := Toy.world true) "pics/c.jpg"); [reflexivity | discriminate H].
  - unfold Qle. simpl. lia.
Defined.

(** ** The menu *)

Section MenuFacts.
Context `{W : World} `{Sh : Shell}.
Variable sigint : option nat.

Lemma input_line (prompt : menu) (line : string) (rest : list string)
    (out : list (menu + event)) (h : list string) :
  input prompt (mk_session (line :: rest) out h)
  = Reply line (mk_session rest (out ++ [inl prompt]) h).
Proof. reflexivity. Qed.

Lemma input_eof (prompt : menu) (out : list (menu + event)) (h : list string) :
  input prompt (mk_session [] out h)
  = Abort (LibError "EOFError") (mk_session [] (out ++ [inl prompt]) h).
Proof. reflexivity. Qed.

Lemma call_load_image_quiet (p : string) (ins : list string)
    (out : list (menu + event)) (h : list string) :
  call_load_image p (mk_session ins out h)
  = Reply (load_value p) (mk_session ins (out ++ map inr (load_failure p)) h).
Proof.
  unfold call_load_image. rewrite load_image_quiet. reflexivity.
Qed.

Lemma core_events_app (a b : list (menu + event)) :
  core_events (a ++ b) = core_events a ++ core_events b.
Proof. apply omap_app. Qed.

Lemma menu_lines_app (a b : list (menu + event)) :
  menu_lines (a ++ b) = menu_lines a ++ menu_lines b.
Proof. apply omap_app. Qed.

Lemma core_events_inr (l : list event) : core_events (map inr l) = l.
Proof. induction l as [|e l IH]; [reflexivity|]. cbn. f_equal. exact IH. Qed.

Lemma menu_lines_inr (l : list event) : menu_lines (map inr l) = [].
Proof. induction l as [|e l IH]; [reflexivity|]. exact IH. Qed.

Lemma core_events_inl (l : list menu) : core_events (map inl l) = [].
Proof. induction l as [|e l IH]; [reflexivity|]. exact IH. Qed.

Lemma menu_lines_inl (l : list menu) : menu_lines (map inl l) = l.
Proof. induction l as [|e l IH]; [reflexivity|]. cbn. f_equal. exact IH. Qed.

(** What [compare_two_images] does once it has read its two lines. *)
Lemma compare_two_images_run (line1 line2 : string) (rest : list string)
    (out : list (menu + event)) (h : list string) :
  compare_two_images (mk_session (line1 :: line2 :: rest) out h)
  = let out' := ((out ++ [inl AskFirstImage]) ++ [inl AskSecondImage])
                ++ map inr (load_failure (PyInput.strip line1)) in
    let s' := mk_session rest (out' ++ map inr (load_failure (PyInput.strip line2))) h in
    match normalized (PyInput.strip line1), normalized (PyInput.strip line2) with
    | Ok a1, Ok a2 =>
      match score_of a1 a2 with
      | Ok q => Reply tt (say (SimilarityLine q) s')
      | Err e => Abort (LibError e) s'
      end
    | Ok _, Err e => Abort (LibError e) s'
    | Err e, _ => Abort (LibError e) s'
    end.
Proof.
  unfold compare_two_images, and_then. rewrite !input_line, !call_load_image_quiet.
  unfold normalized, score_of, lift_res.
  destruct (preprocess_image (load_value (PyInput.strip line1)) default_size) as [a1|e];
    [|reflexivity].
  destruct (preprocess_image (load_value (PyInput.strip line2)) default_size) as [a2|e];
    [|reflexivity].
  destruct (reconcile_shape a1 a2) as [a2'|e]; [|reflexivity].
  destruct (compare_images a1 a2') as [q|e]; reflexivity.
Qed.

End MenuFacts.

(** X10.  [compare_two_images] reads two lines, strips them, and loads
    both files before anything else.  When both images normalize and the
    metric succeeds it prints the score the folder scan computes for the
    same two files; when an image does not normalize, or the metric
    raises, the exception leaves the function (there is no handler) and
    no similarity is printed.  Stated for lines of ASCII characters. *)
Theorem compare_two_images_prints_pair_score `{W : World}
    (line1 line2 : string) (rest : list string) (out : list (menu + event)) (h : list string) :
  PyInput.is_ascii line1 = true -> PyInput.is_ascii line2 = true ->
  stdin (session_of (compare_two_images (mk_session (line1 :: line2 :: rest) out h))) = rest /\
  loader_history (session_of (compare_two_images (mk_session (line1 :: line2 :: rest) out h)))
  = h /\
  core_events (tty (session_of (compare_two_images (mk_session (line1 :: line2 :: rest) out h))))
  = core_events out ++ load_failure (PyInput.strip line1) ++ load_failure (PyInput.strip line2) /\
  match normalized (PyInput.strip line1), normalized (PyInput.strip line2) with
  | Ok a1, Ok a2 =>
    match score_of a1 a2 with
    | Ok q =>
      aborted (compare_two_images (mk_session (line1 :: line2 :: rest) out h)) = None /\
      menu_lines (tty (session_of
         (compare_two_images (mk_session (line1 :: line2 :: rest) out h))))
      = menu_lines out ++ [AskFirstImage; AskSecondImage; SimilarityLine q] /\
      pair_matches q [PyInput.strip line1; PyInput.strip line2] (0, 1)
      = [(basename (PyInput.strip line1), basename (PyInput.strip line2), q)]
    | Err e =>
      aborted (compare_two_images (mk_session (line1 :: line2 :: rest) out h))
      = Some (LibError e) /\
      menu_lines (tty (session_of
         (compare_two_images (mk_session (line1 :: line2 :: rest) out h))))
      = menu_lines out ++ [AskFirstImage; AskSecondImage]
    end
  | Ok _, Err e | Err e, _ =>
    aborted (compare_two_images (mk_session (line1 :: line2 :: rest) out h))
    = Some (LibError e) /\
    menu_lines (tty (session_of
       (compare_two_images (mk_session (line1 :: line2 :: rest) out h))))
    = menu_lines out ++ [AskFirstImage; AskSecondImage]
  end.
Proof.
  intros _ _. rewrite compare_two_images_run. cbv zeta.
  destruct (normalized (PyInput.strip line1)) as [a1|e1] eqn:E1;
    destruct (normalized (PyInput.strip line2)) as [a2|e2] eqn:E2;
    try destruct (score_of a1 a2) as [q|e] eqn:Es;
    cbn [session_of aborted say stdin tty loader_history];
    repeat split; try reflexivity;
    try (rewrite ?menu_lines_app, ?core_events_app, ?menu_lines_inr, ?core_events_inr;
         simpl; rewrite ?app_nil_r, <- ?app_assoc; reflexivity).
  unfold pair_matches. cbn [fst snd lookup list_lookup]. rewrite E1, E2, Es.
  cbn [matches_of]. rewrite (proj2 (Qle_bool_iff q q) (Qle_refl q)). reflexivity.
Qed.

Lemma compare_two_images_prints_pair_score_witness :
  stdin (session_of (compare_two_images (W := Toy.world true)
                       (mk_session ["pics/a.png "; " pics/c.jpg"; ""] [] []))) = [""] /\
  loader_history (session_of (compare_two_images (W := Toy.world true)
                                (mk_session ["pics/a.png "; " pics/c.jpg"; ""] [] []))) = [] /\
  core_events (tty (session_of (compare_two_images (W := Toy.world true)
                                  (mk_session ["pics/a.png "; " pics/c.jpg"; ""] [] []))))
  = core_events [] ++ load_failure (W := Toy.world true) (PyInput.strip "pics/a.png ")
    ++ load_failure (W := Toy.world true) (PyInput.strip " pics/c.jpg") /\
  match normalized (W := Toy.world true) (PyInput.strip "pics/a.png "),
        normalized (W := Toy.world true) (PyInput.strip " pics/c.jpg") with
  | Ok a1, Ok a2 =>
    match score_of (W := Toy.world true) a1 a2 with
    | Ok q =>
      aborted (compare_two_images (W := Toy.world true)
                 (mk_session ["pics/a.png "; " pics/c.jpg"; ""] [] [])) = None /\
      menu_lines (tty (session_of
         (compare_two_images (W := Toy.world true)
            (mk_session ["pics/a.png "; " pics/c.jpg"; ""] [] []))))
      = menu_lines [] ++ [AskFirstImage; AskSecondImage; SimilarityLine q] /\
      pair_matches (W := Toy.world true) q
        [PyInput.strip "pics/a.png "; PyInput.strip " pics/c.jpg"] (0, 1)
      = [(basename (World := Toy.world true) (PyInput.strip "pics/a.png "),
          basename (World := Toy.world true) (PyInput.strip " pics/c.jpg"), q)]
    | Err e =>
      aborted (compare_two_images (W := Toy.world true)
                 (mk_session ["pics/a.png "; " pics/c.jpg"; ""] [] []))
      = Some (LibError e) /\
      menu_lines (tty (session_of
         (compare_two_images (W := Toy.world true)
            (mk_session ["pics/a.png "; " pics/c.jpg"; ""] [] []))))
      = menu_lines [] ++ [AskFirstImage; AskSecondImage]
    end
  | Ok _, Err e | Err e, _ =>
    aborted (compare_two_images (W := Toy.world true)
               (mk_session ["pics/a.png "; " pics/c.jpg"; ""] [] []))
    = Some (LibError e) /\
    menu_lines (tty (session_of
       (compare_two_images (W := Toy.world true)
          (mk_session ["pics/a.png "; " pics/c.jpg"; ""] [] []))))
    = menu_lines [] ++ [AskFirstImage; AskSecondImage]
  end.
Proof.
  apply (compare_two_images_prints_pair_score (W := Toy.world true)
           "pics/a.png " " pics/c.jpg" [""] [] []); reflexivity.
Defined.

(** The two pictures of the small world, typed with blanks around the
    paths: a white and a black picture have score 0. *)
Example toy_compare_two_images :
  menu_lines (tty (session_of (compare_two_images (W := Toy.world true)
                                 (ToyShell.typing ["pics/a.png "; " pics/c.jpg"]))))
  = [AskFirstImage; AskSecondImage; SimilarityLine 0].
Proof. vm_compute. reflexivity. Qed.

Section MainFacts.
Context `{W : World} `{Sh : Shell}.
Variable sigint : option nat.

Lemma ask_threshold_line (line : string) (rest : list string)
    (out : list (menu + event)) (h : list string) :
  ask_threshold (mk_session (line :: rest) out h)
  = match float_of_text line with
    | Ok q => Reply q (mk_session rest (out ++ [inl AskThreshold]) h)
    | Err e => Abort (LibError e) (mk_session rest (out ++ [inl AskThreshold]) h)
    end.
Proof.
  unfold ask_threshold, and_then. rewrite input_line. unfold lift_res.
  destruct (float_of_text line); reflexivity.
Qed.

Lemma call_compare_run (base folder : string) (q : Q) (ins : list string)
    (out : list (menu + event)) (h : list string) (message : menu) :
  try_or_say (fun s => call_compare_image_with_folder base folder q s) message
             (mk_session ins out h)
  = let c := compare_image_with_folder base folder q {| history := h; console := [] |} in
    Reply tt (mk_session ins
                (out ++ map inr (console (snd c))
                     ++ (if negb (is_ok (fst c)) then [inl message] else []))
                (history (snd c))).
Proof.
  unfold try_or_say, call_compare_image_with_folder, io_of, after_io. cbv zeta.
  cbn [stdin tty loader_history].
  destruct (compare_image_with_folder base folder q {| history := h; console := [] |})
    as [[[]|e] o]; cbn [fst snd is_ok negb].
  - rewrite app_nil_r. reflexivity.
  - unfold say. cbn [stdin tty loader_history]. rewrite <- app_assoc. reflexivity.
Qed.

Lemma call_scan_run (folder : string) (q : Q) (ins : list string)
    (out : list (menu + event)) (h : list string) (message : menu) :
  try_or_say (fun s => call_auto_scan_folder sigint folder q s) message (mk_session ins out h)
  = let o := auto_scan_folder sigint folder q {| history := h; console := [] |} in
    Reply tt (mk_session ins
                (out ++ map inr (console (sio (final_state o)))
                     ++ (match o with Done _ _ => [] | Raised _ _ => [inl message] end))
                (history (sio (final_state o)))).
Proof.
  unfold try_or_say, call_auto_scan_folder, io_of, after_io. cbv zeta.
  cbn [stdin tty loader_history].
  destruct (auto_scan_folder sigint folder q {| history := h; console := [] |})
    as [r st|e st]; cbn [final_state].
  - rewrite app_nil_r. reflexivity.
  - unfold say. cbn [stdin tty loader_history]. rewrite <- app_assoc. reflexivity.
Qed.

End MainFacts.

Section MainRoutes.
Context `{W : World} `{Sh : Shell}.
Variable sigint : option nat.

Lemma main_mode_1 (mode : string) (ins : list string) (out : list (menu + event))
    (h : list string) :
  PyInput.strip mode = "1" ->
  main sigint (mk_session (mode :: ins) out h)
  = and_then
      (try_or_say
         (and_then ask_threshold
            (fun min_sim =>
               call_compare_image_with_folder (path_join getcwd "test.png") getcwd min_sim))
         BadInputQuick)
      (fun _ => and_then (input AskExit) (fun _ s => Reply tt s))
      (mk_session ins ((out ++ [inl ModeMenu]) ++ [inl AskMode]) h).
Proof.
  intros Hm. unfold main, and_then, input, say. cbn [stdin tty loader_history].
  rewrite Hm. reflexivity.
Qed.

Lemma main_mode_2 (mode action : string) (ins : list string) (out : list (menu + event))
    (h : list string) :
  PyInput.strip mode = "2" ->
  main sigint (mk_session (mode :: action :: ins) out h)
  = and_then
      (if String.eqb (PyInput.strip action) "1" then compare_two_images
       else if String.eqb (PyInput.strip action) "2" then
         and_then (input AskBase) (fun line =>
         and_then (input AskFolder) (fun line0 =>
           try_or_say
             (and_then ask_threshold
                (fun min_sim =>
                   call_compare_image_with_folder (PyInput.strip line)
                     (PyInput.strip line0) min_sim))
             InputError))
       else if String.eqb (PyInput.strip action) "3" then
         and_then (input AskFolder) (fun line =>
           try_or_say
             (and_then ask_threshold
                (fun min_sim => call_auto_scan_folder sigint (PyInput.strip line) min_sim))
             InputError)
       else fun s => Reply tt (say BadChoice s))
      (fun _ => and_then (input AskExit) (fun _ s => Reply tt s))
      (mk_session ins ((((out ++ [inl ModeMenu]) ++ [inl AskMode]) ++ [inl ActionMenu])
                       ++ [inl AskAction]) h).
Proof.
  intros Hm. unfold main, and_then, input, say. cbn [stdin tty loader_history].
  rewrite Hm. reflexivity.
Qed.

End MainRoutes.

(** X11.  A threshold text that [float] rejects never reaches the
    comparison functions: on each of the three routes [main] prints the
    route's error message, nothing is loaded or compared, and [main] goes
    on to its exit prompt and returns. *)
Theorem main_rejects_bad_threshold `{W : World} `{Sh : Shell}
    (sigint : option nat) (r : route) (mode action text enter : string)
    (rest : list string) (out : list (menu + event)) (h : list string) (e : string) :
  route_taken r mode action -> float_of_text text = Err e ->
  main sigint (mk_session (route_lines r mode action ++ text :: enter :: rest) out h)
  = Reply tt (mk_session rest
                (out ++ map inl (route_prompts r ++ [route_message r; AskExit])) h).
Proof.
  intros Hroute Hfloat. destruct r as [|base folder|folder]; cbn [route_taken] in Hroute;
    cbn [route_lines route_prompts route_message app map].
  - rewrite (main_mode_1 sigint) by exact Hroute.
    unfold and_then, try_or_say. rewrite ask_threshold_line, Hfloat.
    unfold say. cbn [stdin tty loader_history]. rewrite input_line.
    rewrite <- !app_assoc. reflexivity.
  - destruct Hroute as [Hm Ha]. rewrite (main_mode_2 sigint) by exact Hm. rewrite Ha.
    cbn [String.eqb Ascii.eqb Bool.eqb].
    unfold and_then, try_or_say. rewrite !input_line, ask_threshold_line, Hfloat.
    unfold say. cbn [stdin tty loader_history]. rewrite input_line.
    rewrite <- !app_assoc. reflexivity.
  - destruct Hroute as [Hm Ha]. rewrite (main_mode_2 sigint) by exact Hm. rewrite Ha.
    cbn [String.eqb Ascii.eqb Bool.eqb].
    unfold and_then, try_or_say. rewrite !input_line, ask_threshold_line, Hfloat.
    unfold say. cbn [stdin tty loader_history]. rewrite input_line.
    rewrite <- !app_assoc. reflexivity.
Qed.

Lemma main_rejects_bad_threshold_witness :
  main (W := Toy.world true) (Sh := ToyShell.shell) None
    (mk_session (route_lines (WholeFolder "pics") " 2" "3 " ++ "high" :: "" :: []) [] [])
  = Reply tt (mk_session []
                ([] ++ map inl (route_prompts (WholeFolder "pics")
                                ++ [route_message (WholeFolder "pics"); AskExit])) []).
Proof.
  apply (main_rejects_bad_threshold (W := Toy.world true) (Sh := ToyShell.shell) None
           (WholeFolder "pics") " 2" "3 " "high" "" [] [] []
           "ValueError: could not convert string to float").
  - split; reflexivity.
  - reflexivity.
Defined.

(** X12.  With a threshold that parses, [main] calls the function of the
    route, on the stripped paths, and never lets its exception out:
    whatever the function wrote appears after the prompts, an exception
    it raised (a base image that cannot be preprocessed, a folder that
    cannot be listed, the [UnboundLocalError] of the scan without the
    progress-bar library) is reported with the route's error message, and
    [main] goes on to its exit prompt and returns.  Stated for path lines
    of ASCII characters. *)
Theorem main_reports_core_failure `{W : World} `{Sh : Shell}
    (sigint : option nat) (r : route) (mode action text enter : string)
    (rest : list string) (out : list (menu + event)) (h : list string) (q : Q) :
  route_taken r mode action -> route_ascii r -> float_of_text text = Ok q ->
  main sigint (mk_session (route_lines r mode action ++ text :: enter :: rest) out h)
  = Reply tt (mk_session rest
                (out ++ map inl (route_prompts r)
                     ++ map inr (console (fst (route_call sigint r q h)))
                     ++ (if snd (route_call sigint r q h) then [inl (route_message r)] else [])
                     ++ [inl AskExit])
                (history (fst (route_call sigint r q h)))).
Proof.
  intros Hroute _ Hfloat. destruct r as [|base folder|folder]; cbn [route_taken] in Hroute;
    cbn [route_lines route_prompts route_message route_call app map fst snd].
  - rewrite (main_mode_1 sigint) by exact Hroute.
    unfold and_then at 1. unfold try_or_say, and_then at 1.
    rewrite ask_threshold_line, Hfloat.
    pose proof (call_compare_run (path_join getcwd "test.png") getcwd q (enter :: rest)
                  (((out ++ [inl ModeMenu]) ++ [inl AskMode]) ++ [inl AskThreshold]) h
                  BadInputQuick) as Hcall.
    unfold try_or_say in Hcall. cbv zeta in Hcall. rewrite Hcall.
    unfold and_then. rewrite input_line. rewrite <- !app_assoc. reflexivity.
  - destruct Hroute as [Hm Ha]. rewrite (main_mode_2 sigint) by exact Hm. rewrite Ha.
    cbn [String.eqb Ascii.eqb Bool.eqb].
    unfold and_then at 1. unfold and_then at 1. rewrite input_line.
    unfold and_then at 1. rewrite input_line.
    unfold try_or_say, and_then at 1. rewrite ask_threshold_line, Hfloat.
    pose proof (call_compare_run (PyInput.strip base) (PyInput.strip folder) q (enter :: rest)
                  (((((((out ++ [inl ModeMenu]) ++ [inl AskMode]) ++ [inl ActionMenu])
                     ++ [inl AskAction]) ++ [inl AskBase]) ++ [inl AskFolder])
                   ++ [inl AskThreshold]) h InputError) as Hcall.
    unfold try_or_say in Hcall. cbv zeta in Hcall. rewrite Hcall.
    unfold and_then. rewrite input_line. rewrite <- !app_assoc. reflexivity.
  - destruct Hroute as [Hm Ha]. rewrite (main_mode_2 sigint) by exact Hm. rewrite Ha.
    cbn [String.eqb Ascii.eqb Bool.eqb].
    unfold and_then at 1. unfold and_then at 1. rewrite input_line.
    unfold try_or_say, and_then at 1. rewrite ask_threshold_line, Hfloat.
    pose proof (call_scan_run sigint (PyInput.strip folder) q (enter :: rest)
                  ((((((out ++ [inl ModeMenu]) ++ [inl AskMode]) ++ [inl ActionMenu])
                     ++ [inl AskAction]) ++ [inl AskFolder])
                   ++ [inl AskThreshold]) h InputError) as Hcall.
    unfold try_or_say in Hcall. cbv zeta in Hcall. rewrite Hcall.
    unfold and_then. rewrite input_line.
    destruct (auto_scan_folder sigint (PyInput.strip folder) q
                {| history := h; console := [] |}) as [res st|ex st];
      cbn [final_state]; rewrite <- !app_assoc; reflexivity.
Qed.

Lemma main_reports_core_failure_witness :
  main (W := Toy.world false) (Sh := ToyShell.shell) None
    (mk_session (route_lines (WholeFolder "pics") " 2" "3 " ++ "80" :: "" :: []) [] [])
  = Reply tt (mk_session []
                ([] ++ map inl (route_prompts (WholeFolder "pics"))
                    ++ map inr (console (fst (route_call (W := Toy.world false)
                                                (Sh := ToyShell.shell) None
                                                (WholeFolder "pics") 80 [])))
                    ++ (if snd (route_call (W := Toy.world false) (Sh := ToyShell.shell) None
                                  (WholeFolder "pics") 80 [])
                        then [inl (route_message (WholeFolder "pics"))] else [])
                    ++ [inl AskExit])
                (history (fst (route_call (W := Toy.world false) (Sh := ToyShell.shell) None
                                 (WholeFolder "pics") 80 [])))).
Proof.
  apply (main_reports_core_failure (W := Toy.world false) (Sh := ToyShell.shell) None
           (WholeFolder "pics") " 2" "3 " "80" "" [] [] [] 80).
  - split; reflexivity.
  - reflexivity.
  - reflexivity.
Defined.

(** Without the progress-bar library the whole-folder scan started from
    the menu ends in "Ошибка ввода!"; with it the menu ends normally.  A
    folder that does not exist ends the comparison with a folder in
    "Ошибка ввода!".  In quick mode the working directory holds no
    test.png and the menu ends in "Некорректный ввод!". *)
Example toy_menu_scan_without_bar :
  menu_lines (tty (session_of (main (W := Toy.world false) (Sh := ToyShell.shell) None
                                 (ToyShell.typing ["2"; "3"; "pics"; "80"; ""]))))
  = [ModeMenu; AskMode; ActionMenu; AskAction; AskFolder; AskThreshold; InputError; AskExit].
Proof. vm_compute. reflexivity. Qed.

Example toy_menu_scan_with_bar :
  menu_lines (tty (session_of (main (W := Toy.world true) (Sh := ToyShell.shell) None
                                 (ToyShell.typing ["2"; "3"; "pics"; "80"; ""]))))
  = [ModeMenu; AskMode; ActionMenu; AskAction; AskFolder; AskThreshold; AskExit].
Proof. vm_compute. reflexivity. Qed.

Example toy_menu_folder_missing :
  menu_lines (tty (session_of (main (W := Toy.world true) (Sh := ToyShell.shell) None
                                 (ToyShell.typing ["2"; "2"; "pics/c.jpg"; "nowhere"; "0"; ""]))))
  = [ModeMenu; AskMode; ActionMenu; AskAction; AskBase; AskFolder; AskThreshold;
     InputError; AskExit].
Proof. vm_compute. reflexivity. Qed.

Example toy_menu_quick_without_test_png :
  menu_lines (tty (session_of (main (W := Toy.world true) (Sh := ToyShell.shell) None
                                 (ToyShell.typing [" 1 "; "80"; ""]))))
  = [ModeMenu; AskMode; AskThreshold; BadInputQuick; AskExit].
Proof. vm_compute. reflexivity. Qed.

(** X13.  The comparison of two images is the one action [main] calls
    outside a [try]: when the first image cannot be preprocessed, the
    exception leaves [main], after both files were loaded, and the exit
    prompt is never shown.  Stated for path lines of ASCII characters. *)
Theorem main_lets_comparison_failure_out `{W : World} `{Sh : Shell}
    (sigint : option nat) (mode action line1 line2 : string)
    (rest : list string) (out : list (menu + event)) (h : list string) (e : string) :
  PyInput.strip mode = "2" -> PyInput.strip action = "1" ->
  PyInput.is_ascii line1 = true -> PyInput.is_ascii line2 = true ->
  normalized (PyInput.strip line1) = Err e ->
  main sigint (mk_session (mode :: action :: line1 :: line2 :: rest) out h)
  = Abort (LibError e)
      (mk_session rest
         (out ++ map inl [ModeMenu; AskMode; ActionMenu; AskAction;
                          AskFirstImage; AskSecondImage]
              ++ map inr (load_failure (PyInput.strip line1)
                          ++ load_failure (PyInput.strip line2))) h).
Proof.
  intros Hm Ha _ _ He. rewrite (main_mode_2 sigint) by exact Hm. rewrite Ha.
  cbn [String.eqb Ascii.eqb Bool.eqb]. unfold and_then at 1.
  rewrite compare_two_images_run. cbv zeta. rewrite He.
  rewrite map_app, <- !app_assoc. reflexivity.
Qed.

Lemma main_lets_comparison_failure_out_witness :
  main (W := Toy.world true) (Sh := ToyShell.shell) None
    (mk_session ["2"; "1"; "pics/broken.bmp"; "pics/a.png"; ""] [] [])
  = Abort (LibError "cv2.error: resize of None")
      (mk_session [""]
         ([] ++ map inl [ModeMenu; AskMode; ActionMenu; AskAction;
                         AskFirstImage; AskSecondImage]
             ++ map inr (load_failure (W := Toy.world true) (PyInput.strip "pics/broken.bmp")
                         ++ load_failure (W := Toy.world true) (PyInput.strip "pics/a.png")))
         []).
Proof.
  apply (main_lets_comparison_failure_out (W := Toy.world true) (Sh := ToyShell.shell) None
           "2" "1" "pics/broken.bmp" "pics/a.png" [""] [] []
           "cv2.error: resize of None").
  - reflexivity.
  - reflexivity.
  - reflexivity.
  - reflexivity.
  - vm_compute. reflexivity.
Defined.

(** X14.  A mode other than 1 or 2, or in mode 2 an action other than 1,
    2 or 3 (compared after stripping), is answered by a message and the
    exit prompt, and nothing is loaded; at the end of standard input the
    first prompt raises EOFError, which leaves [main].  Stated for lines
    of ASCII characters. *)
Theorem main_refuses_unknown_choice `{W : World} `{Sh : Shell}
    (sigint : option nat) (mode mode2 action enter : string)
    (rest : list string) (out : list (menu + event)) (h : list string) :
  PyInput.is_ascii mode = true -> PyInput.is_ascii action = true ->
  PyInput.strip mode <> "1" -> PyInput.strip mode <> "2" ->
  PyInput.strip mode2 = "2" ->
  PyInput.strip action <> "1" -> PyInput.strip action <> "2" -> PyInput.strip action <> "3" ->
  main sigint (mk_session (mode :: enter :: rest) out h)
  = Reply tt (mk_session rest (out ++ map inl [ModeMenu; AskMode; BadMode; AskExit]) h) /\
  main sigint (mk_session (mode2 :: action :: enter :: rest) out h)
  = Reply tt (mk_session rest
                (out ++ map inl [ModeMenu; AskMode; ActionMenu; AskAction; BadChoice; AskExit])
                h) /\
  main sigint (mk_session [] out h)
  = Abort (LibError "EOFError") (mk_session [] (out ++ map inl [ModeMenu; AskMode]) h).
Proof.
  intros _ _ H1 H2 Hm2 Ha1 Ha2 Ha3. split; [|split].
  - unfold main, and_then, input, say. cbn [stdin tty loader_history].
    rewrite (proj2 (String.eqb_neq _ _) H1), (proj2 (String.eqb_neq _ _) H2).
    cbn [stdin tty loader_history map]. rewrite <- !app_assoc. reflexivity.
  - rewrite (main_mode_2 sigint) by exact Hm2.
    rewrite (proj2 (String.eqb_neq _ _) Ha1), (proj2 (String.eqb_neq _ _) Ha2),
      (proj2 (String.eqb_neq _ _) Ha3).
    unfold and_then, input, say. cbn [stdin tty loader_history map].
    rewrite <- !app_assoc. reflexivity.
  - unfold main, and_then, input, say. cbn [stdin tty loader_history map].
    rewrite <- !app_assoc. reflexivity.
Qed.

Lemma main_refuses_unknown_choice_witness :
  main (W := Toy.world true) (Sh := ToyShell.shell) None (mk_session ["3"; ""] [] [])
  = Reply tt (mk_session [] ([] ++ map inl [ModeMenu; AskMode; BadMode; AskExit]) []) /\
  main (W := Toy.world true) (Sh := ToyShell.shell) None (mk_session [" 2"; "scan"; ""] [] [])
  = Reply tt (mk_session []
                ([] ++ map inl [ModeMenu; AskMode; ActionMenu; AskAction; BadChoice; AskExit])
                []) /\
  main (W := Toy.world true) (Sh := ToyShell.shell) None (mk_session [] [] [])
  = Abort (LibError "EOFError") (mk_session [] ([] ++ map inl [ModeMenu; AskMode]) []).
Proof.
  apply (main_refuses_unknown_choice (W := Toy.world true) (Sh := ToyShell.shell) None
           "3" " 2" "scan" "" [] [] []);
    try reflexivity; intros H; vm_compute in H; discriminate H.
Defined.

(** The separators 0x1c to 0x1f are stripped as blanks are: a mode line
    of 0x1f followed by 1 selects the quick mode. *)
Example toy_strip_separators :
  PyInput.strip (String (ascii_of_nat 31) "1") = "1" /\
  PyInput.strip (String (ascii_of_nat 28) (" 2" +:+ String (ascii_of_nat 9) "")) = "2" /\
  menu_lines (tty (session_of (main (W := Toy.world true) (Sh := ToyShell.shell) None
                                 (ToyShell.typing [String (ascii_of_nat 31) "1"; "80"; ""]))))
  = [ModeMenu; AskMode; AskThreshold; BadInputQuick; AskExit].
Proof. repeat split; vm_compute; reflexivity. Qed.

(** ** The load loop *)

Section LoadMarks.
Context `{W : World}.

Lemma load_marks_app (a b : list event) : load_marks (a ++ b) = load_marks a ++ load_marks b.
Proof. apply omap_app. Qed.

Lemma load_image_marks (p : string) (verbose : bool) (s : io) :
  load_marks (console (snd (load_image p verbose s))) = load_marks (console s).
Proof.
  unfold load_image.
  destruct (read_file (abspath p)) as [b|e].
  - destruct (cv2_imdecode b) as [image|e].
    + destruct (verbose && negb tqdm); cbn [snd emit console set_history]; [|reflexivity].
      rewrite load_marks_app. apply app_nil_r.
    + cbn [snd emit console]. rewrite load_marks_app. apply app_nil_r.
  - cbn [snd emit console]. rewrite load_marks_app. apply app_nil_r.
Qed.

Lemma cache_image_marks (p : string) (s : scan_state) :
  exists s', cache_image p s = Done tt s' /\
    load_marks (console (sio s')) = load_marks (console (sio s)) ++ load_mark p /\
    heap s' = heap s ++ load_array p.
Proof.
  unfold cache_image, load_mark, load_array, normalized. rewrite load_image_value.
  pose proof (load_image_marks p (negb tqdm) (sio s)) as Hm.
  destruct (preprocess_image (load_value p) default_size) as [a|e].
  - eexists. split; [reflexivity|]. destruct tqdm; cbn [print alloc cache_store set_sio sio heap emit console].
    + rewrite load_marks_app, Hm. split; reflexivity.
    + rewrite Hm, app_nil_r. split; reflexivity.
  - eexists. split; [reflexivity|]. cbn [print set_sio sio heap emit console].
    rewrite load_marks_app, Hm, app_nil_r. split; reflexivity.
Qed.

Lemma load_loop_marks (files : list string) (s : scan_state) :
  exists s', for_each files cache_image s = Done tt s' /\
    load_marks (console (sio s')) = load_marks (console (sio s)) ++ flat_map load_mark files /\
    heap s' = heap s ++ flat_map load_array files.
Proof.
  revert s. induction files as [|p files IH]; intros s.
  - exists s. cbn. rewrite !app_nil_r. repeat split.
  - destruct (cache_image_marks p s) as (s1 & E1 & Hm1 & Hh1).
    destruct (IH s1) as (s' & E' & Hm' & Hh').
    exists s'. cbn [for_each flat_map]. rewrite (bind_done _ _ _ _ _ E1), E'.
    rewrite Hm', Hm1, Hh', Hh1, <- !app_assoc. repeat split.
Qed.

End LoadMarks.

(** X15.  The load loop handles every candidate file exactly once, in the
    order of the list: a file that normalizes gets one new array, and with
    the progress-bar library one advance of the load bar; a file that does
    not gets one error message and no advance of the bar; the loop never
    raises. *)
Theorem load_loop_marks_each_file_once `{W : World} (files : list string) (s : io) :
  exists s1,
    load_phase files (enter s) = Done tt s1 /\
    load_marks (console (sio s1)) = load_marks (console s) ++ flat_map load_mark files /\
    heap s1 = flat_map load_array files /\
    length (heap s1) + length (List.filter (fun p => negb (is_ok (normalized p))) files)
    = length files.
Proof.
  unfold load_phase.
  destruct (load_loop_marks files (print (if tqdm then LoadBarOpen files else LoadBanner)
                                     (enter s))) as (s1 & E & Hm & Hh).
  assert (Hm0 : load_marks (console (sio (print (if tqdm then LoadBarOpen files else LoadBanner)
                                            (enter s)))) = load_marks (console s)).
  { cbn [print sio emit console enter]. rewrite load_marks_app.
    destruct tqdm; apply app_nil_r. }
  assert (Hcount : length (flat_map load_array files)
                   + length (List.filter (fun p => negb (is_ok (normalized p))) files)
                   = length files).
  { clear. induction files as [|p files IH]; [reflexivity|].
    cbn [flat_map List.filter length]. rewrite length_app. unfold load_array at 1.
    destruct (normalized p); cbn [is_ok negb length]; lia. }
  cbn [enter heap app] in Hh. rewrite Hm0 in Hm.
  unfold bind at 1, exec at 1. unfold bind at 1. rewrite E.
  destruct tqdm.
  - eexists. split; [reflexivity|]. cbn [print sio emit console heap].
    rewrite load_marks_app, Hm, Hh, app_nil_r. repeat split. exact Hcount.
  - exists s1. split; [reflexivity|]. rewrite Hm, Hh. repeat split. exact Hcount.
Qed.

(** ** Shapes after reconciliation *)

(** X16.  When [cv2.resize] returns an array of the requested size, the
    reconciliation of two single-channel images leaves the second operand
    with the shape of the first, so the metric is called on two images of
    equal shape; the second operand is passed on untouched when the
    shapes are equal already. *)
Theorem reconcile_gives_equal_shapes `{W : World} (img1 img2 reconciled : ndarray)
    (height width : nat) :
  (forall a w h b, cv2_resize a (w, h) = Ok b -> shape b = h :: w :: drop 2 (shape a)) ->
  shape img1 = [height; width] -> length (shape img2) = 2 ->
  reconcile_shape img1 img2 = Ok reconciled ->
  shape reconciled = shape img1 /\
  (shape img1 = shape img2 -> reconciled = img2) /\
  (shape img1 <> shape img2 -> cv2_resize img2 (width, height) = Ok reconciled).
Proof.
  intros Hresize H1 H2 Hr. unfold reconcile_shape, resize_like in Hr.
  destruct (bool_decide (shape img1 = shape img2)) eqn:E.
  - apply bool_decide_eq_true in E. injection Hr as <-.
    split; [symmetry; exact E|]. split; [reflexivity | contradiction].
  - apply bool_decide_eq_false in E. rewrite H1 in Hr. cbn [lookup list_lookup] in Hr.
    split; [|split; [contradiction | intros _; exact Hr]].
    apply Hresize in Hr. rewrite Hr, H1.
    destruct (shape img2) as [|x [|y [|z l]]]; cbn in H2; try lia. reflexivity.
Qed.

Lemma reconcile_gives_equal_shapes_witness :
  shape (Toy.solid [2; 3] 255) = shape (Toy.solid [2; 3] 255) /\
  (shape (Toy.solid [2; 3] 255) = shape (Toy.solid [4; 4] 255) ->
   Toy.solid [2; 3] 255 = Toy.solid [4; 4] 255) /\
  (shape (Toy.solid [2; 3] 255) <> shape (Toy.solid [4; 4] 255) ->
   cv2_resize (World := Toy.world true) (Toy.solid [4; 4] 255) (3, 2)
   = Ok (Toy.solid [2; 3] 255)).
Proof.
  apply (reconcile_gives_equal_shapes (W := Toy.world true)
           (Toy.solid [2; 3] 255) (Toy.solid [4; 4] 255) (Toy.solid [2; 3] 255) 2 3).
  - exact toy_resize_shape.
  - reflexivity.
  - reflexivity.
  - reflexivity.
Defined.

(** ** The recent files after the load loop *)

Lemma last_n_short {A} (n : nat) (l : list A) : length l <= n -> last_n n l = l.
Proof. intros H. unfold last_n. replace (length l - n) with 0 by lia. reflexivity. Qed.

Lemma last_n_length {A} (n : nat) (l : list A) : length (last_n n l) <= n.
Proof. unfold last_n. rewrite length_drop. lia. Qed.

Lemma last_n_app {A} (n : nat) (l r : list A) :
  last_n n (last_n n l ++ r) = last_n n (l ++ r).
Proof.
  destruct (le_lt_dec (length l) n) as [Hle|Hgt].
  - rewrite (last_n_short n l Hle). reflexivity.
  - unfold last_n. rewrite !length_app, length_drop.
    replace (length l - (length l - n) + length r - n) with (length r) by lia.
    replace (length l + length r - n) with ((length l - n) + length r) by lia.
    rewrite <- drop_drop. rewrite (drop_app_le l r) by lia. reflexivity.
Qed.

Section RecentFiles.
Context `{W : World}.

Lemma load_image_recorded (p : string) (s : io) :
  length (history s) <= 10 ->
  history (snd (load_image p (negb tqdm) s))
  = (if tqdm then history s else last_n 10 (history s ++ recorded_name p)).
Proof.
  intros Hlen. unfold load_image, recorded_name.
  destruct (read_file (abspath p)) as [b|e].
  - destruct (cv2_imdecode b) as [image|e].
    + destruct tqdm; cbn [negb andb snd emit set_history history]; reflexivity.
    + cbn [snd emit history]. rewrite app_nil_r, last_n_short by exact Hlen.
      destruct tqdm; reflexivity.
  - cbn [snd emit history]. rewrite app_nil_r, last_n_short by exact Hlen.
    destruct tqdm; reflexivity.
Qed.

Lemma cache_image_recorded (p : string) (s : scan_state) :
  length (history (sio s)) <= 10 ->
  exists s', cache_image p s = Done tt s' /\
    history (sio s')
    = (if tqdm then history (sio s) else last_n 10 (history (sio s) ++ recorded_name p)).
Proof.
  intros Hlen. pose proof (load_image_recorded p (sio s) Hlen) as Hh.
  unfold cache_image.
  destruct (preprocess_image (load_image p (negb tqdm) (sio s)).1 default_size) as [a|e].
  - eexists. split; [reflexivity|]. rewrite <- Hh. destruct tqdm; reflexivity.
  - eexists. split; [reflexivity|]. rewrite <- Hh. reflexivity.
Qed.

Lemma load_loop_recorded (files : list string) (s : scan_state) :
  length (history (sio s)) <= 10 ->
  exists s', for_each files cache_image s = Done tt s' /\
    history (sio s')
    = (if tqdm then history (sio s)
       else last_n 10 (history (sio s) ++ flat_map recorded_name files)).
Proof.
  revert s. induction files as [|p files IH]; intros s Hlen.
  - exists s. split; [reflexivity|]. cbn [flat_map]. rewrite app_nil_r, last_n_short by exact Hlen.
    destruct tqdm; reflexivity.
  - destruct (cache_image_recorded p s Hlen) as (s1 & E1 & Hh1).
    assert (Hlen1 : length (history (sio s1)) <= 10).
    { rewrite Hh1. destruct tqdm; [exact Hlen | apply last_n_length]. }
    destruct (IH s1 Hlen1) as (s' & E' & Hh').
    exists s'. cbn [for_each flat_map]. rewrite (bind_done _ _ _ _ _ E1), E'.
    split; [reflexivity|]. rewrite Hh', Hh1.
    destruct tqdm; [reflexivity|]. rewrite last_n_app, <- app_assoc. reflexivity.
Qed.

End RecentFiles.

(** X17.  Without the progress-bar library, after the load loop the
    history of [load_image] holds the last ten of the names, cut at 15
    characters, of the earlier history followed by the candidate files
    that were read and that [cv2.imdecode] did not raise on, in the order
    of the list; a file whose bytes are no image is among them although
    it is not cached.  With the library the history is left as it was. *)
Theorem load_loop_keeps_last_ten_names `{W : World} (files : list string) (s : io) :
  length (history s) <= 10 ->
  exists s1,
    load_phase files (enter s) = Done tt s1 /\
    history (sio s1)
    = (if tqdm then history s else last_n 10 (history s ++ flat_map recorded_name files)) /\
    length (history (sio s1)) <= 10.
Proof.
  intros Hlen. unfold load_phase.
  destruct (load_loop_recorded files (print (if tqdm then LoadBarOpen files else LoadBanner)
                                        (enter s)) Hlen) as (s1 & E & Hh).
  cbn [print enter sio emit history] in Hh.
  unfold bind at 1, exec at 1. unfold bind at 1. rewrite E.
  assert (Hbound : length (if tqdm then history s
                           else last_n 10 (history s ++ flat_map recorded_name files)) <= 10)
    by (destruct tqdm; [exact Hlen | apply last_n_length]).
  destruct tqdm.
  - eexists. split; [reflexivity|]. cbn [print sio emit history]. rewrite Hh.
    split; [reflexivity | exact Hbound].
  - exists s1. split; [reflexivity|]. rewrite Hh. split; [reflexivity | exact Hbound].
Qed.

Lemma load_loop_keeps_last_ten_names_witness :
  exists s1,
    load_phase (W := Toy.world false) (image_files (W := Toy.world false) "pics")
      (enter Toy.fresh) = Done tt s1 /\
    history (sio s1)
    = (if tqdm (World := Toy.world false) then history Toy.fresh
       else last_n 10 (history Toy.fresh
                       ++ flat_map (recorded_name (W := Toy.world false))
                            (image_files (W := Toy.world false) "pics"))) /\
    length (history (sio s1)) <= 10.
Proof.
  apply (load_loop_keeps_last_ten_names (W := Toy.world false)
           (image_files (W := Toy.world false) "pics") Toy.fresh).
  cbn. lia.
Defined.

(** The file broken.bmp, whose bytes are no image, is in the recent files
    of the small world though it is not cached. *)
Example toy_recent_files :
  history (sio (final_state (load_phase (W := Toy.world false)
                               (image_files (W := Toy.world false) "pics") (enter Toy.fresh))))
  = ["a.png"; "b.PNG"; "c.jpg"; "broken.bmp"].
Proof. vm_compute. reflexivity. Qed.

